(** * Global Platform T=1' data-link protocol engine (libs/t1prime)

    Shallow embedding of [t1prime.c], [t1prime.h], [t1prime/datastructures.h],
    [ifx/error.h] and [ifx/protocol.h], followed by the properties of the
    block codec, the IFS codec, the block retransmission loop, activation and
    the transceive state machine.

    Conventions of the embedding:
    - C integers are [Z]; a byte is a [Z] in [0, 255]; a buffer
      ([uint8_t *] with its length) is a [list Z]; the [NULL] buffer is [[]].
    - [malloc]/[realloc] are taken to succeed, so the [OUT_OF_MEMORY] returns
      are not reachable in the model.
    - [int] status codes are kept as the unsigned 32-bit pattern built by
      [IFX_ERROR]; only equality with [SUCCESS] and with each other is used.
    - The build variant modelled is the one with [INTERFACE_I2C] defined. *)

From Stdlib Require Import ZArith List Bool Lia.
Import ListNotations.
Open Scope Z_scope.

(** ** ifx/error.h *)

Definition SUCCESS : Z := 0x00000000.
Definition ERROR_INDICATOR : Z := 0x80000000.
Definition OUT_OF_MEMORY : Z := 0xfe.
Definition ILLEGAL_ARGUMENT : Z := 0xfd.
Definition TOO_LITTLE_DATA : Z := 0xfc.

Definition IFX_ERROR (md fn reason : Z) : Z :=
  Z.lor (Z.lor (Z.lor ERROR_INDICATOR (Z.shiftl (Z.land md 0xff) 16))
               (Z.shiftl (Z.land fn 0xff) 8))
        (Z.land reason 0xff).

Definition ifx_is_error (status_code : Z) : bool :=
  negb (Z.land status_code ERROR_INDICATOR =? 0).
Definition ifx_error_get_module (error_code : Z) : Z :=
  Z.shiftr (Z.land error_code 0x00ff0000) 16.
Definition ifx_error_get_function (error_code : Z) : Z :=
  Z.shiftr (Z.land error_code 0x0000ff00) 8.
Definition ifx_error_get_reason (error_code : Z) : Z :=
  Z.land error_code 0x000000ff.

(** ** ifx/protocol.h, ifx/t1prime.h: module and function identifiers *)

Definition LIBPROTOCOL : Z := 0x20.
Definition LIBT1PRIME : Z := 0x21.
Definition INVALID_PROTOCOLSTACK : Z := 0x8f.
Definition PROTOCOL_ACTIVATE : Z := 0x81.
Definition PROTOCOL_TRANSCEIVE : Z := 0x82.
Definition PROTOCOL_TRANSMIT : Z := 0x83.
Definition PROTOCOL_RECEIVE : Z := 0x84.
Definition PROTOCOL_GETPROPERTY : Z := 0x85.
Definition PROTOCOL_SETPROPERTY : Z := 0x86.
Definition PROTOCOL_ACTIVATE_SUCCESS : Z := SUCCESS.
Definition PROTOCOL_TRANSCEIVE_SUCCESS : Z := SUCCESS.
Definition PROTOCOL_TRANSMIT_SUCCESS : Z := SUCCESS.
Definition PROTOCOL_RECEIVE_SUCCESS : Z := SUCCESS.
Definition PROTOCOL_GETPROPERTY_SUCCESS : Z := SUCCESS.
Definition PROTOCOL_SETPROPERTY_SUCCESS : Z := SUCCESS.

(** ** t1prime/datastructures.h and t1prime.h: constants *)

Definition T1PRIME_BLOCK_ENCODE : Z := 0x70.
Definition T1PRIME_BLOCK_DECODE : Z := 0x60.
Definition T1PRIME_VALIDATE_CRC : Z := 0x50.
Definition T1PRIME_CIP_DECODE : Z := 0x30.
Definition T1PRIME_CIP_VALIDATE : Z := 0x31.
Definition T1PRIME_DLLP_DECODE : Z := 0x32.
Definition T1PRIME_PLP_DECODE : Z := 0x33.
Definition T1PRIME_IFS_DECODE : Z := 0x34.
Definition T1PRIME_IFS_ENCODE : Z := 0x35.
Definition INFORMATIONSIZE_MISMATCH : Z := 0x01.
Definition INVALID_CRC : Z := 0x02.
Definition INVALID_LENGTH : Z := 0x01.
Definition INVALID_PLID : Z := 0x02.
Definition TRANSCEIVE_ABORTED : Z := 0x60.
Definition INVALID_BLOCK : Z := 0x61.
Definition PLID_SPI : Z := 0x01.
Definition PLID_I2C : Z := 0x02.
Definition BLOCK_PROLOGUE_LENGTH : Z := 1 + 1 + 2.
Definition BLOCK_EPILOGUE_LENGTH : Z := 2.
Definition NAD_HD_TO_SE : Z := 0x21.
Definition T1PRIME_BLOCK_TRANSCEIVE_RETRIES : nat := 2.
Definition T1PRIME_DEFAULT_I2C_CLOCK_FREQUENCY : Z := 400000.
Definition T1PRIME_DEFAULT_I2C_MPOT : Z := 10.
Definition T1PRIME_MAX_IFS : Z := 0xff9.
Definition T1PRIME_DEFAULT_IFSC : Z := 0x08.
Definition T1PRIME_DEFAULT_BWT : Z := 300.

(** ** Protocol control byte macros (t1prime.h, region PCB) *)

Definition T1PRIME_PCB (type : Z) : Z := Z.land type 0xff.
Definition T1PRIME_PCB_I (ns : Z) (m : bool) : Z :=
  T1PRIME_PCB (Z.lor (if ns =? 0 then 0x00 else 0x40) (if m then 0x20 else 0x00)).
Definition T1PRIME_PCB_IS_I (pcb : Z) : bool := Z.land (T1PRIME_PCB pcb) 0x80 =? 0x00.
Definition T1PRIME_PCB_I_GET_NS (pcb : Z) : Z := Z.shiftr (Z.land (T1PRIME_PCB pcb) 0x40) 6.
Definition T1PRIME_PCB_I_HAS_MORE (pcb : Z) : bool := Z.land (T1PRIME_PCB pcb) 0x20 =? 0x20.
Definition T1PRIME_PCB_R (nr : Z) (type : Z) : Z :=
  T1PRIME_PCB (Z.lor (Z.lor 0x80 (if nr =? 0 then 0x00 else 0x10)) (Z.land type 0x0f)).
Definition T1PRIME_PCB_IS_R (pcb : Z) : bool := Z.land (T1PRIME_PCB pcb) 0xC0 =? 0x80.
Definition T1PRIME_PCB_R_GET_NR (pcb : Z) : Z := Z.shiftr (Z.land (T1PRIME_PCB pcb) 0x10) 4.
Definition T1PRIME_PCB_R_ACK (nr : Z) : Z := T1PRIME_PCB_R nr 0x00.
Definition T1PRIME_PCB_R_CRC (nr : Z) : Z := T1PRIME_PCB_R nr 0x01.
Definition T1PRIME_PCB_R_ERROR (nr : Z) : Z := T1PRIME_PCB_R nr 0x02.
Definition T1PRIME_PCB_S (type : Z) (is_response : bool) : Z :=
  T1PRIME_PCB (Z.lor (Z.lor 0xC0 (if is_response then 0x20 else 0x00)) (Z.land type 0x0f)).
Definition T1PRIME_PCB_IS_S (pcb : Z) : bool := Z.land (T1PRIME_PCB pcb) 0xC0 =? 0xC0.
Definition T1PRIME_PCB_S_IS_REQUEST (pcb : Z) : bool := Z.land (T1PRIME_PCB pcb) 0x20 =? 0x00.
Definition T1PRIME_PCB_S_GET_TYPE (pcb : Z) : Z := Z.land (T1PRIME_PCB pcb) 0x1f.
Definition T1PRIME_PCB_S_RESYNCH_REQ : Z := T1PRIME_PCB_S 0x0 false.
Definition T1PRIME_PCB_S_RESYNCH_RESP : Z := T1PRIME_PCB_S 0x0 true.
Definition T1PRIME_PCB_S_IFS_REQ : Z := T1PRIME_PCB_S 0x1 false.
Definition T1PRIME_PCB_S_IFS_RESP : Z := T1PRIME_PCB_S 0x1 true.
Definition T1PRIME_PCB_S_ABORT_REQ : Z := T1PRIME_PCB_S 0x2 false.
Definition T1PRIME_PCB_S_ABORT_RESP : Z := T1PRIME_PCB_S 0x2 true.
Definition T1PRIME_PCB_S_WTX_REQ : Z := T1PRIME_PCB_S 0x3 false.
Definition T1PRIME_PCB_S_WTX_RESP : Z := T1PRIME_PCB_S 0x3 true.
Definition T1PRIME_PCB_S_CIP_REQ : Z := T1PRIME_PCB_S 0x4 false.
Definition T1PRIME_PCB_S_CIP_RESP : Z := T1PRIME_PCB_S 0x4 true.
Definition T1PRIME_PCB_S_RELEASE_REQ : Z := T1PRIME_PCB_S 0x6 false.
Definition T1PRIME_PCB_S_RELEASE_RESP : Z := T1PRIME_PCB_S 0x6 true.
Definition T1PRIME_PCB_S_SWR_REQ : Z := T1PRIME_PCB_S 0xf false.
Definition T1PRIME_PCB_S_SWR_RESP : Z := T1PRIME_PCB_S 0xf true.

(** ** Buffers *)

(** [data[i]] for a byte buffer; reads outside the buffer do not occur on the
    paths modelled (every index is guarded by a length check) and yield 0. *)
Definition byte_at (data : list Z) (i : Z) : Z := nth (Z.to_nat i) data 0.

(** [memcpy(dst, src + offset, n)]: the [n] bytes of [src] from [offset]. *)
Definition memcpy (src : list Z) (offset n : Z) : list Z :=
  firstn (Z.to_nat n) (skipn (Z.to_nat offset) src).

Definition is_byte (b : Z) : bool := (0 <=? b) && (b <? 256).
Definition is_bytes (data : list Z) : bool := forallb is_byte data.

Definition to_uint16 (v : Z) : Z := Z.land v 0xffff.

(** Result of the pure decoders: the decoded value or the IFX status code. *)
Inductive result (A : Type) : Type :=
| Ok (value : A)
| Err (status : Z).
Arguments Ok {A} value.
Arguments Err {A} status.

(** ** ifx/crc.h *)

(** Modelled from the spec: [crc16_ccitt_x25] is declared in [ifx/crc.h] but
    its definition ([crc.c]) is not part of the sources.  The spec fixes it as
    CCITT-X.25: polynomial 0x1021, init 0xFFFF, reflected in and out, XOR-out
    0xFFFF; reflected, the polynomial is 0x8408 and the register shifts
    right.  The result is a [uint16_t]. *)
Fixpoint crc16_shift (bits : nat) (crc : Z) : Z :=
  match bits with
  | O => crc
  | S bits' =>
      crc16_shift bits'
        (if Z.testbit crc 0 then Z.lxor (Z.shiftr crc 1) 0x8408 else Z.shiftr crc 1)
  end.

Definition crc16_update (crc byte : Z) : Z := crc16_shift 8 (Z.lxor crc byte).

Definition crc16_ccitt_x25 (data : list Z) : Z :=
  to_uint16 (Z.lxor (fold_left crc16_update data 0xFFFF) 0xFFFF).

(** ** Block codec (t1prime.c, t1prime/datastructures.h) *)

Record Block : Type := mkBlock {
  nad : Z;                  (* uint8_t: node address *)
  pcb : Z;                  (* uint8_t: protocol control byte *)
  information_size : Z;     (* size_t: number of bytes in information *)
  information : list Z      (* uint8_t *: block data, [] for NULL *)
}.

Definition t1prime_block_destroy (block : Block) : Block :=
  {| nad := nad block; pcb := pcb block; information_size := 0; information := [] |}.

(** The prologue and information field as [t1prime_validate_crc] and
    [t1prime_block_encode] lay them out before the CRC is computed. *)
Definition block_crc_input (block : Block) : list Z :=
  [nad block; pcb block;
   Z.shiftr (Z.land (information_size block) 0xff00) 8;
   Z.land (information_size block) 0xff]
  ++ (if 0 <? information_size block
      then memcpy (information block) 0 (information_size block)
      else []).

Definition T1PRIME_VALIDATE_CRC_SUCCESS : Z := SUCCESS.

Definition t1prime_validate_crc (block : Block) (expected : Z) : Z :=
  let actual := crc16_ccitt_x25 (block_crc_input block) in
  if negb (actual =? expected)
  then IFX_ERROR LIBT1PRIME T1PRIME_VALIDATE_CRC INVALID_CRC
  else T1PRIME_VALIDATE_CRC_SUCCESS.

(** Always returns [T1PRIME_BLOCK_ENCODE_SUCCESS]; the buffer is the result. *)
Definition t1prime_block_encode (block : Block) : list Z :=
  let buffer := block_crc_input block in
  let crc := crc16_ccitt_x25 buffer in
  buffer ++ [Z.shiftr (Z.land crc 0xff00) 8; Z.land crc 0x00ff].

Definition t1prime_block_decode (data : list Z) : result Block :=
  let data_len := Z.of_nat (length data) in
  if data_len <? BLOCK_PROLOGUE_LENGTH + BLOCK_EPILOGUE_LENGTH
  then Err (IFX_ERROR LIBT1PRIME T1PRIME_BLOCK_DECODE TOO_LITTLE_DATA)
  else
    let size := Z.lor (Z.shiftl (byte_at data 2) 8) (byte_at data 3) in
    if negb (data_len =? BLOCK_PROLOGUE_LENGTH + size + BLOCK_EPILOGUE_LENGTH)
    then Err (IFX_ERROR LIBT1PRIME T1PRIME_BLOCK_DECODE INFORMATIONSIZE_MISMATCH)
    else
      let block :=
        {| nad := byte_at data 0;
           pcb := byte_at data 1;
           information_size := size;
           information := if 0 <? size then memcpy data BLOCK_PROLOGUE_LENGTH size else [] |} in
      let crc := to_uint16 (Z.lor (Z.shiftl (byte_at data (data_len - 2)) 8)
                                 (byte_at data (data_len - 1))) in
      if negb (t1prime_validate_crc block crc =? T1PRIME_VALIDATE_CRC_SUCCESS)
      then Err (IFX_ERROR LIBT1PRIME T1PRIME_BLOCK_DECODE INVALID_CRC)
      else Ok block.

(** ** IFS codec (t1prime.c) *)

Definition t1prime_ifs_encode (ifs : Z) : result (list Z) :=
  if (ifs =? 0) || (T1PRIME_MAX_IFS <? ifs)
  then Err (IFX_ERROR LIBT1PRIME PROTOCOL_SETPROPERTY ILLEGAL_ARGUMENT)
  else
    let buffer_len := if ifs <=? 0xfe then 1 else 2 in
    if buffer_len =? 1
    then Ok [Z.land ifs 0xff]
    else Ok [Z.shiftr (Z.land ifs 0x0f00) 8; Z.land ifs 0x00ff].

Definition t1prime_ifs_decode (data : list Z) (data_len : Z) : result Z :=
  if (data_len <? 1) || (2 <? data_len)
  then Err (IFX_ERROR LIBT1PRIME T1PRIME_IFS_DECODE ILLEGAL_ARGUMENT)
  else
    let ifs := if data_len =? 1
               then byte_at data 0
               else Z.lor (Z.shiftl (byte_at data 0) 8) (byte_at data 1) in
    if T1PRIME_MAX_IFS <? ifs
    then Err (IFX_ERROR LIBT1PRIME T1PRIME_IFS_DECODE ILLEGAL_ARGUMENT)
    else Ok ifs.

(** ** Link session state (t1prime/datastructures.h) *)

Record T1PrimeProtocolState : Type := mkState {
  bwt : Z;              (* uint16_t: block waiting time in ms *)
  mpot : Z;             (* uint8_t: minimum polling time, multiples of 100us *)
  ifsc : Z;             (* size_t: current maximum size of SE information field *)
  send_counter : Z;     (* uint8_t: sequence counter of transmitted I blocks *)
  receive_counter : Z;  (* uint8_t: sequence counter of received I blocks *)
  wtx_delay : Z         (* size_t: waiting time extension delay *)
}.

Definition set_bwt (v : Z) (st : T1PrimeProtocolState) : T1PrimeProtocolState :=
  mkState v (mpot st) (ifsc st) (send_counter st) (receive_counter st) (wtx_delay st).
Definition set_mpot (v : Z) (st : T1PrimeProtocolState) : T1PrimeProtocolState :=
  mkState (bwt st) v (ifsc st) (send_counter st) (receive_counter st) (wtx_delay st).
Definition set_ifsc (v : Z) (st : T1PrimeProtocolState) : T1PrimeProtocolState :=
  mkState (bwt st) (mpot st) v (send_counter st) (receive_counter st) (wtx_delay st).
Definition set_send_counter (v : Z) (st : T1PrimeProtocolState) : T1PrimeProtocolState :=
  mkState (bwt st) (mpot st) (ifsc st) v (receive_counter st) (wtx_delay st).
Definition set_receive_counter (v : Z) (st : T1PrimeProtocolState) : T1PrimeProtocolState :=
  mkState (bwt st) (mpot st) (ifsc st) (send_counter st) v (wtx_delay st).
Definition set_wtx_delay (v : Z) (st : T1PrimeProtocolState) : T1PrimeProtocolState :=
  mkState (bwt st) (mpot st) (ifsc st) (send_counter st) (receive_counter st) v.

(** [t1prime_get_protocol_state]: [properties] is [self->_properties], [None]
    for [NULL].  The first call on a fresh protocol object allocates the
    state and fills in the initial values; the status is
    [PROTOCOL_GETPROPERTY_SUCCESS].  Every operation below starts with this
    call and then works on the state it returns, which is threaded as [st]. *)
Definition t1prime_get_protocol_state (properties : option T1PrimeProtocolState)
  : Z * T1PrimeProtocolState :=
  match properties with
  | None =>
      (PROTOCOL_GETPROPERTY_SUCCESS,
       {| bwt := T1PRIME_DEFAULT_BWT;
          ifsc := T1PRIME_MAX_IFS;
          send_counter := 0x00;
          receive_counter := 0x00;
          wtx_delay := 0x00;
          mpot := T1PRIME_DEFAULT_I2C_MPOT |})
  | Some st => (PROTOCOL_GETPROPERTY_SUCCESS, st)
  end.

(** [t1prime_get_ifsc], [t1prime_get_bwt], [t1prime_set_bwt]. *)
Definition t1prime_get_ifsc (st : T1PrimeProtocolState) : Z * Z :=
  (PROTOCOL_GETPROPERTY_SUCCESS, ifsc st).
Definition t1prime_get_bwt (st : T1PrimeProtocolState) : Z * Z :=
  (PROTOCOL_GETPROPERTY_SUCCESS, bwt st).
Definition t1prime_set_bwt (st : T1PrimeProtocolState) (v : Z) : Z * T1PrimeProtocolState :=
  (PROTOCOL_SETPROPERTY_SUCCESS, set_bwt v st).

(** ** The physical layer and the timers, as a scripted environment

    The driver below the engine ([self->_base]), the I2C property setters and
    the timers are external.  The environment is a script of what they answer:
    - [rx_script]: status and buffer of the successive [_receive] calls; once
      the script is used up nothing arrives any more and [_receive] fails;
    - [tx_script]: status of the successive [_transmit] calls, success once
      used up; [tx_log] records every buffer handed to [_transmit];
    - [bwt_polls]: how often [timer_has_elapsed] answers [false] for a block
      waiting timer, that is how many polling rounds fit into one window;
    - [prop_script]: status of the successive [i2c_set_clock_frequency]
      calls, success once used up; [clock_log] records the frequencies.
    [timer_set] on a local timer always succeeds (chronotimer.cpp);
    [timer_join] only passes time. *)
Record World : Type := mkWorld {
  rx_script : list (Z * list Z);
  tx_script : list Z;
  tx_log : list (list Z);
  bwt_polls : nat;
  prop_script : list Z;
  clock_log : list Z
}.

Definition driver_transmit (data : list Z) (w : World) : Z * World :=
  (hd PROTOCOL_TRANSMIT_SUCCESS (tx_script w),
   mkWorld (rx_script w) (tl (tx_script w)) (tx_log w ++ [data]) (bwt_polls w)
           (prop_script w) (clock_log w)).

Definition driver_receive (expected_len : Z) (w : World) : Z * list Z * World :=
  match rx_script w with
  | [] => (IFX_ERROR LIBPROTOCOL PROTOCOL_RECEIVE TOO_LITTLE_DATA, [], w)
  | (status, response) :: rest =>
      (status, response,
       mkWorld rest (tx_script w) (tx_log w) (bwt_polls w) (prop_script w) (clock_log w))
  end.

Definition i2c_set_clock_frequency (frequency : Z) (w : World) : Z * World :=
  (hd PROTOCOL_SETPROPERTY_SUCCESS (prop_script w),
   mkWorld (rx_script w) (tx_script w) (tx_log w) (bwt_polls w)
           (tl (prop_script w)) (clock_log w ++ [frequency])).

(** ** Block transmission (t1prime.c) *)

Definition t1prime_block_transmit (st : T1PrimeProtocolState) (block : Block) (w : World)
  : Z * World :=
  if ifsc st <? information_size block
  then (IFX_ERROR LIBT1PRIME PROTOCOL_TRANSMIT ILLEGAL_ARGUMENT, w)
  else driver_transmit (t1prime_block_encode block) w.

(** The NAD polling loop of [t1prime_block_receive]:
    [while (!timer_has_elapsed(&bwt_timer))], one round per [polls]; the
    result is [block->nad], still 0x00 when the window closed. *)
Fixpoint poll_nad (polls : nat) (w : World) : Z * World :=
  match polls with
  | O => (0x00, w)
  | S polls' =>
      let '(status, nad_buffer, w1) := driver_receive 1 w in
      if status =? PROTOCOL_RECEIVE_SUCCESS
      then
        if (Z.of_nat (length nad_buffer) =? 1)
           && negb (byte_at nad_buffer 0 =? 0x00)
           && negb (byte_at nad_buffer 0 =? 0xff)
        then (byte_at nad_buffer 0, w1)
        else poll_nad polls' w1
      else poll_nad polls' w1
  end.

(** [t1prime_block_receive]; the block returned with a failure status is not
    read by any caller. *)
Definition t1prime_block_receive (st : T1PrimeProtocolState) (w : World)
  : Z * Block * World :=
  let '(nad0, w1) := poll_nad (bwt_polls w) w in
  if nad0 =? 0x00
  then (IFX_ERROR LIBT1PRIME PROTOCOL_RECEIVE TOO_LITTLE_DATA, mkBlock nad0 0 0 [], w1)
  else
    let '(status, binary, w2) := driver_receive (BLOCK_PROLOGUE_LENGTH - 1) w1 in
    if negb (status =? PROTOCOL_RECEIVE_SUCCESS)
    then (status, mkBlock nad0 0 0 [], w2)
    else if negb (Z.of_nat (length binary) =? BLOCK_PROLOGUE_LENGTH - 1)
    then (IFX_ERROR LIBT1PRIME PROTOCOL_RECEIVE TOO_LITTLE_DATA, mkBlock nad0 0 0 [], w2)
    else
      let pcb0 := byte_at binary 0 in
      let size := Z.lor (Z.shiftl (byte_at binary 1) 8) (byte_at binary 2) in
      let '(status, info, w3) :=
        if 0 <? size then driver_receive size w2 else (PROTOCOL_RECEIVE_SUCCESS, [], w2) in
      if negb (status =? PROTOCOL_RECEIVE_SUCCESS)
      then (status, mkBlock nad0 pcb0 (Z.of_nat (length info)) info, w3)
      else if (0 <? size) && negb (Z.of_nat (length info) =? size)
      then (IFX_ERROR LIBT1PRIME PROTOCOL_RECEIVE TOO_LITTLE_DATA,
            mkBlock nad0 pcb0 (Z.of_nat (length info)) info, w3)
      else
        let block := mkBlock nad0 pcb0 size info in
        let '(status, binary, w4) := driver_receive BLOCK_EPILOGUE_LENGTH w3 in
        if negb (status =? PROTOCOL_RECEIVE_SUCCESS)
        then (status, t1prime_block_destroy block, w4)
        else if negb (Z.of_nat (length binary) =? BLOCK_EPILOGUE_LENGTH)
        then (IFX_ERROR LIBT1PRIME PROTOCOL_RECEIVE TOO_LITTLE_DATA,
              t1prime_block_destroy block, w4)
        else
          let crc := to_uint16 (Z.lor (Z.shiftl (byte_at binary 0) 8) (byte_at binary 1)) in
          if negb (t1prime_validate_crc block crc =? T1PRIME_VALIDATE_CRC_SUCCESS)
          then (IFX_ERROR LIBT1PRIME T1PRIME_BLOCK_DECODE INVALID_CRC,
                t1prime_block_destroy block, w4)
          else (PROTOCOL_RECEIVE_SUCCESS, block, w4).

(** What one round of the loop of [t1prime_block_transceive] decides once the
    reception is over: return from the function or go on to the retry. *)
Inductive attempt : Type :=
| Done (status : Z)
| Retry (status : Z).

Definition is_s_request (pcb0 : Z) : bool :=
  T1PRIME_PCB_IS_S pcb0 && T1PRIME_PCB_S_IS_REQUEST pcb0.

Definition block_transceive_validate (st : T1PrimeProtocolState) (block : Block)
    (status : Z) (response_buffer : Block) : attempt :=
  if status =? PROTOCOL_RECEIVE_SUCCESS
  then
    if is_s_request (pcb block)
    then
      if T1PRIME_PCB_IS_S (pcb response_buffer)
         && negb (T1PRIME_PCB_S_IS_REQUEST (pcb response_buffer))
      then
        if T1PRIME_PCB_S_GET_TYPE (pcb block) =? T1PRIME_PCB_S_GET_TYPE (pcb response_buffer)
        then Done status
        else Retry (IFX_ERROR LIBT1PRIME PROTOCOL_TRANSCEIVE INVALID_BLOCK)
      else if T1PRIME_PCB_IS_R (pcb response_buffer)
      then
        if negb (T1PRIME_PCB_R_GET_NR (pcb response_buffer) =? send_counter st)
        then Done (IFX_ERROR LIBT1PRIME PROTOCOL_TRANSCEIVE INVALID_BLOCK)
        else Retry (IFX_ERROR LIBT1PRIME PROTOCOL_TRANSCEIVE INVALID_BLOCK)
      else if T1PRIME_PCB_IS_I (pcb response_buffer)
      then Done (IFX_ERROR LIBT1PRIME PROTOCOL_TRANSCEIVE INVALID_BLOCK)
      else Retry (IFX_ERROR LIBT1PRIME PROTOCOL_TRANSCEIVE INVALID_BLOCK)
    else Done status
  else Retry status.

(** The block sent by the next round: R(N(R)) with the CRC error code unless
    the original block is an S(? request). *)
Definition retry_block (st : T1PrimeProtocolState) (block to_send : Block) : Block :=
  if negb (T1PRIME_PCB_IS_S (pcb block)) || negb (T1PRIME_PCB_S_IS_REQUEST (pcb block))
  then mkBlock 0x21 (T1PRIME_PCB_R_CRC (receive_counter st)) 0 []
  else to_send.

(** One round of the loop of [t1prime_block_transceive]: transmit [to_send],
    sit out a pending waiting time extension, read the answer and validate it
    against the original [block].  A failed transmission returns at once. *)
Definition block_transceive_attempt (block to_send : Block)
    (st : T1PrimeProtocolState) (w : World)
  : attempt * Block * T1PrimeProtocolState * World :=
  let '(status, w1) := t1prime_block_transmit st to_send w in
  if negb (status =? PROTOCOL_TRANSMIT_SUCCESS)
  then (Done status, mkBlock 0 0 0 [], st, w1)
  else
    let st1 := if 0 <? wtx_delay st then set_wtx_delay 0 st else st in
    let '(status, response_buffer, w2) := t1prime_block_receive st1 w1 in
    (block_transceive_validate st1 block status response_buffer, response_buffer, st1, w2).

(** The [do ... while ((++try) <= T1PRIME_BLOCK_TRANSCEIVE_RETRIES)] loop;
    [retries] is [T1PRIME_BLOCK_TRANSCEIVE_RETRIES - try] on entry of a round.
    No caller reads the response block handed back with an error status. *)
Fixpoint block_transceive_loop (retries : nat) (block to_send : Block)
    (st : T1PrimeProtocolState) (w : World) : Z * Block * T1PrimeProtocolState * World :=
  let '(outcome, response_buffer, st1, w1) := block_transceive_attempt block to_send st w in
  match outcome with
  | Done status =>
      (status,
       (if status =? SUCCESS then response_buffer else t1prime_block_destroy response_buffer),
       st1, w1)
  | Retry status =>
      match retries with
      | O => (status, response_buffer, st1, w1)
      | S retries' =>
          block_transceive_loop retries' block (retry_block st1 block to_send) st1 w1
      end
  end.

Definition t1prime_block_transceive (st : T1PrimeProtocolState) (block : Block) (w : World)
  : Z * Block * T1PrimeProtocolState * World :=
  block_transceive_loop T1PRIME_BLOCK_TRANSCEIVE_RETRIES block block st w.

(** ** Parameter descriptors (t1prime.c, t1prime/datastructures.h) *)

Record CIP : Type := mkCIP {
  version : Z;
  iin_len : Z;
  iin : list Z;
  plid : Z;
  plp_len : Z;
  plp : list Z;
  dllp_len : Z;
  dllp : list Z;
  hb_len : Z;
  hb : list Z
}.

Definition T1PRIME_CIP_VALIDATE_SUCCESS : Z := SUCCESS.

Definition t1prime_cip_validate (cip : CIP) : Z :=
  if (iin_len cip <? 3) || (4 <? iin_len cip)
  then IFX_ERROR LIBT1PRIME T1PRIME_CIP_VALIDATE INVALID_LENGTH
  else
    match (if plid cip =? PLID_SPI
           then if plp_len cip <? 1 + 1 + 2 + 1 + 1 + 2 + 2 + 2
                then Some (IFX_ERROR LIBT1PRIME T1PRIME_CIP_VALIDATE TOO_LITTLE_DATA)
                else None
           else if plid cip =? PLID_I2C
           then if plp_len cip <? 1 + 1 + 2 + 1 + 1 + 2
                then Some (IFX_ERROR LIBT1PRIME T1PRIME_CIP_VALIDATE TOO_LITTLE_DATA)
                else None
           else Some (IFX_ERROR LIBT1PRIME T1PRIME_CIP_VALIDATE INVALID_PLID)) with
    | Some status => status
    | None =>
        if dllp_len cip <? 2 + 2
        then IFX_ERROR LIBT1PRIME T1PRIME_CIP_VALIDATE TOO_LITTLE_DATA
        else T1PRIME_CIP_VALIDATE_SUCCESS
    end.

(** One length-prefixed field of the CIP: the bytes copied and the offset
    after them ([if (len > 0) { memcpy(...); offset += len; }]). *)
Definition cip_field (data : list Z) (offset len : Z) : list Z * Z :=
  if 0 <? len then (memcpy data offset len, offset + len) else ([], offset).

Definition t1prime_cip_decode (data : list Z) (data_len : Z) : result CIP :=
  if data_len <? 1 + 1 + 1 + 1 + 1 + 1
  then Err (IFX_ERROR LIBT1PRIME T1PRIME_CIP_DECODE TOO_LITTLE_DATA)
  else
    let offset := 0 in
    let version0 := byte_at data offset in
    let offset := offset + 1 in
    let iin_len0 := byte_at data offset in
    let offset := offset + 1 in
    if data_len <? offset + iin_len0 + 1 + 1 + 1 + 1
    then Err (IFX_ERROR LIBT1PRIME T1PRIME_CIP_DECODE TOO_LITTLE_DATA)
    else
      let '(iin0, offset) := cip_field data offset iin_len0 in
      let plid0 := byte_at data offset in
      let offset := offset + 1 in
      let plp_len0 := byte_at data offset in
      let offset := offset + 1 in
      if data_len <? offset + plp_len0 + 1 + 1
      then Err (IFX_ERROR LIBT1PRIME T1PRIME_CIP_DECODE TOO_LITTLE_DATA)
      else
        let '(plp0, offset) := cip_field data offset plp_len0 in
        let dllp_len0 := byte_at data offset in
        let offset := offset + 1 in
        if data_len <? offset + dllp_len0 + 1
        then Err (IFX_ERROR LIBT1PRIME T1PRIME_CIP_DECODE TOO_LITTLE_DATA)
        else
          let '(dllp0, offset) := cip_field data offset dllp_len0 in
          let hb_len0 := byte_at data offset in
          let offset := offset + 1 in
          if negb (offset + hb_len0 =? data_len)
          then Err (IFX_ERROR LIBT1PRIME T1PRIME_CIP_DECODE INVALID_LENGTH)
          else
            let hb0 := if 0 <? hb_len0 then memcpy data offset hb_len0 else [] in
            let cip := mkCIP version0 iin_len0 iin0 plid0 plp_len0 plp0
                             dllp_len0 dllp0 hb_len0 hb0 in
            let status := t1prime_cip_validate cip in
            if negb (status =? T1PRIME_CIP_VALIDATE_SUCCESS)
            then Err status
            else Ok cip.

Record DLLP : Type := mkDLLP {
  dllp_bwt : Z;    (* uint16_t bwt *)
  dllp_ifsc : Z    (* uint16_t ifsc *)
}.

Definition t1prime_dllp_decode (encoded : list Z) (encoded_len : Z) : result DLLP :=
  if encoded_len <? 2 + 2
  then Err (IFX_ERROR LIBT1PRIME T1PRIME_DLLP_DECODE TOO_LITTLE_DATA)
  else Ok {| dllp_bwt := to_uint16 (Z.lor (Z.shiftl (byte_at encoded 0) 8) (byte_at encoded 1));
             dllp_ifsc := to_uint16 (Z.lor (Z.shiftl (byte_at encoded 2) 8) (byte_at encoded 3)) |}.

Record I2CPLP : Type := mkI2CPLP {
  plp_configuration : Z;
  plp_pwt : Z;
  plp_mcf : Z;
  plp_pst : Z;
  plp_mpot : Z;
  plp_rwgt : Z
}.

Definition t1prime_i2c_plp_decode (encoded : list Z) (encoded_len : Z) : result I2CPLP :=
  if encoded_len <? 1 + 1 + 2 + 1 + 1 + 2
  then Err (IFX_ERROR LIBT1PRIME T1PRIME_PLP_DECODE TOO_LITTLE_DATA)
  else Ok {| plp_configuration := byte_at encoded 0;
             plp_pwt := byte_at encoded 1;
             plp_mcf := to_uint16 (Z.lor (Z.shiftl (byte_at encoded 2) 8) (byte_at encoded 3));
             plp_pst := byte_at encoded 4;
             plp_mpot := byte_at encoded 5;
             plp_rwgt := to_uint16 (Z.lor (Z.shiftl (byte_at encoded 6) 8) (byte_at encoded 7)) |}.

(** ** Supervisory exchanges (t1prime.c) *)

Definition s_resynch (st : T1PrimeProtocolState) (w : World)
  : Z * T1PrimeProtocolState * World :=
  let request := mkBlock NAD_HD_TO_SE T1PRIME_PCB_S_RESYNCH_REQ 0 [] in
  let '(status, response, st1, w1) := t1prime_block_transceive st request w in
  if negb (status =? PROTOCOL_TRANSCEIVE_SUCCESS)
  then (status, st1, w1)
  else if negb (pcb response =? T1PRIME_PCB_S_RESYNCH_RESP)
  then (IFX_ERROR LIBT1PRIME PROTOCOL_RECEIVE INVALID_BLOCK, st1, w1)
  else (PROTOCOL_TRANSCEIVE_SUCCESS, set_receive_counter 0x00 (set_send_counter 0x00 st1), w1).

Definition s_cip (st : T1PrimeProtocolState) (w : World)
  : Z * option CIP * T1PrimeProtocolState * World :=
  let request := mkBlock NAD_HD_TO_SE T1PRIME_PCB_S_CIP_REQ 0 [] in
  let '(status, response, st1, w1) := t1prime_block_transceive st request w in
  if negb (status =? PROTOCOL_TRANSMIT_SUCCESS)
  then (status, None, st1, w1)
  else if negb (pcb response =? T1PRIME_PCB_S_CIP_RESP)
  then (IFX_ERROR LIBT1PRIME PROTOCOL_RECEIVE INVALID_BLOCK, None, st1, w1)
  else
    match t1prime_cip_decode (information response) (information_size response) with
    | Err status' => (status', None, st1, w1)
    | Ok cip => (PROTOCOL_TRANSCEIVE_SUCCESS, Some cip, st1, w1)
    end.

Definition s_swr (st : T1PrimeProtocolState) (w : World)
  : Z * T1PrimeProtocolState * World :=
  let request := mkBlock NAD_HD_TO_SE T1PRIME_PCB_S_SWR_REQ 0 [] in
  let '(status, response, st1, w1) := t1prime_block_transceive st request w in
  if negb (status =? PROTOCOL_TRANSMIT_SUCCESS)
  then (status, st1, w1)
  else if negb (pcb response =? T1PRIME_PCB_S_SWR_RESP)
  then (IFX_ERROR LIBT1PRIME PROTOCOL_RECEIVE INVALID_BLOCK, st1, w1)
  else (PROTOCOL_TRANSCEIVE_SUCCESS, set_receive_counter 0x00 (set_send_counter 0x00 st1), w1).

(** The S(IFS request) block that [t1prime_set_ifsd] builds from the encoding. *)
Definition ifs_request (encoded : list Z) : Block :=
  mkBlock 0x21 T1PRIME_PCB_S_IFS_REQ (Z.of_nat (length encoded)) encoded.

Definition t1prime_set_ifsd (st : T1PrimeProtocolState) (ifsd : Z) (w : World)
  : Z * T1PrimeProtocolState * World :=
  match t1prime_ifs_encode ifsd with
  | Err status => (status, st, w)
  | Ok encoded =>
      let '(status, response, st1, w1) := t1prime_block_transceive st (ifs_request encoded) w in
      if negb (status =? PROTOCOL_TRANSCEIVE_SUCCESS)
      then (status, st1, w1)
      else if negb (pcb response =? T1PRIME_PCB_S_IFS_RESP)
      then (IFX_ERROR LIBT1PRIME PROTOCOL_RECEIVE INVALID_BLOCK, st1, w1)
      else
        match t1prime_ifs_decode (information response) (information_size response) with
        | Err _ => (IFX_ERROR LIBT1PRIME PROTOCOL_RECEIVE INVALID_BLOCK, st1, w1)
        | Ok response_ifs =>
            if negb (response_ifs =? ifsd)
            then (IFX_ERROR LIBT1PRIME PROTOCOL_RECEIVE INVALID_BLOCK, st1, w1)
            else (PROTOCOL_SETPROPERTY_SUCCESS, st1, w1)
        end
  end.

(** ** Activation (t1prime.c, with INTERFACE_I2C)

    [protocol_activate(self->_base, ...)] only yields bytes that are freed
    again and a status that is not looked at; it leaves the script untouched. *)
Definition t1prime_activate (st : T1PrimeProtocolState) (w : World)
  : Z * T1PrimeProtocolState * World :=
  let st := set_bwt T1PRIME_DEFAULT_BWT (set_ifsc T1PRIME_DEFAULT_IFSC st) in
  let '(status, w) := i2c_set_clock_frequency T1PRIME_DEFAULT_I2C_CLOCK_FREQUENCY w in
  if negb (status =? PROTOCOL_SETPROPERTY_SUCCESS)
  then (status, st, w)
  else
    let '(status, cip, st, w) := s_cip st w in
    match cip with
    | None => (status, st, w)   (* status != PROTOCOL_TRANSCEIVE_SUCCESS *)
    | Some cip =>
        match t1prime_dllp_decode (dllp cip) (dllp_len cip) with
        | Err status => (status, st, w)
        | Ok dllp0 =>
            let st := set_ifsc (dllp_ifsc dllp0) (set_bwt (dllp_bwt dllp0) st) in
            if plid cip =? PLID_I2C
            then
              match t1prime_i2c_plp_decode (plp cip) (plp_len cip) with
              | Err status => (status, st, w)
              | Ok plp0 =>
                  let '(status, w) := i2c_set_clock_frequency (plp_mcf plp0 * 1000) w in
                  if negb (status =? PROTOCOL_SETPROPERTY_SUCCESS)
                  then (status, st, w)
                  else s_resynch (set_mpot (plp_mpot plp0) st) w
              end
            else if plid cip =? PLID_SPI
            then (IFX_ERROR LIBT1PRIME T1PRIME_CIP_VALIDATE INVALID_PLID, st, w)
            else (IFX_ERROR LIBT1PRIME T1PRIME_CIP_VALIDATE INVALID_PLID, st, w)
        end
    end.

(** ** Transceive (t1prime.c)

    Local variables of the first loop of [t1prime_transceive]. *)
Record SendVars : Type := mkSendVars {
  transmission_block : Block;
  last_information_size : Z;
  offset : Z;
  remaining : Z;
  aborted : bool
}.

(** How one round of a loop of [t1prime_transceive] ends. *)
Inductive send_step_result : Type :=
| SendReturn (status : Z) (st : T1PrimeProtocolState) (w : World)
| SendBreak (response_block : Block) (st : T1PrimeProtocolState) (w : World)
| SendContinue (vars : SendVars) (st : T1PrimeProtocolState) (w : World).

Definition size_min (a b : Z) : Z := if a <? b then a else b.

(** The first block prepared before the loop. *)
Definition send_init (st : T1PrimeProtocolState) (data : list Z) : SendVars :=
  let data_len := Z.of_nat (length data) in
  let size := size_min data_len (ifsc st) in
  {| transmission_block :=
       mkBlock 0x21 (T1PRIME_PCB_I (send_counter st) (0 <? data_len - size))
               size (memcpy data 0 size);
     last_information_size := size;
     offset := 0;
     remaining := data_len;
     aborted := false |}.

(** Body of the first [while (true)] loop: send the prepared block, read the
    answer and dispatch on it.  The [size_t] differences are written in [Z]:
    [last_information_size <= remaining] holds in every round. *)
Definition send_step (data : list Z) (v : SendVars) (st : T1PrimeProtocolState) (w : World)
  : send_step_result :=
  let '(status, response_block, st, w) :=
    t1prime_block_transceive st (transmission_block v) w in
  let tb := t1prime_block_destroy (transmission_block v) in
  if negb (status =? PROTOCOL_TRANSCEIVE_SUCCESS)
  then SendReturn status st w
  else if T1PRIME_PCB_IS_I (pcb response_block)
  then
    if 0 <? remaining v - last_information_size v
    then SendReturn (IFX_ERROR LIBT1PRIME PROTOCOL_TRANSCEIVE INVALID_BLOCK) st w
    else SendBreak response_block (set_send_counter (Z.lxor (send_counter st) 0x01) st) w
  else if T1PRIME_PCB_IS_R (pcb response_block)
  then
    if Z.lxor (send_counter st) 0x01 =? T1PRIME_PCB_R_GET_NR (pcb response_block)
    then
      if aborted v
      then SendReturn (IFX_ERROR LIBT1PRIME PROTOCOL_TRANSCEIVE TRANSCEIVE_ABORTED) st w
      else if remaining v - last_information_size v =? 0
      then
        SendContinue
          (mkSendVars (mkBlock (nad tb) (T1PRIME_PCB_R_CRC (receive_counter st)) 0 [])
                      (last_information_size v) (offset v) (remaining v) (aborted v))
          st w
      else
        let remaining' := remaining v - last_information_size v in
        let offset' := offset v + last_information_size v in
        let st := set_send_counter (Z.lxor (send_counter st) 0x01) st in
        let size := size_min remaining' (ifsc st) in
        SendContinue
          (mkSendVars
             (mkBlock (nad tb) (T1PRIME_PCB_I (send_counter st) (0 <? remaining' - size))
                      size (memcpy data offset' size))
             size offset' remaining' (aborted v))
          st w
    else
      SendContinue
        (mkSendVars
           (mkBlock (nad tb)
                    (T1PRIME_PCB_I (send_counter st)
                                   (0 <? remaining v - last_information_size v))
                    (last_information_size v)
                    (memcpy data (offset v) (last_information_size v)))
           (last_information_size v) (offset v) (remaining v) (aborted v))
        st w
  else if pcb response_block =? T1PRIME_PCB_S_WTX_REQ
  then
    if match information response_block with [] => true | _ => false end
       || negb (information_size response_block =? 1)
    then SendReturn (IFX_ERROR LIBT1PRIME PROTOCOL_TRANSCEIVE INVALID_BLOCK) st w
    else
      SendContinue
        (mkSendVars
           (mkBlock (nad tb) T1PRIME_PCB_S_WTX_RESP
                    (information_size response_block) (information response_block))
           (last_information_size v) (offset v) (remaining v) (aborted v))
        (set_wtx_delay (byte_at (information response_block) 0 * bwt st) st) w
  else if pcb response_block =? T1PRIME_PCB_S_IFS_REQ
  then
    match t1prime_ifs_decode (information response_block) (information_size response_block) with
    | Err status' => SendReturn status' st w
    | Ok ifs =>
        SendContinue
          (mkSendVars
             (mkBlock (nad tb) T1PRIME_PCB_S_IFS_RESP
                      (information_size response_block) (information response_block))
             (size_min ifs (last_information_size v))
             (offset v) (remaining v) (aborted v))
          st w
    end
  else if pcb response_block =? T1PRIME_PCB_S_ABORT_REQ
  then
    SendContinue
      (mkSendVars (mkBlock (nad tb) T1PRIME_PCB_S_ABORT_RESP 0 [])
                  (last_information_size v) (offset v) (remaining v) true)
      st w
  else SendReturn (IFX_ERROR LIBT1PRIME PROTOCOL_TRANSCEIVE INVALID_BLOCK) st w.

(** The first [while (true)] loop.  [fuel] bounds the rounds of the model;
    [None] means the bound was hit before the loop ended. *)
Fixpoint send_loop (fuel : nat) (data : list Z) (v : SendVars)
    (st : T1PrimeProtocolState) (w : World) : option send_step_result :=
  match fuel with
  | O => None
  | S fuel' =>
      match send_step data v st w with
      | SendContinue v' st' w' => send_loop fuel' data v' st' w'
      | r => Some r
      end
  end.

(** How one round of the second loop ends; [response] is [*response], [None]
    for [NULL], and [*response_len] is its length. *)
Inductive recv_step_result : Type :=
| RecvReturn (status : Z) (response : option (list Z)) (st : T1PrimeProtocolState) (w : World)
| RecvContinue (response_block : Block) (response : option (list Z))
               (st : T1PrimeProtocolState) (w : World).

(** Body of the second [while (true)] loop: dispatch on the block read last. *)
Definition recv_step (response_block : Block) (response : option (list Z))
    (st : T1PrimeProtocolState) (w : World) : recv_step_result :=
  if T1PRIME_PCB_IS_I (pcb response_block)
  then
    if negb (T1PRIME_PCB_I_GET_NS (pcb response_block) =? receive_counter st)
    then RecvReturn (IFX_ERROR LIBT1PRIME PROTOCOL_TRANSCEIVE INVALID_BLOCK) None st w
    else
      match (match response with
             | None =>
                 if information_size response_block =? 0
                 then None
                 else Some (information response_block)
             | Some buffer =>
                 if 0 <? information_size response_block
                 then Some (buffer ++ memcpy (information response_block) 0
                                             (information_size response_block))
                 else Some buffer
             end) with
      | None => RecvReturn (IFX_ERROR LIBT1PRIME PROTOCOL_TRANSCEIVE INVALID_BLOCK) None st w
      | Some buffer =>
          let st := set_receive_counter (Z.lxor (receive_counter st) 0x01) st in
          if T1PRIME_PCB_I_HAS_MORE (pcb response_block)
          then
            let '(status, response_block', st, w) :=
              t1prime_block_transceive
                st (mkBlock 0x21 (T1PRIME_PCB_R_ACK (receive_counter st)) 0 []) w in
            if negb (status =? PROTOCOL_TRANSCEIVE_SUCCESS)
            then RecvReturn status None st w
            else RecvContinue response_block' (Some buffer) st w
          else RecvReturn PROTOCOL_TRANSCEIVE_SUCCESS (Some buffer) st w
      end
  else if T1PRIME_PCB_IS_R (pcb response_block)
  then
    let response :=
      if negb (T1PRIME_PCB_R_GET_NR (pcb response_block) =? send_counter st)
      then None
      else response in
    let '(status, response_block', st, w) :=
      t1prime_block_transceive
        st (mkBlock 0x21 (T1PRIME_PCB_R_ACK (receive_counter st)) 0 []) w in
    if negb (status =? PROTOCOL_TRANSCEIVE_SUCCESS)
    then RecvReturn status None st w
    else RecvContinue response_block' response st w
  else if pcb response_block =? T1PRIME_PCB_S_ABORT_REQ
  then
    let '(_, _, st, w) :=
      t1prime_block_transceive st (mkBlock 0x21 T1PRIME_PCB_S_ABORT_RESP 0 []) w in
    RecvReturn (IFX_ERROR LIBT1PRIME PROTOCOL_TRANSCEIVE TRANSCEIVE_ABORTED) None st w
  else RecvReturn (IFX_ERROR LIBT1PRIME PROTOCOL_TRANSCEIVE INVALID_BLOCK) None st w.

Fixpoint recv_loop (fuel : nat) (response_block : Block) (response : option (list Z))
    (st : T1PrimeProtocolState) (w : World)
  : option (Z * option (list Z) * T1PrimeProtocolState * World) :=
  match fuel with
  | O => None
  | S fuel' =>
      match recv_step response_block response st w with
      | RecvContinue response_block' response' st' w' =>
          recv_loop fuel' response_block' response' st' w'
      | RecvReturn status response' st' w' => Some (status, response', st', w')
      end
  end.

(** Every round that goes on has read a block, so the rounds of one call are
    bounded by what the script still holds. *)
Definition loop_fuel (w : World) : nat := S (length (rx_script w)).

(** The first loop of [t1prime_transceive] up to its [break] or [return]. *)
Definition transceive_send (st : T1PrimeProtocolState) (data : list Z) (w : World)
  : option send_step_result :=
  send_loop (loop_fuel w) data (send_init st data) st w.

(** [t1prime_transceive]: status, [*response], state and environment after
    the call; [None] when the bound on the rounds was hit, which does not
    happen (lemma [t1prime_transceive_total]).  The pointers passed in are
    taken to be valid, so the parameter check is the one on [data_len].  A
    return out of the first loop leaves [*response] as the caller set it,
    taken to be [NULL]. *)
Definition t1prime_transceive (st : T1PrimeProtocolState) (data : list Z) (w : World)
  : option (Z * option (list Z) * T1PrimeProtocolState * World) :=
  if Z.of_nat (length data) =? 0
  then Some (IFX_ERROR LIBT1PRIME PROTOCOL_TRANSCEIVE ILLEGAL_ARGUMENT, None, st, w)
  else
    match transceive_send st data w with
    | None => None
    | Some (SendReturn status st' w') => Some (status, None, st', w')
    | Some (SendBreak response_block st' w') =>
        recv_loop (loop_fuel w') response_block None st' w'
    | Some (SendContinue _ _ _) => None
    end.

(** ** Auxiliary definitions for the statements and proofs *)

(** [start; start + 1; ...], [count] values. *)
Fixpoint zrange (start : Z) (count : nat) : list Z :=
  match count with
  | O => []
  | S count' => start :: zrange (start + 1) count'
  end.

(** The big-endian 16-bit value at offsets 2..3 of a byte string. *)
Definition LEN (x : list Z) : Z := byte_at x 2 * 256 + byte_at x 3.

(** The last two bytes of [x] are the big-endian CRC of its first
    [4 + LEN x] bytes. *)
Definition crc_in_epilogue (x : list Z) : bool :=
  let n := Z.of_nat (length x) in
  let crc := crc16_ccitt_x25 (firstn (Z.to_nat (4 + LEN x)) x) in
  (byte_at x (n - 2) =? crc / 256) && (byte_at x (n - 1) =? crc mod 256).

(** A block is well formed when [nad] and [pcb] are bytes, [information]
    holds exactly [information_size] bytes and the size fits the LEN field. *)
Definition wf_block (b : Block) : bool :=
  is_byte (nad b) && is_byte (pcb b)
  && (information_size b =? Z.of_nat (length (information b)))
  && (information_size b <=? 0xffff)
  && is_bytes (information b).

(** The frames in which the secure element delivers one block to the polling
    host, as the mock driver of the protocol tests queues them: the NAD
    (0x12), the rest of the prologue, the information field if there is one,
    and the epilogue. *)
Definition card_frames (pcb0 : Z) (info : list Z) : list (Z * list Z) :=
  let size := Z.of_nat (length info) in
  let prologue := [pcb0; Z.shiftr (Z.land size 0xff00) 8; Z.land size 0x00ff] in
  let crc := crc16_ccitt_x25 (0x12 :: prologue ++ info) in
  [(PROTOCOL_RECEIVE_SUCCESS, [0x12]); (PROTOCOL_RECEIVE_SUCCESS, prologue)]
  ++ (match info with [] => [] | _ => [(PROTOCOL_RECEIVE_SUCCESS, info)] end)
  ++ [(PROTOCOL_RECEIVE_SUCCESS, [Z.shiftr (Z.land crc 0xff00) 8; Z.land crc 0x00ff])].

(** The bytes the host puts on the wire for a block with NAD 0x21. *)
Definition host_block (pcb0 : Z) (info : list Z) : list Z :=
  t1prime_block_encode (mkBlock NAD_HD_TO_SE pcb0 (Z.of_nat (length info)) info).

(** An environment in which every transmission and every property setter
    succeeds, the first poll of a window finds what the card sent, and the
    card sends the given frames. *)
Definition card_world (frames : list (Z * list Z)) : World :=
  mkWorld frames [] [] 1 [] [].

(** A session state with the given IFSC and otherwise the initial values. *)
Definition state_with_ifsc (v : Z) : T1PrimeProtocolState :=
  set_ifsc v (snd (t1prime_get_protocol_state None)).

(** The frame that a retry of [t1prime_block_transceive] is to put on the
    wire for the original block [b]: [b] again when it is an S(? request),
    otherwise R(N(R)) with the CRC error code and no information. *)
Definition retry_frame (st : T1PrimeProtocolState) (b : Block) : list Z :=
  t1prime_block_encode
    (if is_s_request (pcb b)
     then b
     else mkBlock 0x21 (T1PRIME_PCB_R_CRC (receive_counter st)) 0 []).

(** Two session states that differ at most in the pending WTX delay. *)
Definition same_session (st st' : T1PrimeProtocolState) : Prop :=
  bwt st' = bwt st /\ mpot st' = mpot st /\ ifsc st' = ifsc st
  /\ send_counter st' = send_counter st /\ receive_counter st' = receive_counter st.

(** What the environment may change while the engine only reads from it. *)
Definition rx_consumed (w w' : World) : Prop :=
  tx_log w' = tx_log w /\ tx_script w' = tx_script w /\ bwt_polls w' = bwt_polls w
  /\ (length (rx_script w') <= length (rx_script w))%nat.

(** A CIP as the card may send it in S(CIP response): version 1, a 3 byte
    IIN, the I2C physical layer with 8 parameter bytes (400 kHz, minimum
    polling time 10), a DLLP with BWT = 0x0080 and the given two IFSC bytes,
    no historical bytes. *)
Definition cip_with_ifsc (ifsc_hi ifsc_lo : Z) : list Z :=
  [0x01;
   0x03; 0x00; 0x00; 0x00;
   0x02;
   0x08; 0x00; 0x00; 0x01; 0x90; 0x00; 0x0a; 0x00; 0x00;
   0x04; 0x00; 0x80; ifsc_hi; ifsc_lo;
   0x00].

(** Two session states with the same negotiated link parameters. *)
Definition same_link (st st' : T1PrimeProtocolState) : Prop :=
  bwt st' = bwt st /\ mpot st' = mpot st /\ ifsc st' = ifsc st.

(** Checks that the proofs run over all bytes, all 12-bit and all 16-bit
    values: the two bytes of a 16-bit word, the two bytes of an IFS, and the
    three block classes of a PCB being exclusive. *)
Definition split16_ok (v : Z) : bool :=
  let hi := Z.shiftr (Z.land v 0xff00) 8 in
  let lo := Z.land v 0xff in
  (Z.lor (Z.shiftl hi 8) lo =? v) && (to_uint16 (Z.lor (Z.shiftl hi 8) lo) =? v)
  && (hi =? v / 256) && (lo =? v mod 256) && is_byte hi && is_byte lo.

Definition ifs_bytes_ok (v : Z) : bool :=
  (Z.shiftr (Z.land v 0x0f00) 8 =? v / 256) && (Z.land v 0x00ff =? v mod 256).

Definition pcb_classes_ok (v : Z) : bool :=
  implb (T1PRIME_PCB_IS_R v) (negb (T1PRIME_PCB_IS_I v))
  && implb (T1PRIME_PCB_IS_S v) (negb (T1PRIME_PCB_IS_I v) && negb (T1PRIME_PCB_IS_R v)).

(** The session once a pending waiting time extension has been sat out, as
    every round of [t1prime_block_transceive] leaves it before it reads. *)
Definition clear_wtx_delay (st : T1PrimeProtocolState) : T1PrimeProtocolState :=
  if 0 <? wtx_delay st then set_wtx_delay 0 st else st.

(** The block to send, the session and the environment at the start of the
    round that ends [block_transceive_loop]: the first round that does not
    ask for a retry, or the round that uses up the last retry. *)
Fixpoint last_round (retries : nat) (block to_send : Block)
    (st : T1PrimeProtocolState) (w : World) : Block * T1PrimeProtocolState * World :=
  let '(outcome, _, st1, w1) := block_transceive_attempt block to_send st w in
  match outcome, retries with
  | Retry _, S retries' =>
      last_round retries' block (retry_block st1 block to_send) st1 w1
  | _, _ => (to_send, st, w)
  end.

(** The answer that [t1prime_set_ifsd] takes for the value [ifsd]: an
    S(IFS response) whose information decodes to it. *)
Definition ifs_response_for (ifsd : Z) (response : Block) : bool :=
  (pcb response =? T1PRIME_PCB_S_IFS_RESP)
  && match t1prime_ifs_decode (information response) (information_size response) with
     | Ok ifs => ifs =? ifsd
     | Err _ => false
     end.

(** * Further parts of the engine and of the code around it *)

(** ** Protocol control bytes: the remaining macro of t1prime.h *)

Definition T1PRIME_PCB_IS_R_ACK (pcb : Z) : bool :=
  T1PRIME_PCB_IS_R pcb && (Z.land pcb 0x0f =? 0x00).

(** A byte belongs to exactly one of the three block classes. *)
Definition pcb_one_class (v : Z) : bool :=
  let i := T1PRIME_PCB_IS_I v in
  let r := T1PRIME_PCB_IS_R v in
  let s := T1PRIME_PCB_IS_S v in
  (i && negb r && negb s) || (negb i && r && negb s) || (negb i && negb r && s).

(** ** Parameter descriptors: the layout of a CIP *)

(** The bytes of a CIP in the order in which [t1prime_cip_decode] reads them:
    version, then issuer identification number, physical layer identifier
    with its parameters, data-link layer parameters and historical bytes,
    each variable part behind its length byte. *)
Definition cip_bytes (cip : CIP) : list Z :=
  [version cip; iin_len cip] ++ iin cip
  ++ [plid cip; plp_len cip] ++ plp cip
  ++ [dllp_len cip] ++ dllp cip
  ++ [hb_len cip] ++ hb cip.

(** Every length member counts the bytes of its buffer. *)
Definition cip_lengths (cip : CIP) : Prop :=
  Z.of_nat (length (iin cip)) = iin_len cip
  /\ Z.of_nat (length (plp cip)) = plp_len cip
  /\ Z.of_nat (length (dllp cip)) = dllp_len cip
  /\ Z.of_nat (length (hb cip)) = hb_len cip.

(** ** Blocks on the wire *)

(** The environment after receptions: the script is what is left of it. *)
Definition with_rx (w : World) (rest : list (Z * list Z)) : World :=
  mkWorld rest (tx_script w) (tx_log w) (bwt_polls w) (prop_script w) (clock_log w).

(** The encoding of a block cut into the reads that [t1prime_block_receive]
    issues: one byte for the NAD, the rest of the prologue, the information
    field if the block has one, and the epilogue; every read succeeds. *)
Definition block_frames (b : Block) : list (Z * list Z) :=
  let x := t1prime_block_encode b in
  let size := information_size b in
  [(PROTOCOL_RECEIVE_SUCCESS, memcpy x 0 1);
   (PROTOCOL_RECEIVE_SUCCESS, memcpy x 1 (BLOCK_PROLOGUE_LENGTH - 1))]
  ++ (if 0 <? size
      then [(PROTOCOL_RECEIVE_SUCCESS, memcpy x BLOCK_PROLOGUE_LENGTH size)]
      else [])
  ++ [(PROTOCOL_RECEIVE_SUCCESS,
       memcpy x (BLOCK_PROLOGUE_LENGTH + size) BLOCK_EPILOGUE_LENGTH)].

(** What a poll for the NAD does not take for the start of a block: a failed
    read, a read of another length than one byte, or one of the idle bytes
    0x00 and 0xff. *)
Definition idle_answer (r : Z * list Z) : bool :=
  negb (fst r =? PROTOCOL_RECEIVE_SUCCESS)
  || negb ((Z.of_nat (length (snd r)) =? 1)
           && negb (byte_at (snd r) 0 =? 0x00)
           && negb (byte_at (snd r) 0 =? 0xff)).

(** ** Session invariants *)

(** A sequence counter is one bit. *)
Definition is_bit (v : Z) : Prop := v = 0 \/ v = 1.

(** A frame that carries at most [limit] information bytes between prologue
    and epilogue. *)
Definition frame_fits (limit : Z) (frame : list Z) : Prop :=
  Z.of_nat (length frame) <= BLOCK_PROLOGUE_LENGTH + limit + BLOCK_EPILOGUE_LENGTH.

(** What was handed to the driver between two environments, all of it within
    the limit. *)
Definition sent_within (limit : Z) (w w' : World) : Prop :=
  exists sent, tx_log w' = tx_log w ++ sent /\ Forall (frame_fits limit) sent.

(** The sequence counters are bits afterwards if they were before. *)
Definition bits_kept (st : T1PrimeProtocolState) (w : World)
    (st' : T1PrimeProtocolState) (w' : World) : Prop :=
  is_bit (send_counter st) /\ is_bit (receive_counter st) ->
  is_bit (send_counter st') /\ is_bit (receive_counter st').

(** With a non-negative IFSC: the link parameters are kept and what was sent
    is within the IFSC. *)
Definition link_and_frames (st : T1PrimeProtocolState) (w : World)
    (st' : T1PrimeProtocolState) (w' : World) : Prop :=
  0 <= ifsc st -> same_link st st' /\ sent_within (ifsc st) w w'.

(** Three times the receptions still in the script, plus the frames sent so
    far: a block exchange that succeeds does not raise it, one that fails
    raises it by at most three. *)
Definition effort (w : World) : nat := length (tx_log w) + 3 * length (rx_script w).

(** ** Exchanges with a card that follows the protocol *)

(** The environment after one frame was sent and its answer read. *)
Definition exchanged (w : World) (frame : list Z) (rest : list (Z * list Z)) : World :=
  mkWorld rest (tl (tx_script w)) (tx_log w ++ [frame]) (bwt_polls w)
          (prop_script w) (clock_log w).

(** The environment after a conversation in which every transmission was
    accepted: the frames sent are in the log and the script is what is left
    of it. *)
Definition conversed (w : World) (frames : list (list Z))
    (rest : list (Z * list Z)) : World :=
  mkWorld rest [] (tx_log w ++ frames) (bwt_polls w) (prop_script w) (clock_log w).

(** A sequence bit after [k] blocks. *)
Definition toggled (k : nat) (v : Z) : Z := if Nat.even k then v else Z.lxor v 0x01.

(** The I-blocks into which a request is cut for a card with the given IFSC:
    [size] bytes in every block but the last, N(S) alternating from [ns], the
    more-data bit on all but the last.  [n] bounds the number of blocks; the
    length of the request is enough. *)
Fixpoint request_chain (n : nat) (ns size : Z) (data : list Z) : list Block :=
  match n with
  | O => []
  | S n' =>
      if Z.of_nat (length data) <=? size
      then [mkBlock NAD_HD_TO_SE (T1PRIME_PCB_I ns false) (Z.of_nat (length data)) data]
      else mkBlock NAD_HD_TO_SE (T1PRIME_PCB_I ns true) size (firstn (Z.to_nat size) data)
           :: request_chain n' (Z.lxor ns 0x01) size (skipn (Z.to_nat size) data)
  end.

(** What the card sends to acknowledge [k] chained I-blocks, the first with
    N(S) = [ns]: R-blocks without error whose N(R) is the N(S) of the block
    it waits for. *)
Fixpoint card_acks (k : nat) (ns : Z) : list (Z * list Z) :=
  match k with
  | O => []
  | S k' =>
      card_frames (T1PRIME_PCB_R_ACK (Z.lxor ns 0x01)) []
      ++ card_acks k' (Z.lxor ns 0x01)
  end.

(** A response sent by the card in chained I-blocks, one per part, N(S)
    alternating from [ns] and the more-data bit on all but the last. *)
Fixpoint response_frames (ns : Z) (parts : list (list Z)) : list (Z * list Z) :=
  match parts with
  | [] => []
  | part :: rest =>
      card_frames (T1PRIME_PCB_I ns (match rest with [] => false | _ => true end)) part
      ++ response_frames (Z.lxor ns 0x01) rest
  end.

(** What the host sends while it receives such a response: after every part
    but the last an R-block without error whose N(R) is the N(S) of the part
    it waits for. *)
Fixpoint response_acks (ns : Z) (parts : list (list Z)) : list (list Z) :=
  match parts with
  | [] => []
  | _ :: rest =>
      match rest with
      | [] => []
      | _ => host_block (T1PRIME_PCB_R_ACK (Z.lxor ns 0x01)) []
             :: response_acks (Z.lxor ns 0x01) rest
      end
  end.

(** The request chain of a call of [t1prime_transceive]: cut by the IFSC of
    the session and numbered from its send counter. *)
Definition request_blocks (st : T1PrimeProtocolState) (data : list Z) : list Block :=
  request_chain (length data) (send_counter st) (ifsc st) data.

(** * Properties *)

(** Test vectors of [crc-tests.cpp] and [t1prime-datastructures-tests.cpp]. *)
Example crc16_ccitt_x25_test : crc16_ccitt_x25 [0x01; 0x02; 0x03; 0x04] = 0x3991.
Proof. reflexivity. Qed.

Example crc16_ccitt_x25_no_data : crc16_ccitt_x25 [] = 0x0000.
Proof. reflexivity. Qed.

Example encode_block_without_information :
  t1prime_block_encode (mkBlock 0x21 0x80 0 []) = [0x21; 0x80; 0x00; 0x00; 0x63; 0xda].
Proof. reflexivity. Qed.

Example encode_block_with_information :
  t1prime_block_encode (mkBlock 0x21 0xc1 2 [0x01; 0x02])
  = [0x21; 0xc1; 0x00; 0x02; 0x01; 0x02; 0xb9; 0x85].
Proof. reflexivity. Qed.

Example decode_block_with_information :
  t1prime_block_decode [0x21; 0xc1; 0x00; 0x02; 0x01; 0x02; 0xb9; 0x85]
  = Ok (mkBlock 0x21 0xc1 2 [0x01; 0x02]).
Proof. reflexivity. Qed.

(** ** Bytes and 16-bit words *)

Lemma in_zrange (count : nat) :
  forall start v, start <= v < start + Z.of_nat count -> In v (zrange start count).
Proof.
  induction count as [|count IH]; intros start v Hv.
  - simpl in Hv. lia.
  - simpl. destruct (Z.eq_dec start v) as [->|Hne]; [now left|right].
    apply IH. lia.
Qed.

Lemma is_byte_range (b : Z) : is_byte b = true <-> 0 <= b < 256.
Proof. unfold is_byte. rewrite andb_true_iff, Z.leb_le, Z.ltb_lt. tauto. Qed.

Lemma is_bytes_cons (b : Z) (l : list Z) :
  is_bytes (b :: l) = true <-> 0 <= b < 256 /\ is_bytes l = true.
Proof. unfold is_bytes. simpl. rewrite andb_true_iff, is_byte_range. tauto. Qed.

(** Splitting a 16-bit word into its two bytes and joining them again, checked
    on all 65536 words. *)
Lemma split16_all : forallb split16_ok (zrange 0 (Z.to_nat 65536)) = true.
Proof. vm_compute. reflexivity. Qed.

Lemma split16 (v : Z) :
  0 <= v < 65536 ->
  let hi := Z.shiftr (Z.land v 0xff00) 8 in
  let lo := Z.land v 0xff in
  Z.lor (Z.shiftl hi 8) lo = v /\ to_uint16 (Z.lor (Z.shiftl hi 8) lo) = v
  /\ hi = v / 256 /\ lo = v mod 256 /\ 0 <= hi < 256 /\ 0 <= lo < 256.
Proof.
  intros Hv hi lo.
  pose proof (proj1 (forallb_forall _ _) split16_all v) as H.
  assert (Hin : In v (zrange 0 (Z.to_nat 65536))) by (apply in_zrange; lia).
  specialize (H Hin). unfold split16_ok in H. fold hi lo in H.
  repeat rewrite andb_true_iff in H. repeat rewrite Z.eqb_eq in H.
  repeat rewrite is_byte_range in H. tauto.
Qed.

Lemma join16 (a b : Z) :
  0 <= a < 256 -> 0 <= b < 256 ->
  Z.lor (Z.shiftl a 8) b = a * 256 + b.
Proof.
  intros Ha Hb.
  destruct (split16 (a * 256 + b)) as (H1 & _ & H3 & H4 & _); [lia|].
  assert (Hq : (a * 256 + b) / 256 = a).
  { rewrite Z.div_add_l by lia. rewrite Z.div_small by lia. lia. }
  assert (Hr : (a * 256 + b) mod 256 = b).
  { rewrite Z.add_comm, Z.mod_add by lia. apply Z.mod_small; lia. }
  rewrite H3, H4, Hq, Hr in H1. exact H1.
Qed.

Lemma join16_parts (a b : Z) :
  0 <= a < 256 -> 0 <= b < 256 ->
  let v := Z.lor (Z.shiftl a 8) b in
  0 <= v < 65536 /\ to_uint16 v = v
  /\ Z.shiftr (Z.land v 0xff00) 8 = a /\ Z.land v 0xff = b.
Proof.
  intros Ha Hb v. unfold v. rewrite (join16 a b Ha Hb).
  destruct (split16 (a * 256 + b)) as (H1 & H2 & H3 & H4 & _); [lia|].
  assert (Hq : (a * 256 + b) / 256 = a).
  { rewrite Z.div_add_l by lia. rewrite Z.div_small by lia. lia. }
  assert (Hr : (a * 256 + b) mod 256 = b).
  { rewrite Z.add_comm, Z.mod_add by lia. apply Z.mod_small; lia. }
  rewrite H3, H4, Hq, Hr in H1, H2.
  rewrite (join16 a b Ha Hb) in H2.
  repeat split; try lia; congruence.
Qed.

Lemma crc16_ccitt_x25_range (data : list Z) : 0 <= crc16_ccitt_x25 data < 65536.
Proof.
  unfold crc16_ccitt_x25, to_uint16.
  change 0xffff with (Z.ones 16). rewrite Z.land_ones by lia.
  apply Z.mod_pos_bound. reflexivity.
Qed.

Lemma divmod256 (a b v : Z) :
  0 <= b < 256 -> (v = a * 256 + b <-> a = v / 256 /\ b = v mod 256).
Proof.
  intros Hb. split.
  - intros ->. split.
    + rewrite Z.div_add_l by lia. rewrite Z.div_small by lia. lia.
    + rewrite Z.add_comm, Z.mod_add by lia. symmetry. apply Z.mod_small; lia.
  - intros [-> ->]. pose proof (Z.div_mod v 256). lia.
Qed.

Lemma byte_at_is_byte (x : list Z) (i : Z) :
  is_bytes x = true -> 0 <= byte_at x i < 256.
Proof.
  intros Hx. unfold byte_at.
  destruct (nth_in_or_default (Z.to_nat i) x 0) as [Hin | Hdef]; [|rewrite Hdef; lia].
  apply is_byte_range. unfold is_bytes in Hx.
  exact (proj1 (forallb_forall _ _) Hx _ Hin).
Qed.

Lemma is_bytes_firstn (n : nat) (x : list Z) :
  is_bytes x = true -> is_bytes (firstn n x) = true.
Proof.
  revert x. induction n as [|n IH]; intros [|b x] Hx; try reflexivity.
  apply is_bytes_cons in Hx. cbn [firstn]. apply is_bytes_cons.
  split; [tauto|apply IH; tauto].
Qed.

(** ** Block codec *)

Lemma validate_crc_eqb (block : Block) (expected : Z) :
  (t1prime_validate_crc block expected =? T1PRIME_VALIDATE_CRC_SUCCESS)
  = (crc16_ccitt_x25 (block_crc_input block) =? expected).
Proof.
  unfold t1prime_validate_crc.
  destruct (crc16_ccitt_x25 (block_crc_input block) =? expected); reflexivity.
Qed.

(** The CRC input of a block with [size] information bytes [info]. *)
Lemma block_crc_input_firstn (n p size : Z) (info : list Z) :
  0 <= size < 65536 ->
  block_crc_input (mkBlock n p size (firstn (Z.to_nat size) info))
  = [n; p; size / 256; size mod 256] ++ firstn (Z.to_nat size) info.
Proof.
  intros Hs. unfold block_crc_input. cbn [nad pcb information_size information].
  destruct (split16 size Hs) as (_ & _ & Hhi & Hlo & _).
  rewrite Hhi, Hlo. f_equal. unfold memcpy. cbn [Z.to_nat skipn].
  destruct (0 <? size) eqn:E.
  - rewrite firstn_firstn, Nat.min_id. reflexivity.
  - apply Z.ltb_ge in E. replace size with 0 by lia. reflexivity.
Qed.

(** [t1prime_block_decode] on a byte string, in terms of its length, its LEN
    field and the CRC in its epilogue. *)
Lemma block_decode_spec (x : list Z) :
  is_bytes x = true ->
  t1prime_block_decode x =
    if Z.of_nat (length x) <? 6
    then Err (IFX_ERROR LIBT1PRIME T1PRIME_BLOCK_DECODE TOO_LITTLE_DATA)
    else if negb (Z.of_nat (length x) =? 4 + LEN x + 2)
    then Err (IFX_ERROR LIBT1PRIME T1PRIME_BLOCK_DECODE INFORMATIONSIZE_MISMATCH)
    else if negb (crc_in_epilogue x)
    then Err (IFX_ERROR LIBT1PRIME T1PRIME_BLOCK_DECODE INVALID_CRC)
    else Ok (mkBlock (byte_at x 0) (byte_at x 1) (LEN x)
                     (firstn (Z.to_nat (LEN x)) (skipn 4 x))).
Proof.
  intros Hx. unfold t1prime_block_decode.
  change (BLOCK_PROLOGUE_LENGTH + BLOCK_EPILOGUE_LENGTH) with 6.
  destruct (Z.of_nat (length x) <? 6) eqn:Hlen; [reflexivity|].
  apply Z.ltb_ge in Hlen.
  pose proof (byte_at_is_byte x 2 Hx) as Hc.
  pose proof (byte_at_is_byte x 3 Hx) as Hd.
  rewrite (join16 _ _ Hc Hd). fold (LEN x).
  change BLOCK_PROLOGUE_LENGTH with 4. change BLOCK_EPILOGUE_LENGTH with 2.
  destruct (Z.of_nat (length x) =? 4 + LEN x + 2) eqn:Hsize; [|reflexivity].
  apply Z.eqb_eq in Hsize. cbn [negb].
  assert (HL : 0 <= LEN x < 65536) by (unfold LEN; lia).
  assert (Hinfo : (if 0 <? LEN x then memcpy x 4 (LEN x) else [])
                  = firstn (Z.to_nat (LEN x)) (skipn 4 x)).
  { unfold memcpy. destruct (0 <? LEN x) eqn:E; [reflexivity|].
    apply Z.ltb_ge in E. replace (LEN x) with 0 by lia. reflexivity. }
  rewrite Hinfo, validate_crc_eqb, block_crc_input_firstn by exact HL.
  pose proof (byte_at_is_byte x (Z.of_nat (length x) - 2) Hx) as He1.
  pose proof (byte_at_is_byte x (Z.of_nat (length x) - 1) Hx) as He2.
  destruct (join16_parts _ _ He1 He2) as (_ & Hu16 & _).
  rewrite Hu16, (join16 _ _ He1 He2).
  assert (Hin : [byte_at x 0; byte_at x 1; LEN x / 256; LEN x mod 256]
                ++ firstn (Z.to_nat (LEN x)) (skipn 4 x)
                = firstn (Z.to_nat (4 + LEN x)) x).
  { destruct (divmod256 (byte_at x 2) (byte_at x 3) (LEN x) Hd) as [Hdm _].
    destruct (Hdm eq_refl) as [<- <-].
    destruct x as [|a [|b [|c [|d rest]]]]; cbn [length] in Hlen; try lia.
    replace (Z.to_nat (4 + LEN (a :: b :: c :: d :: rest)))
      with (S (S (S (S (Z.to_nat (LEN (a :: b :: c :: d :: rest))))))) by lia.
    reflexivity. }
  rewrite Hin. unfold crc_in_epilogue.
  set (crc := crc16_ccitt_x25 (firstn (Z.to_nat (4 + LEN x)) x)).
  set (e1 := byte_at x (Z.of_nat (length x) - 2)) in *.
  set (e2 := byte_at x (Z.of_nat (length x) - 1)) in *.
  pose proof (divmod256 e1 e2 crc He2) as Hdm.
  destruct (crc =? e1 * 256 + e2) eqn:E.
  - apply Z.eqb_eq in E. apply Hdm in E. destruct E as [E1 E2].
    rewrite <- E1, <- E2, !Z.eqb_refl. reflexivity.
  - apply Z.eqb_neq in E.
    destruct ((e1 =? crc / 256) && (e2 =? crc mod 256)) eqn:E'; [|reflexivity].
    apply andb_true_iff in E'. rewrite !Z.eqb_eq in E'.
    exfalso. apply E. apply Hdm. exact E'.
Qed.

Lemma split_last_two (k : nat) :
  forall l : list Z,
    length l = (k + 2)%nat -> l = firstn k l ++ [nth k l 0; nth (S k) l 0].
Proof.
  induction k as [|k IH]; intros l Hl.
  - destruct l as [|e1 [|e2 [|e3 l]]]; cbn [length] in Hl; try lia. reflexivity.
  - destruct l as [|e l]; cbn [length] in Hl; [lia|].
    cbn [firstn nth app]. f_equal. apply IH. lia.
Qed.

(** A block read back from a byte string re-encodes to the same string. *)
Lemma block_encode_decode (x : list Z) (b : Block) :
  is_bytes x = true -> t1prime_block_decode x = Ok b -> t1prime_block_encode b = x.
Proof.
  intros Hx Hdec. rewrite (block_decode_spec x Hx) in Hdec.
  destruct (Z.of_nat (length x) <? 6) eqn:Hlen; [discriminate|].
  destruct (Z.of_nat (length x) =? 4 + LEN x + 2) eqn:Hsize; [|discriminate].
  destruct (crc_in_epilogue x) eqn:Hcrc; [|discriminate].
  cbn [negb] in Hdec. injection Hdec as <-.
  apply Z.ltb_ge in Hlen. apply Z.eqb_eq in Hsize.
  pose proof (byte_at_is_byte x 2 Hx) as Hc.
  pose proof (byte_at_is_byte x 3 Hx) as Hd.
  assert (HL : 0 <= LEN x < 65536) by (unfold LEN; lia).
  unfold t1prime_block_encode. rewrite block_crc_input_firstn by exact HL.
  unfold crc_in_epilogue in Hcrc. apply andb_true_iff in Hcrc.
  rewrite !Z.eqb_eq in Hcrc. destruct Hcrc as [He1 He2].
  destruct (divmod256 (byte_at x 2) (byte_at x 3) (LEN x) Hd) as [Hdm _].
  destruct (Hdm eq_refl) as [Hq Hr]. rewrite <- Hq, <- Hr.
  destruct x as [|a [|b [|c [|d rest]]]]; cbn [length] in Hlen; try lia.
  set (x := a :: b :: c :: d :: rest) in *.
  set (k := Z.to_nat (LEN x)) in *.
  assert (Hk : length rest = (k + 2)%nat) by (subst x k; cbn [length] in Hsize; lia).
  assert (Hpre : firstn (Z.to_nat (4 + LEN x)) x = a :: b :: c :: d :: firstn k rest).
  { replace (Z.to_nat (4 + LEN x)) with (S (S (S (S k)))) by (subst k; lia).
    reflexivity. }
  rewrite Hpre in He1, He2.
  set (crc := crc16_ccitt_x25 (a :: b :: c :: d :: firstn k rest)) in *.
  change ([byte_at x 0; byte_at x 1; byte_at x 2; byte_at x 3] ++ firstn k rest)
    with (a :: b :: c :: d :: firstn k rest).
  fold crc.
  destruct (split16 crc (crc16_ccitt_x25_range _)) as (_ & _ & Hhi & Hlo & _).
  change 0x00ff with 0xff. rewrite Hhi, Hlo, <- He1, <- He2.
  unfold byte_at.
  replace (Z.to_nat (Z.of_nat (length x) - 2)) with (S (S (S (S k))))
    by (subst x; cbn [length]; lia).
  replace (Z.to_nat (Z.of_nat (length x) - 1)) with (S (S (S (S (S k)))))
    by (subst x; cbn [length]; lia).
  subst x. cbn [nth app]. do 4 f_equal. symmetry. apply split_last_two. exact Hk.
Qed.

(** The encoding of a well-formed block, and what the decoder reads in it. *)
Lemma block_encode_wf (b : Block) :
  wf_block b = true ->
  let crc := crc16_ccitt_x25
               (nad b :: pcb b :: information_size b / 256
                :: information_size b mod 256 :: information b) in
  t1prime_block_encode b
  = nad b :: pcb b :: information_size b / 256 :: information_size b mod 256
    :: information b ++ [crc / 256; crc mod 256].
Proof.
  unfold wf_block. rewrite !andb_true_iff, !is_byte_range, Z.eqb_eq, Z.leb_le.
  intros ((((Hn & Hp) & Hsz) & Hmax) & Hinfo).
  destruct b as [n p size info]. cbn [nad pcb information_size information] in *.
  set (crc := crc16_ccitt_x25 (n :: p :: size / 256 :: size mod 256 :: info)).
  unfold t1prime_block_encode.
  assert (Hin : block_crc_input (mkBlock n p size info)
                = n :: p :: size / 256 :: size mod 256 :: info).
  { assert (Hfull : firstn (Z.to_nat size) info = info)
      by (subst size; rewrite Nat2Z.id; apply firstn_all).
    rewrite <- Hfull at 1. rewrite block_crc_input_firstn by lia.
    rewrite Hfull. reflexivity. }
  rewrite Hin. cbn [app]. fold crc.
  destruct (split16 crc (crc16_ccitt_x25_range _)) as (_ & _ & Hhi & Hlo & _).
  change 0x00ff with 0xff. rewrite Hhi, Hlo. reflexivity.
Qed.

Lemma block_decode_encode (b : Block) :
  wf_block b = true -> t1prime_block_decode (t1prime_block_encode b) = Ok b.
Proof.
  intros Hwf. pose proof (block_encode_wf b Hwf) as Henc. cbv zeta in Henc.
  revert Hwf. unfold wf_block.
  rewrite !andb_true_iff, !is_byte_range, Z.eqb_eq, Z.leb_le.
  intros ((((Hn & Hp) & Hsz) & Hmax) & Hinfo).
  destruct b as [n p size info]. cbn [nad pcb information_size information] in *.
  set (crc := crc16_ccitt_x25 (n :: p :: size / 256 :: size mod 256 :: info)) in *.
  pose proof (crc16_ccitt_x25_range (n :: p :: size / 256 :: size mod 256 :: info)) as Hcrc.
  fold crc in Hcrc.
  assert (Hs : 0 <= size < 65536) by lia.
  assert (Hq : 0 <= size / 256 < 256)
    by (split; [apply Z.div_pos; lia | apply Z.div_lt_upper_bound; lia]).
  assert (Hr : 0 <= size mod 256 < 256) by (apply Z.mod_pos_bound; lia).
  assert (Hcq : 0 <= crc / 256 < 256)
    by (split; [apply Z.div_pos; lia | apply Z.div_lt_upper_bound; lia]).
  assert (Hcr : 0 <= crc mod 256 < 256) by (apply Z.mod_pos_bound; lia).
  set (y := t1prime_block_encode (mkBlock n p size info)) in *.
  assert (Hy : is_bytes y = true).
  { rewrite Henc. repeat (apply is_bytes_cons; split; [assumption|]).
    unfold is_bytes in *. rewrite forallb_app, Hinfo. cbn [forallb].
    rewrite !(proj2 (is_byte_range _)) by assumption. reflexivity. }
  assert (Hlen : Z.of_nat (length y) = 4 + size + 2).
  { rewrite Henc. cbn [length]. rewrite length_app. cbn [length]. lia. }
  assert (HLEN : LEN y = size).
  { unfold LEN.
    replace (byte_at y 2) with (size / 256) by (rewrite Henc; reflexivity).
    replace (byte_at y 3) with (size mod 256) by (rewrite Henc; reflexivity).
    pose proof (Z.div_mod size 256). lia. }
  rewrite (block_decode_spec y Hy), Hlen, HLEN.
  replace (4 + size + 2 <? 6) with false by (symmetry; apply Z.ltb_ge; lia).
  rewrite Z.eqb_refl. cbn [negb].
  assert (Hpre : firstn (Z.to_nat (4 + size)) y
                 = n :: p :: size / 256 :: size mod 256 :: info).
  { rewrite Henc.
    replace (Z.to_nat (4 + size)) with (S (S (S (S (length info))))) by lia.
    cbn [firstn]. rewrite firstn_app, Nat.sub_diag, firstn_all. cbn [firstn].
    rewrite app_nil_r. reflexivity. }
  assert (Hepi : crc_in_epilogue y = true).
  { unfold crc_in_epilogue. rewrite Hlen, HLEN, Hpre. fold crc.
    unfold byte_at. rewrite Henc.
    replace (Z.to_nat (4 + size + 2 - 2)) with (S (S (S (S (length info))))) by lia.
    replace (Z.to_nat (4 + size + 2 - 1)) with (S (S (S (S (S (length info)))))) by lia.
    cbn [nth]. rewrite !app_nth2 by lia.
    rewrite Nat.sub_diag.
    replace (S (length info) - length info)%nat with 1%nat by lia.
    cbn [nth]. rewrite !Z.eqb_refl. reflexivity. }
  rewrite Hepi. cbn [negb]. f_equal.
  replace (byte_at y 0) with n by (rewrite Henc; reflexivity).
  replace (byte_at y 1) with p by (rewrite Henc; reflexivity).
  replace (skipn 4 y) with (info ++ [crc / 256; crc mod 256])
    by (rewrite Henc; reflexivity).
  f_equal. replace (Z.to_nat size) with (length info) by lia.
  rewrite firstn_app, Nat.sub_diag, firstn_all. cbn [firstn]. apply app_nil_r.
Qed.

(** C2: decoding the encoding of a well-formed block gives the block back,
    and a byte string on which decoding succeeds is reproduced byte for byte
    by encoding the decoded block. *)
Theorem block_codec_roundtrip (b : Block) (x : list Z) :
  wf_block b = true ->
  is_bytes x = true ->
  t1prime_block_decode (t1prime_block_encode b) = Ok b
  /\ (forall b', t1prime_block_decode x = Ok b' -> t1prime_block_encode b' = x).
Proof.
  intros Hwf Hx. split.
  - apply block_decode_encode. exact Hwf.
  - intros b' Hdec. apply block_encode_decode; assumption.
Qed.

Lemma block_codec_roundtrip_witness :
  wf_block (mkBlock 0x21 0xc1 2 [0x01; 0x02]) = true
  /\ is_bytes [0x21; 0x80; 0x00; 0x00; 0x63; 0xda] = true
  /\ t1prime_block_decode (t1prime_block_encode (mkBlock 0x21 0xc1 2 [0x01; 0x02]))
     = Ok (mkBlock 0x21 0xc1 2 [0x01; 0x02])
  /\ (forall b', t1prime_block_decode [0x21; 0x80; 0x00; 0x00; 0x63; 0xda] = Ok b' ->
                 t1prime_block_encode b' = [0x21; 0x80; 0x00; 0x00; 0x63; 0xda]).
Proof.
  split; [reflexivity|]. split; [reflexivity|].
  exact (block_codec_roundtrip (mkBlock 0x21 0xc1 2 [0x01; 0x02])
           [0x21; 0x80; 0x00; 0x00; 0x63; 0xda] eq_refl eq_refl).
Defined.

(** C3: on a byte string [x], decoding succeeds exactly when [|x| >= 6],
    [|x| = 4 + LEN + 2] and the epilogue holds the big-endian CRC of the first
    [4 + LEN] bytes; it fails with TOO_LITTLE_DATA when [|x| < 6], with
    INFORMATIONSIZE_MISMATCH when the length differs from [4 + LEN + 2], and
    with INVALID_CRC when only the CRC comparison fails. *)
Theorem block_decode_succeeds_iff (x : list Z) :
  is_bytes x = true ->
  ((exists b, t1prime_block_decode x = Ok b)
   <-> (6 <= Z.of_nat (length x) /\ Z.of_nat (length x) = 4 + LEN x + 2
        /\ crc_in_epilogue x = true))
  /\ (Z.of_nat (length x) < 6 ->
      t1prime_block_decode x = Err (IFX_ERROR LIBT1PRIME T1PRIME_BLOCK_DECODE TOO_LITTLE_DATA))
  /\ (6 <= Z.of_nat (length x) -> Z.of_nat (length x) <> 4 + LEN x + 2 ->
      t1prime_block_decode x
      = Err (IFX_ERROR LIBT1PRIME T1PRIME_BLOCK_DECODE INFORMATIONSIZE_MISMATCH))
  /\ (6 <= Z.of_nat (length x) -> Z.of_nat (length x) = 4 + LEN x + 2 ->
      crc_in_epilogue x = false ->
      t1prime_block_decode x = Err (IFX_ERROR LIBT1PRIME T1PRIME_BLOCK_DECODE INVALID_CRC)).
Proof.
  intros Hx. rewrite (block_decode_spec x Hx).
  destruct (Z.of_nat (length x) <? 6) eqn:Hlen;
    [apply Z.ltb_lt in Hlen | apply Z.ltb_ge in Hlen].
  - split; [|split; [|split]]; try (intros; lia); try reflexivity.
    split; [intros [b Hb]; discriminate | intros; lia].
  - destruct (Z.of_nat (length x) =? 4 + LEN x + 2) eqn:Hsize;
      [apply Z.eqb_eq in Hsize | apply Z.eqb_neq in Hsize]; cbn [negb].
    + destruct (crc_in_epilogue x) eqn:Hcrc; cbn [negb].
      * split; [|split; [|split]]; try (intros; lia); try (intros; discriminate).
        split; [intros _; auto | intros _; eexists; reflexivity].
      * split; [|split; [|split]]; try (intros; lia); try reflexivity.
        split; [intros [b Hb]; discriminate | intros (_ & _ & H); discriminate].
    + split; [|split; [|split]]; try (intros; lia); try reflexivity.
      split; [intros [b Hb]; discriminate | intros (_ & H & _); contradiction].
Qed.

Lemma block_decode_succeeds_iff_witness :
  is_bytes [0x21; 0xc1; 0x00; 0x02; 0x01; 0x02; 0xb9; 0x85] = true
  /\ exists b, t1prime_block_decode [0x21; 0xc1; 0x00; 0x02; 0x01; 0x02; 0xb9; 0x85] = Ok b.
Proof.
  split; [reflexivity|].
  apply (proj1 (block_decode_succeeds_iff
                  [0x21; 0xc1; 0x00; 0x02; 0x01; 0x02; 0xb9; 0x85] eq_refl)).
  repeat split; vm_compute; congruence.
Defined.

(** ** Status codes *)

Lemma IFX_ERROR_not_success (md fn reason : Z) : IFX_ERROR md fn reason <> SUCCESS.
Proof.
  unfold IFX_ERROR, SUCCESS. rewrite !Z.lor_eq_0_iff.
  intros (((H & _) & _) & _). discriminate H.
Qed.

Lemma IFX_ERROR_eqb_success (md fn reason : Z) : (IFX_ERROR md fn reason =? SUCCESS) = false.
Proof. apply Z.eqb_neq, IFX_ERROR_not_success. Qed.

(** ** IFS codec *)

Lemma ifs_bytes_all : forallb ifs_bytes_ok (zrange 0 (Z.to_nat 0x1000)) = true.
Proof. vm_compute. reflexivity. Qed.

Lemma ifs_bytes (v : Z) :
  0 <= v < 0x1000 ->
  Z.shiftr (Z.land v 0x0f00) 8 = v / 256 /\ Z.land v 0x00ff = v mod 256.
Proof.
  intros Hv.
  pose proof (proj1 (forallb_forall _ _) ifs_bytes_all v) as H.
  assert (Hin : In v (zrange 0 (Z.to_nat 0x1000))) by (apply in_zrange; lia).
  specialize (H Hin). unfold ifs_bytes_ok in H.
  rewrite andb_true_iff, !Z.eqb_eq in H. exact H.
Qed.

Lemma ifs_encode_illegal (n : Z) :
  0 <= n ->
  (t1prime_ifs_encode n = Err (IFX_ERROR LIBT1PRIME PROTOCOL_SETPROPERTY ILLEGAL_ARGUMENT)
   <-> n = 0 \/ n > 0xff9).
Proof.
  intros Hn. unfold t1prime_ifs_encode, T1PRIME_MAX_IFS.
  destruct (n =? 0) eqn:E0; [apply Z.eqb_eq in E0 | apply Z.eqb_neq in E0].
  - cbn [orb]. split; [intros _; left; exact E0 | reflexivity].
  - cbn [orb]. destruct (0xff9 <? n) eqn:E1;
      [apply Z.ltb_lt in E1 | apply Z.ltb_ge in E1].
    + split; [intros _; right; lia | reflexivity].
    + split; [|intros [H|H]; lia].
      destruct (n <=? 0xfe); cbn [Z.eqb Pos.eqb]; discriminate.
Qed.

Lemma ifs_encode_one_byte (n : Z) : 1 <= n <= 0xfe -> t1prime_ifs_encode n = Ok [n].
Proof.
  intros Hn. unfold t1prime_ifs_encode, T1PRIME_MAX_IFS.
  replace (n =? 0) with false by (symmetry; apply Z.eqb_neq; lia).
  replace (0xff9 <? n) with false by (symmetry; apply Z.ltb_ge; lia).
  replace (n <=? 0xfe) with true by (symmetry; apply Z.leb_le; lia).
  cbn [orb Z.eqb Pos.eqb].
  destruct (ifs_bytes n) as [_ Hlo]; [lia|].
  change 0xff with 0x00ff. rewrite Hlo, Z.mod_small by lia. reflexivity.
Qed.

Lemma ifs_encode_two_bytes (n : Z) :
  0xff <= n <= 0xff9 -> t1prime_ifs_encode n = Ok [n / 256; n mod 256].
Proof.
  intros Hn. unfold t1prime_ifs_encode, T1PRIME_MAX_IFS.
  replace (n =? 0) with false by (symmetry; apply Z.eqb_neq; lia).
  replace (0xff9 <? n) with false by (symmetry; apply Z.ltb_ge; lia).
  replace (n <=? 0xfe) with false by (symmetry; apply Z.leb_gt; lia).
  cbn [orb Z.eqb Pos.eqb].
  destruct (ifs_bytes n) as [Hhi Hlo]; [lia|].
  rewrite Hhi, Hlo. reflexivity.
Qed.

Lemma ifs_encode_error (n e : Z) :
  t1prime_ifs_encode n = Err e ->
  e = IFX_ERROR LIBT1PRIME PROTOCOL_SETPROPERTY ILLEGAL_ARGUMENT.
Proof.
  unfold t1prime_ifs_encode.
  destruct ((n =? 0) || (T1PRIME_MAX_IFS <? n)); [congruence|].
  destruct (n <=? 0xfe); cbn [Z.eqb Pos.eqb]; discriminate.
Qed.

Lemma set_ifsd_success (st st' : T1PrimeProtocolState) (n : Z) (w w' : World) :
  t1prime_set_ifsd st n w = (PROTOCOL_SETPROPERTY_SUCCESS, st', w') ->
  exists encoded response,
    t1prime_ifs_encode n = Ok encoded
    /\ t1prime_block_transceive st (ifs_request encoded) w
       = (PROTOCOL_TRANSCEIVE_SUCCESS, response, st', w')
    /\ pcb response = T1PRIME_PCB_S_IFS_RESP
    /\ t1prime_ifs_decode (information response) (information_size response) = Ok n.
Proof.
  unfold t1prime_set_ifsd.
  destruct (t1prime_ifs_encode n) as [encoded|e] eqn:Henc.
  - destruct (t1prime_block_transceive st (ifs_request encoded) w)
      as [[[status response] st1] w1] eqn:Htr.
    destruct (status =? PROTOCOL_TRANSCEIVE_SUCCESS) eqn:Hst; cbn [negb].
    + apply Z.eqb_eq in Hst. subst status.
      destruct (pcb response =? T1PRIME_PCB_S_IFS_RESP) eqn:Hpcb; cbn [negb].
      * apply Z.eqb_eq in Hpcb.
        destruct (t1prime_ifs_decode (information response) (information_size response))
          as [ifs|e] eqn:Hdec.
        -- destruct (ifs =? n) eqn:Hifs; cbn [negb].
           ++ apply Z.eqb_eq in Hifs. subst ifs. intros H. injection H as <- <-.
              exists encoded, response. auto.
           ++ intros H. injection H as H _ _. now apply IFX_ERROR_not_success in H.
        -- intros H. injection H as H _ _. now apply IFX_ERROR_not_success in H.
      * intros H. injection H as H _ _. now apply IFX_ERROR_not_success in H.
    + apply Z.eqb_neq in Hst. intros H. injection H as H _ _. contradiction.
  - apply ifs_encode_error in Henc. subst e.
    intros H. injection H as H _ _. now apply IFX_ERROR_not_success in H.
Qed.

Lemma set_ifsd_invalid_block (st st' : T1PrimeProtocolState) (n : Z) (w w' : World)
    (encoded : list Z) (response : Block) :
  t1prime_ifs_encode n = Ok encoded ->
  t1prime_block_transceive st (ifs_request encoded) w
  = (PROTOCOL_TRANSCEIVE_SUCCESS, response, st', w') ->
  pcb response <> T1PRIME_PCB_S_IFS_RESP
  \/ t1prime_ifs_decode (information response) (information_size response) <> Ok n ->
  t1prime_set_ifsd st n w = (IFX_ERROR LIBT1PRIME PROTOCOL_RECEIVE INVALID_BLOCK, st', w').
Proof.
  intros Henc Htr Hbad. unfold t1prime_set_ifsd. rewrite Henc, Htr.
  change (PROTOCOL_TRANSCEIVE_SUCCESS =? PROTOCOL_TRANSCEIVE_SUCCESS) with true.
  cbn [negb].
  destruct (pcb response =? T1PRIME_PCB_S_IFS_RESP) eqn:Hpcb; cbn [negb]; [|reflexivity].
  apply Z.eqb_eq in Hpcb.
  destruct (t1prime_ifs_decode (information response) (information_size response))
    as [ifs|e] eqn:Hdec; [|reflexivity].
  destruct (ifs =? n) eqn:Hifs; cbn [negb]; [|reflexivity].
  apply Z.eqb_eq in Hifs. subst ifs. destruct Hbad as [H|H]; congruence.
Qed.

(** ** The environment while a block is read *)

Lemma rx_consumed_refl (w : World) : rx_consumed w w.
Proof. unfold rx_consumed. auto. Qed.

Lemma rx_consumed_trans (w1 w2 w3 : World) :
  rx_consumed w1 w2 -> rx_consumed w2 w3 -> rx_consumed w1 w3.
Proof. unfold rx_consumed. intros (? & ? & ? & ?) (? & ? & ? & ?). repeat split; try congruence; lia. Qed.

Lemma driver_receive_consumed (n : Z) (w : World) :
  rx_consumed w (snd (driver_receive n w))
  /\ (fst (fst (driver_receive n w)) = PROTOCOL_RECEIVE_SUCCESS ->
      (length (rx_script (snd (driver_receive n w))) < length (rx_script w))%nat).
Proof.
  unfold driver_receive, rx_consumed.
  destruct (rx_script w) as [|[status response] rest] eqn:E; cbn [fst snd].
  - rewrite E. split; [auto|]. intros H. now apply IFX_ERROR_not_success in H.
  - cbn [rx_script tx_log tx_script bwt_polls length]. split; [repeat split; lia|lia].
Qed.

Lemma poll_nad_consumed (polls : nat) :
  forall w,
    rx_consumed w (snd (poll_nad polls w))
    /\ (fst (poll_nad polls w) <> 0x00 ->
        (length (rx_script (snd (poll_nad polls w))) < length (rx_script w))%nat).
Proof.
  induction polls as [|polls IH]; intros w.
  - cbn [poll_nad fst snd]. split; [apply rx_consumed_refl|]. intros H. now contradiction H.
  - cbn [poll_nad].
    destruct (driver_receive_consumed 1 w) as [Hc Hs].
    destruct (driver_receive 1 w) as [[status nad_buffer] w1]. cbn [fst snd] in Hc, Hs.
    destruct (IH w1) as [IHc IHs].
    assert (Hle : (length (rx_script w1) <= length (rx_script w))%nat) by apply Hc.
    destruct (status =? PROTOCOL_RECEIVE_SUCCESS) eqn:Est.
    + apply Z.eqb_eq in Est. specialize (Hs Est).
      destruct ((Z.of_nat (length nad_buffer) =? 1)
                && negb (byte_at nad_buffer 0 =? 0x00)
                && negb (byte_at nad_buffer 0 =? 0xff)).
      * cbn [fst snd]. split; [exact Hc|]. intros _. exact Hs.
      * split; [eapply rx_consumed_trans; eassumption|]. intros H. specialize (IHs H). lia.
    + split; [eapply rx_consumed_trans; eassumption|]. intros H. specialize (IHs H). lia.
Qed.

Lemma block_receive_consumed (st : T1PrimeProtocolState) (w : World) :
  rx_consumed w (snd (t1prime_block_receive st w))
  /\ (fst (fst (t1prime_block_receive st w)) = PROTOCOL_RECEIVE_SUCCESS ->
      (length (rx_script (snd (t1prime_block_receive st w))) < length (rx_script w))%nat).
Proof.
  unfold t1prime_block_receive.
  destruct (poll_nad_consumed (bwt_polls w) w) as [Hc0 Hs0].
  destruct (poll_nad (bwt_polls w) w) as [nad0 w1]. cbn [fst snd] in Hc0, Hs0.
  destruct (nad0 =? 0x00) eqn:Enad.
  { cbn [fst snd]. split; [exact Hc0|]. intros H. now apply IFX_ERROR_not_success in H. }
  apply Z.eqb_neq in Enad. specialize (Hs0 Enad).
  destruct (driver_receive_consumed (BLOCK_PROLOGUE_LENGTH - 1) w1) as [Hc1 _].
  destruct (driver_receive (BLOCK_PROLOGUE_LENGTH - 1) w1) as [[status1 binary1] w2].
  cbn [fst snd] in Hc1.
  pose proof (rx_consumed_trans _ _ _ Hc0 Hc1) as Hc01.
  assert (Hlt2 : (length (rx_script w2) < length (rx_script w))%nat)
    by (destruct Hc1 as (_ & _ & _ & Hc1); lia).
  destruct (status1 =? PROTOCOL_RECEIVE_SUCCESS) eqn:E1; cbn [negb].
  2:{ cbn [fst snd]. split; [exact Hc01|]. intros _. exact Hlt2. }
  destruct (Z.of_nat (length binary1) =? BLOCK_PROLOGUE_LENGTH - 1); cbn [negb].
  2:{ cbn [fst snd]. split; [exact Hc01|]. intros _. exact Hlt2. }
  set (size := Z.lor (Z.shiftl (byte_at binary1 1) 8) (byte_at binary1 2)).
  assert (Hinfo : rx_consumed w2
                    (snd (if 0 <? size then driver_receive size w2
                          else (PROTOCOL_RECEIVE_SUCCESS, [], w2)))).
  { destruct (0 <? size); [apply driver_receive_consumed|apply rx_consumed_refl]. }
  destruct (if 0 <? size then driver_receive size w2 else (PROTOCOL_RECEIVE_SUCCESS, [], w2))
    as [[status2 info] w3].
  cbn [snd] in Hinfo.
  pose proof (rx_consumed_trans _ _ _ Hc01 Hinfo) as Hc012.
  assert (Hlt3 : (length (rx_script w3) < length (rx_script w))%nat)
    by (destruct Hinfo as (_ & _ & _ & Hinfo); lia).
  destruct (status2 =? PROTOCOL_RECEIVE_SUCCESS); cbn [negb].
  2:{ cbn [fst snd]. split; [exact Hc012|]. intros _. exact Hlt3. }
  destruct ((0 <? size) && negb (Z.of_nat (length info) =? size)).
  { cbn [fst snd]. split; [exact Hc012|]. intros _. exact Hlt3. }
  destruct (driver_receive_consumed BLOCK_EPILOGUE_LENGTH w3) as [Hc3 _].
  destruct (driver_receive BLOCK_EPILOGUE_LENGTH w3) as [[status3 binary3] w4].
  cbn [fst snd] in Hc3.
  pose proof (rx_consumed_trans _ _ _ Hc012 Hc3) as Hc0123.
  assert (Hlt4 : (length (rx_script w4) < length (rx_script w))%nat)
    by (destruct Hc3 as (_ & _ & _ & Hc3); lia).
  repeat match goal with
         | |- context [if ?c then _ else _] => destruct c
         end; cbn [fst snd]; (split; [exact Hc0123 | intros _; exact Hlt4]).
Qed.

(** ** The retransmission loop of [t1prime_block_transceive] *)

Lemma same_session_refl (st : T1PrimeProtocolState) : same_session st st.
Proof. unfold same_session. auto. Qed.

Lemma same_session_trans (st1 st2 st3 : T1PrimeProtocolState) :
  same_session st1 st2 -> same_session st2 st3 -> same_session st1 st3.
Proof.
  unfold same_session. intros (? & ? & ? & ? & ?) (? & ? & ? & ? & ?).
  repeat split; congruence.
Qed.

Lemma validate_retry_not_success (st : T1PrimeProtocolState) (block response : Block)
    (status e : Z) :
  block_transceive_validate st block status response = Retry e -> e <> SUCCESS.
Proof.
  unfold block_transceive_validate.
  destruct (status =? PROTOCOL_RECEIVE_SUCCESS) eqn:Est.
  - repeat match goal with
           | |- context [if ?c then _ else _] => destruct c
           end; intros H; try discriminate H; injection H as <-;
      apply IFX_ERROR_not_success.
  - intros H. injection H as <-. apply Z.eqb_neq in Est. exact Est.
Qed.

Lemma validate_done_success (st : T1PrimeProtocolState) (block response : Block)
    (status : Z) :
  block_transceive_validate st block status response = Done SUCCESS ->
  status = PROTOCOL_RECEIVE_SUCCESS.
Proof.
  unfold block_transceive_validate.
  destruct (status =? PROTOCOL_RECEIVE_SUCCESS) eqn:Est; [|discriminate].
  intros _. apply Z.eqb_eq. exact Est.
Qed.

Lemma block_transmit_spec (st : T1PrimeProtocolState) (block : Block) (w : World) :
  rx_script (snd (t1prime_block_transmit st block w)) = rx_script w
  /\ bwt_polls (snd (t1prime_block_transmit st block w)) = bwt_polls w
  /\ (tx_log (snd (t1prime_block_transmit st block w)) = tx_log w
      /\ fst (t1prime_block_transmit st block w) <> PROTOCOL_TRANSMIT_SUCCESS
      \/ tx_log (snd (t1prime_block_transmit st block w))
         = tx_log w ++ [t1prime_block_encode block]).
Proof.
  unfold t1prime_block_transmit.
  destruct (ifsc st <? information_size block); cbn [fst snd driver_transmit rx_script
                                                     bwt_polls tx_log].
  - repeat split. left. split; [reflexivity|apply IFX_ERROR_not_success].
  - repeat split. right. reflexivity.
Qed.

(** One round: the session only loses its pending WTX delay, the script is
    only consumed, at most the frame of [to_send] goes out, a round that asks
    for a retry has sent it and carries an error, and a round that ends the
    call with success has read a block. *)
Lemma block_transceive_attempt_spec (block to_send : Block)
    (st : T1PrimeProtocolState) (w : World)
    (outcome : attempt) (response : Block) (st1 : T1PrimeProtocolState) (w1 : World) :
  block_transceive_attempt block to_send st w = (outcome, response, st1, w1) ->
  same_session st st1
  /\ (length (rx_script w1) <= length (rx_script w))%nat
  /\ bwt_polls w1 = bwt_polls w
  /\ (tx_log w1 = tx_log w \/ tx_log w1 = tx_log w ++ [t1prime_block_encode to_send])
  /\ (outcome = Done SUCCESS -> (length (rx_script w1) < length (rx_script w))%nat)
  /\ (forall e, outcome = Retry e ->
                e <> SUCCESS /\ tx_log w1 = tx_log w ++ [t1prime_block_encode to_send]).
Proof.
  unfold block_transceive_attempt.
  destruct (block_transmit_spec st to_send w) as (Hrx & Hpolls & Hlog).
  destruct (t1prime_block_transmit st to_send w) as [status wt]. cbn [fst snd] in *.
  destruct (status =? PROTOCOL_TRANSMIT_SUCCESS) eqn:Est; cbn [negb].
  - apply Z.eqb_eq in Est.
    set (st' := if 0 <? wtx_delay st then set_wtx_delay 0 st else st).
    assert (Hss : same_session st st').
    { subst st'. destruct (0 <? wtx_delay st); unfold same_session; cbn; auto. }
    destruct (block_receive_consumed st' wt) as [(Hc1 & Hc2 & Hc3 & Hc4) Hs].
    destruct (t1prime_block_receive st' wt) as [[rstatus rblock] w2]. cbn [fst snd] in *.
    intros H. injection H as <- <- <- <-.
    assert (Hlog' : tx_log wt = tx_log w ++ [t1prime_block_encode to_send])
      by (destruct Hlog as [[_ Hlog]|Hlog]; [contradiction|exact Hlog]).
    rewrite Hrx in Hc4, Hs.
    split; [exact Hss|]. split; [lia|]. split; [congruence|].
    split; [right; congruence|]. split.
    + intros Hdone. apply validate_done_success in Hdone. specialize (Hs Hdone). lia.
    + intros e He. split; [|congruence].
      eapply validate_retry_not_success. eassumption.
  - apply Z.eqb_neq in Est. intros H. injection H as <- <- <- <-.
    split; [apply same_session_refl|]. split; [rewrite Hrx; lia|].
    split; [exact Hpolls|].
    split; [destruct Hlog as [[Hlog _]|Hlog]; [left|right]; exact Hlog|]. split.
    + intros Hdone. injection Hdone as Hdone. contradiction.
    + intros e He. discriminate He.
Qed.

Lemma retry_block_frame (st : T1PrimeProtocolState) (b : Block) :
  t1prime_block_encode (retry_block st b b) = retry_frame st b.
Proof.
  unfold retry_block, retry_frame, is_s_request.
  destruct (T1PRIME_PCB_IS_S (pcb b)), (T1PRIME_PCB_S_IS_REQUEST (pcb b)); reflexivity.
Qed.

Lemma retry_block_again (st st1 : T1PrimeProtocolState) (block to_send : Block) :
  same_session st st1 ->
  retry_block st1 block to_send = retry_block st block to_send
  /\ retry_block st1 block (retry_block st block to_send) = retry_block st block to_send.
Proof.
  intros (_ & _ & _ & _ & Hrc). unfold retry_block. rewrite Hrc.
  destruct (negb (T1PRIME_PCB_IS_S (pcb block))
            || negb (T1PRIME_PCB_S_IS_REQUEST (pcb block))); auto.
Qed.

(** The whole loop with [retries] retries left: at most [retries + 1] frames
    go out, the first for [to_send] and every later one for the retry block. *)
Lemma block_transceive_loop_spec (retries : nat) :
  forall (block to_send : Block) (st : T1PrimeProtocolState) (w : World)
         (status : Z) (response : Block) (st' : T1PrimeProtocolState) (w' : World),
    block_transceive_loop retries block to_send st w = (status, response, st', w') ->
    same_session st st'
    /\ (length (rx_script w') <= length (rx_script w))%nat
    /\ bwt_polls w' = bwt_polls w
    /\ (status = SUCCESS -> (length (rx_script w') < length (rx_script w))%nat)
    /\ exists k,
         (k <= S retries)%nat
         /\ tx_log w'
            = tx_log w
              ++ firstn k (t1prime_block_encode to_send
                           :: repeat (t1prime_block_encode (retry_block st block to_send))
                                     retries).
Proof.
  induction retries as [|retries IH]; intros block to_send st w status response st' w';
    cbn [block_transceive_loop];
    destruct (block_transceive_attempt block to_send st w) as [[[outcome r1] st1] w1] eqn:Hat;
    destruct (block_transceive_attempt_spec _ _ _ _ _ _ _ _ Hat)
      as (Hss & Hle & Hpolls & Hlog & Hdone & Hretry);
    destruct outcome as [s|s].
  - intros H. injection H as <- <- <- <-.
    split; [exact Hss|]. split; [exact Hle|]. split; [exact Hpolls|]. split.
    + intros ->. apply Hdone. reflexivity.
    + destruct Hlog as [Hlog|Hlog]; [exists 0%nat | exists 1%nat]; rewrite Hlog;
        cbn [firstn repeat]; rewrite ?app_nil_r; split; (lia || reflexivity).
  - intros H. injection H as <- <- <- <-.
    destruct (Hretry s eq_refl) as [Hs Hlog'].
    split; [exact Hss|]. split; [exact Hle|]. split; [exact Hpolls|]. split.
    + intros ->. contradiction.
    + exists 1%nat. rewrite Hlog'. split; [lia|reflexivity].
  - intros H. injection H as <- <- <- <-.
    split; [exact Hss|]. split; [exact Hle|]. split; [exact Hpolls|]. split.
    + intros ->. apply Hdone. reflexivity.
    + destruct Hlog as [Hlog|Hlog]; [exists 0%nat | exists 1%nat]; rewrite Hlog;
        cbn [firstn repeat]; rewrite ?app_nil_r; split; (lia || reflexivity).
  - intros H. apply IH in H. destruct H as (Hss' & Hle' & Hpolls' & Hsucc & k & Hk & Hlog2).
    destruct (Hretry s eq_refl) as [Hs Hlog'].
    destruct (retry_block_again st st1 block to_send Hss) as [Hrb1 Hrb2].
    split; [eapply same_session_trans; eassumption|].
    split; [lia|]. split; [congruence|]. split.
    + intros Hst. specialize (Hsucc Hst). lia.
    + exists (S k). split; [lia|].
      rewrite Hlog2, Hlog', Hrb1, Hrb2, <- app_assoc. reflexivity.
Qed.

Lemma block_transceive_spec (st : T1PrimeProtocolState) (b : Block) (w : World)
    (status : Z) (response : Block) (st' : T1PrimeProtocolState) (w' : World) :
  t1prime_block_transceive st b w = (status, response, st', w') ->
  same_session st st'
  /\ (length (rx_script w') <= length (rx_script w))%nat
  /\ bwt_polls w' = bwt_polls w
  /\ (status = SUCCESS -> (length (rx_script w') < length (rx_script w))%nat)
  /\ exists k,
       (k <= 3)%nat
       /\ tx_log w'
          = tx_log w ++ firstn k [t1prime_block_encode b; retry_frame st b; retry_frame st b].
Proof.
  unfold t1prime_block_transceive. intros H.
  apply block_transceive_loop_spec in H. rewrite retry_block_frame in H. exact H.
Qed.







(** ** The round that ends a block exchange, and what [t1prime_set_ifsd]
    makes of it *)

Lemma retry_block_s_request (st : T1PrimeProtocolState) (block to_send : Block) :
  is_s_request (pcb block) = true -> retry_block st block to_send = to_send.
Proof.
  unfold is_s_request, retry_block. intros H. apply andb_true_iff in H.
  destruct H as [-> ->]. reflexivity.
Qed.

Lemma last_round_spec (retries : nat) :
  forall (block to_send ts : Block) (st st0 : T1PrimeProtocolState) (w w0 : World),
    last_round retries block to_send st w = (ts, st0, w0) ->
    same_session st st0
    /\ (is_s_request (pcb block) = true -> ts = to_send)
    /\ block_transceive_loop retries block to_send st w
       = (let '(outcome, response_buffer, st1, w1) :=
            block_transceive_attempt block ts st0 w0 in
          match outcome with
          | Done status =>
              (status,
               (if status =? SUCCESS then response_buffer
                else t1prime_block_destroy response_buffer),
               st1, w1)
          | Retry status => (status, response_buffer, st1, w1)
          end).
Proof.
  induction retries as [|retries IH]; intros block to_send ts st st0 w w0;
    cbn [last_round block_transceive_loop];
    destruct (block_transceive_attempt block to_send st w) as [[[outcome r1] st1] w1] eqn:Hat;
    destruct outcome as [s|s]; intros H;
    try (injection H as <- <- <-; rewrite Hat;
         split; [apply same_session_refl|]; split; [reflexivity|reflexivity]).
  destruct (block_transceive_attempt_spec _ _ _ _ _ _ _ _ Hat) as (Hss & _).
  destruct (IH _ _ _ _ _ _ _ H) as (Hss' & Hts & Hloop).
  split; [eapply same_session_trans; eassumption|].
  split; [|exact Hloop].
  intros Hreq. rewrite (Hts Hreq). apply retry_block_s_request, Hreq.
Qed.

Lemma validate_s_request (st : T1PrimeProtocolState) (block rb : Block) :
  is_s_request (pcb block) = true ->
  block_transceive_validate st block PROTOCOL_RECEIVE_SUCCESS rb
  = Done PROTOCOL_RECEIVE_SUCCESS
  \/ block_transceive_validate st block PROTOCOL_RECEIVE_SUCCESS rb
     = Done (IFX_ERROR LIBT1PRIME PROTOCOL_TRANSCEIVE INVALID_BLOCK)
  \/ block_transceive_validate st block PROTOCOL_RECEIVE_SUCCESS rb
     = Retry (IFX_ERROR LIBT1PRIME PROTOCOL_TRANSCEIVE INVALID_BLOCK).
Proof.
  intros Hreq. unfold block_transceive_validate. rewrite Hreq.
  change (PROTOCOL_RECEIVE_SUCCESS =? PROTOCOL_RECEIVE_SUCCESS) with true. cbv beta iota.
  destruct (T1PRIME_PCB_IS_S (pcb rb) && negb (T1PRIME_PCB_S_IS_REQUEST (pcb rb))).
  - destruct (T1PRIME_PCB_S_GET_TYPE (pcb block) =? T1PRIME_PCB_S_GET_TYPE (pcb rb)); auto.
  - destruct (T1PRIME_PCB_IS_R (pcb rb)).
    + destruct (negb (T1PRIME_PCB_R_GET_NR (pcb rb) =? send_counter st)); auto.
    + destruct (T1PRIME_PCB_IS_I (pcb rb)); auto.
Qed.

Lemma set_ifsd_last_round (st : T1PrimeProtocolState) (n : Z) (w : World)
    (encoded : list Z) (to_send : Block) (st0 : T1PrimeProtocolState) (w0 : World)
    (tstatus : Z) (wt : World) (rstatus : Z) (rb : Block) (wr : World) :
  t1prime_ifs_encode n = Ok encoded ->
  last_round T1PRIME_BLOCK_TRANSCEIVE_RETRIES (ifs_request encoded) (ifs_request encoded) st w
  = (to_send, st0, w0) ->
  t1prime_block_transmit st0 to_send w0 = (tstatus, wt) ->
  t1prime_block_receive (clear_wtx_delay st0) wt = (rstatus, rb, wr) ->
  to_send = ifs_request encoded
  /\ same_session st st0
  /\ (tstatus <> PROTOCOL_TRANSMIT_SUCCESS -> t1prime_set_ifsd st n w = (tstatus, st0, wt))
  /\ (tstatus = PROTOCOL_TRANSMIT_SUCCESS -> rstatus <> PROTOCOL_RECEIVE_SUCCESS ->
      t1prime_set_ifsd st n w = (rstatus, clear_wtx_delay st0, wr))
  /\ (tstatus = PROTOCOL_TRANSMIT_SUCCESS -> rstatus = PROTOCOL_RECEIVE_SUCCESS ->
      ifs_response_for n rb = true ->
      t1prime_set_ifsd st n w = (PROTOCOL_SETPROPERTY_SUCCESS, clear_wtx_delay st0, wr))
  /\ (tstatus = PROTOCOL_TRANSMIT_SUCCESS -> rstatus = PROTOCOL_RECEIVE_SUCCESS ->
      ifs_response_for n rb = false ->
      exists fn,
        (fn = PROTOCOL_TRANSCEIVE \/ fn = PROTOCOL_RECEIVE)
        /\ t1prime_set_ifsd st n w
           = (IFX_ERROR LIBT1PRIME fn INVALID_BLOCK, clear_wtx_delay st0, wr)).
Proof.
  intros Henc Hlast Htx Hrx.
  destruct (last_round_spec _ _ _ _ _ _ _ _ Hlast) as (Hss & Hts & Hloop).
  specialize (Hts eq_refl). subst to_send.
  split; [reflexivity|]. split; [exact Hss|].
  unfold t1prime_set_ifsd, t1prime_block_transceive. rewrite Henc, Hloop.
  unfold block_transceive_attempt. rewrite Htx.
  fold (clear_wtx_delay st0). 
  split; [|split; [|split]].
  - intros Ht. apply Z.eqb_neq in Ht. rewrite Ht. cbn [negb]. cbv beta iota.
    change PROTOCOL_TRANSCEIVE_SUCCESS with PROTOCOL_TRANSMIT_SUCCESS.
    rewrite Ht. reflexivity.
  - intros -> Hr. apply Z.eqb_neq in Hr.
    change (PROTOCOL_TRANSMIT_SUCCESS =? PROTOCOL_TRANSMIT_SUCCESS) with true. cbn [negb].
    rewrite Hrx. unfold block_transceive_validate. rewrite Hr.
    change PROTOCOL_TRANSCEIVE_SUCCESS with PROTOCOL_RECEIVE_SUCCESS. rewrite Hr. reflexivity.
  - intros -> -> Hok. unfold ifs_response_for in Hok.
    apply andb_true_iff in Hok. destruct Hok as [Hpcb Hval].
    change (PROTOCOL_TRANSMIT_SUCCESS =? PROTOCOL_TRANSMIT_SUCCESS) with true. cbn [negb].
    rewrite Hrx. unfold block_transceive_validate.
    change (PROTOCOL_RECEIVE_SUCCESS =? PROTOCOL_RECEIVE_SUCCESS) with true.
    change (is_s_request (pcb (ifs_request encoded))) with true. cbv beta iota.
    pose proof Hpcb as Hpcb'. apply Z.eqb_eq in Hpcb'. rewrite Hpcb'.
    change (T1PRIME_PCB_IS_S T1PRIME_PCB_S_IFS_RESP
            && negb (T1PRIME_PCB_S_IS_REQUEST T1PRIME_PCB_S_IFS_RESP)) with true.
    change (T1PRIME_PCB_S_GET_TYPE (pcb (ifs_request encoded))
            =? T1PRIME_PCB_S_GET_TYPE T1PRIME_PCB_S_IFS_RESP) with true.
    cbv beta iota.
    change (PROTOCOL_RECEIVE_SUCCESS =? SUCCESS) with true. cbv beta iota.
    change (PROTOCOL_RECEIVE_SUCCESS =? PROTOCOL_TRANSCEIVE_SUCCESS) with true. cbn [negb].
    rewrite Hpcb'. change (T1PRIME_PCB_S_IFS_RESP =? T1PRIME_PCB_S_IFS_RESP) with true.
    cbn [negb].
    destruct (t1prime_ifs_decode (information rb) (information_size rb)) as [ifs|e];
      [|discriminate Hval].
    rewrite Hval. reflexivity.
  - intros -> -> Hbad.
    change (PROTOCOL_TRANSMIT_SUCCESS =? PROTOCOL_TRANSMIT_SUCCESS) with true. cbn [negb].
    rewrite Hrx.
    assert (Hrecv : forall (st1 : T1PrimeProtocolState) (w1 : World),
               (if negb (pcb rb =? T1PRIME_PCB_S_IFS_RESP)
                then (IFX_ERROR LIBT1PRIME PROTOCOL_RECEIVE INVALID_BLOCK, st1, w1)
                else
                  match t1prime_ifs_decode (information rb) (information_size rb) with
                  | Err _ => (IFX_ERROR LIBT1PRIME PROTOCOL_RECEIVE INVALID_BLOCK, st1, w1)
                  | Ok response_ifs =>
                      if negb (response_ifs =? n)
                      then (IFX_ERROR LIBT1PRIME PROTOCOL_RECEIVE INVALID_BLOCK, st1, w1)
                      else (PROTOCOL_SETPROPERTY_SUCCESS, st1, w1)
                  end)
               = (IFX_ERROR LIBT1PRIME PROTOCOL_RECEIVE INVALID_BLOCK, st1, w1)).
    { intros st1 w1. unfold ifs_response_for in Hbad.
      destruct (pcb rb =? T1PRIME_PCB_S_IFS_RESP); cbn [negb andb] in *; [|reflexivity].
      destruct (t1prime_ifs_decode (information rb) (information_size rb)) as [ifs|e];
        [|reflexivity].
      rewrite Hbad. reflexivity. }
    destruct (validate_s_request (clear_wtx_delay st0) (ifs_request encoded) rb eq_refl)
      as [Hv|[Hv|Hv]]; rewrite Hv; cbv beta iota.
    + change (PROTOCOL_RECEIVE_SUCCESS =? SUCCESS) with true. cbv beta iota.
      change (PROTOCOL_RECEIVE_SUCCESS =? PROTOCOL_TRANSCEIVE_SUCCESS) with true.
      cbn [negb].
      exists PROTOCOL_RECEIVE. split; [right; reflexivity|]. apply Hrecv.
    + change PROTOCOL_TRANSCEIVE_SUCCESS with SUCCESS.
      rewrite !IFX_ERROR_eqb_success. cbn [negb].
      exists PROTOCOL_TRANSCEIVE. split; [left; reflexivity|reflexivity].
    + change PROTOCOL_TRANSCEIVE_SUCCESS with SUCCESS.
      rewrite !IFX_ERROR_eqb_success. cbn [negb].
      exists PROTOCOL_TRANSCEIVE. split; [left; reflexivity|reflexivity].
Qed.

(** C7 (amended): [t1prime_ifs_encode] fails with ILLEGAL_ARGUMENT exactly for
    0 and for values above 0xFF9, gives the single byte [n] for [n] in
    [1, 0xFE] and the two bytes MSB(n), LSB(n) for [n] in [0xFF, 0xFF9];
    [t1prime_set_ifsd] succeeds only when the exchange ends with an
    S(IFS response) whose information decodes to the requested value.  What
    it returns is decided by the last round of the exchange, the first round
    that asks for no retry or else the third: the request is sent again in
    every round; when that round reads an S(IFS response) for the value the
    call succeeds, when it reads any other block the call answers
    INVALID_BLOCK, and when its transmission or its reception fails the call
    returns the error of that failure. *)
Theorem ifs_encode_and_set_ifsd (n : Z) (st : T1PrimeProtocolState) (w : World) :
  0 <= n ->
  (t1prime_ifs_encode n = Err (IFX_ERROR LIBT1PRIME PROTOCOL_SETPROPERTY ILLEGAL_ARGUMENT)
   <-> n = 0 \/ n > 0xff9)
  /\ (1 <= n <= 0xfe -> t1prime_ifs_encode n = Ok [n])
  /\ (0xff <= n <= 0xff9 -> t1prime_ifs_encode n = Ok [n / 256; n mod 256])
  /\ (forall st' w',
        t1prime_set_ifsd st n w = (PROTOCOL_SETPROPERTY_SUCCESS, st', w') ->
        exists encoded response,
          t1prime_ifs_encode n = Ok encoded
          /\ t1prime_block_transceive st (ifs_request encoded) w
             = (PROTOCOL_TRANSCEIVE_SUCCESS, response, st', w')
          /\ pcb response = T1PRIME_PCB_S_IFS_RESP
          /\ t1prime_ifs_decode (information response) (information_size response) = Ok n)
  /\ (forall encoded response st' w',
        t1prime_ifs_encode n = Ok encoded ->
        t1prime_block_transceive st (ifs_request encoded) w
        = (PROTOCOL_TRANSCEIVE_SUCCESS, response, st', w') ->
        pcb response <> T1PRIME_PCB_S_IFS_RESP
        \/ t1prime_ifs_decode (information response) (information_size response) <> Ok n ->
        t1prime_set_ifsd st n w
        = (IFX_ERROR LIBT1PRIME PROTOCOL_RECEIVE INVALID_BLOCK, st', w'))
  /\ (forall encoded to_send st0 w0 tstatus wt rstatus rb wr,
        t1prime_ifs_encode n = Ok encoded ->
        last_round T1PRIME_BLOCK_TRANSCEIVE_RETRIES
                   (ifs_request encoded) (ifs_request encoded) st w
        = (to_send, st0, w0) ->
        t1prime_block_transmit st0 to_send w0 = (tstatus, wt) ->
        t1prime_block_receive (clear_wtx_delay st0) wt = (rstatus, rb, wr) ->
        to_send = ifs_request encoded
        /\ same_session st st0
        /\ (tstatus <> PROTOCOL_TRANSMIT_SUCCESS ->
            t1prime_set_ifsd st n w = (tstatus, st0, wt))
        /\ (tstatus = PROTOCOL_TRANSMIT_SUCCESS -> rstatus <> PROTOCOL_RECEIVE_SUCCESS ->
            t1prime_set_ifsd st n w = (rstatus, clear_wtx_delay st0, wr))
        /\ (tstatus = PROTOCOL_TRANSMIT_SUCCESS -> rstatus = PROTOCOL_RECEIVE_SUCCESS ->
            ifs_response_for n rb = true ->
            t1prime_set_ifsd st n w
            = (PROTOCOL_SETPROPERTY_SUCCESS, clear_wtx_delay st0, wr))
        /\ (tstatus = PROTOCOL_TRANSMIT_SUCCESS -> rstatus = PROTOCOL_RECEIVE_SUCCESS ->
            ifs_response_for n rb = false ->
            exists fn,
              (fn = PROTOCOL_TRANSCEIVE \/ fn = PROTOCOL_RECEIVE)
              /\ t1prime_set_ifsd st n w
                 = (IFX_ERROR LIBT1PRIME fn INVALID_BLOCK, clear_wtx_delay st0, wr))).
Proof.
  intros Hn. split; [apply ifs_encode_illegal; exact Hn|].
  split; [apply ifs_encode_one_byte|].
  split; [apply ifs_encode_two_bytes|].
  split; [intros st' w'; apply set_ifsd_success|].
  split; [intros encoded response st' w'; apply set_ifsd_invalid_block|].
  intros encoded to_send st0 w0 tstatus wt rstatus rb wr. apply set_ifsd_last_round.
Qed.

(** The request for IFSD = 5 on a fresh session.  A card that answers with
    the I-block F1 F2 ends the exchange in the first round; a card that
    answers three times with S(RESYNCH response) makes the engine send the
    request three times.  Both calls return INVALID_BLOCK. *)
Lemma ifs_encode_and_set_ifsd_witness :
  0 <= 0x05
  /\ (exists fn,
        (fn = PROTOCOL_TRANSCEIVE \/ fn = PROTOCOL_RECEIVE)
        /\ t1prime_set_ifsd (snd (t1prime_get_protocol_state None)) 0x05
             (card_world (card_frames 0x00 [0xf1; 0xf2]))
           = (IFX_ERROR LIBT1PRIME fn INVALID_BLOCK,
              snd (t1prime_get_protocol_state None),
              mkWorld [] [] [host_block 0xc1 [0x05]] 1 [] []))
  /\ (exists fn,
        (fn = PROTOCOL_TRANSCEIVE \/ fn = PROTOCOL_RECEIVE)
        /\ t1prime_set_ifsd (snd (t1prime_get_protocol_state None)) 0x05
             (card_world (card_frames 0xe0 [] ++ card_frames 0xe0 []
                          ++ card_frames 0xe0 []))
           = (IFX_ERROR LIBT1PRIME fn INVALID_BLOCK,
              snd (t1prime_get_protocol_state None),
              mkWorld [] []
                [host_block 0xc1 [0x05]; host_block 0xc1 [0x05]; host_block 0xc1 [0x05]]
                1 [] [])).
Proof.
  split; [lia|]. split.
  - refine (proj2 (proj2 (proj2 (proj2 (proj2
              (proj2 (proj2 (proj2 (proj2 (proj2
                 (ifs_encode_and_set_ifsd 0x05 (snd (t1prime_get_protocol_state None))
                    (card_world (card_frames 0x00 [0xf1; 0xf2])) _)))))
                 [0x05] (ifs_request [0x05]) (snd (t1prime_get_protocol_state None))
                 (card_world (card_frames 0x00 [0xf1; 0xf2]))
                 PROTOCOL_TRANSMIT_SUCCESS
                 (mkWorld (card_frames 0x00 [0xf1; 0xf2]) [] [host_block 0xc1 [0x05]]
                          1 [] [])
                 PROTOCOL_RECEIVE_SUCCESS (mkBlock 0x12 0x00 2 [0xf1; 0xf2])
                 (mkWorld [] [] [host_block 0xc1 [0x05]] 1 [] [])
                 _ _ _ _)))))
              _ _ _);
      try reflexivity; try lia; vm_compute; reflexivity.
  - refine (proj2 (proj2 (proj2 (proj2 (proj2
              (proj2 (proj2 (proj2 (proj2 (proj2
                 (ifs_encode_and_set_ifsd 0x05 (snd (t1prime_get_protocol_state None))
                    (card_world (card_frames 0xe0 [] ++ card_frames 0xe0 []
                                 ++ card_frames 0xe0 [])) _)))))
                 [0x05] (ifs_request [0x05]) (snd (t1prime_get_protocol_state None))
                 (mkWorld (card_frames 0xe0 []) []
                          [host_block 0xc1 [0x05]; host_block 0xc1 [0x05]] 1 [] [])
                 PROTOCOL_TRANSMIT_SUCCESS
                 (mkWorld (card_frames 0xe0 []) []
                          [host_block 0xc1 [0x05]; host_block 0xc1 [0x05];
                           host_block 0xc1 [0x05]] 1 [] [])
                 PROTOCOL_RECEIVE_SUCCESS (mkBlock 0x12 0xe0 0 [])
                 (mkWorld [] []
                          [host_block 0xc1 [0x05]; host_block 0xc1 [0x05];
                           host_block 0xc1 [0x05]] 1 [] [])
                 _ _ _ _)))))
              _ _ _);
      try reflexivity; try lia; vm_compute; reflexivity.
Defined.

(** C7 as stated fails: a value above 0xFE is encoded in two bytes, not in
    three with a leading 0x00, and [t1prime_set_ifsd] accepts a response
    whose information differs from the request as long as it decodes to the
    same value. *)
Lemma ifs_encode_three_bytes_counterexample :
  t1prime_ifs_encode 0x0102 = Ok [0x01; 0x02]
  /\ t1prime_ifs_encode 0x0102 <> Ok [0x00; 0x01; 0x02]
  /\ t1prime_ifs_encode 0x05 = Ok [0x05]
  /\ fst (fst (t1prime_set_ifsd (snd (t1prime_get_protocol_state None)) 0x05
                 (card_world (card_frames 0xe1 [0x00; 0x05]))))
     = PROTOCOL_SETPROPERTY_SUCCESS.
Proof.
  split; [reflexivity|]. split; [discriminate|]. split; [reflexivity|].
  vm_compute. reflexivity.
Qed.

(** ** The loops of [t1prime_transceive] end *)

Lemma send_step_continue (data : list Z) (v v' : SendVars)
    (st st' : T1PrimeProtocolState) (w w' : World) :
  send_step data v st w = SendContinue v' st' w' ->
  (length (rx_script w') < length (rx_script w))%nat.
Proof.
  unfold send_step.
  destruct (t1prime_block_transceive st (transmission_block v) w)
    as [[[status response_block] st1] w1] eqn:Htr.
  destruct (block_transceive_spec _ _ _ _ _ _ _ Htr) as (_ & _ & _ & Hlt & _).
  destruct (status =? PROTOCOL_TRANSCEIVE_SUCCESS) eqn:Est; cbn [negb]; [|discriminate].
  apply Z.eqb_eq in Est. specialize (Hlt Est).
  destruct (t1prime_ifs_decode (information response_block)
                               (information_size response_block));
    repeat match goal with
           | |- context [if ?c then _ else _] => destruct c
           end;
    intros H; try discriminate H; injection H as _ _ <-; exact Hlt.
Qed.

Lemma send_loop_total (fuel : nat) :
  forall (data : list Z) (v : SendVars) (st : T1PrimeProtocolState) (w : World),
    (length (rx_script w) < fuel)%nat ->
    (exists status st' w', send_loop fuel data v st w = Some (SendReturn status st' w'))
    \/ (exists response_block st' w',
           send_loop fuel data v st w = Some (SendBreak response_block st' w')).
Proof.
  induction fuel as [|fuel IH]; intros data v st w Hfuel; [lia|].
  cbn [send_loop].
  destruct (send_step data v st w) as [status st' w'|rb st' w'|v' st' w'] eqn:Hstep.
  - left. eauto.
  - right. eauto.
  - apply send_step_continue in Hstep. apply IH. lia.
Qed.

Lemma recv_step_continue (response_block response_block' : Block)
    (response response' : option (list Z)) (st st' : T1PrimeProtocolState) (w w' : World) :
  recv_step response_block response st w = RecvContinue response_block' response' st' w' ->
  (length (rx_script w') < length (rx_script w))%nat.
Proof.
  unfold recv_step.
  destruct (T1PRIME_PCB_IS_I (pcb response_block)).
  - destruct (negb (T1PRIME_PCB_I_GET_NS (pcb response_block) =? receive_counter st));
      [discriminate|].
    match goal with
    | |- context [match ?m with Some _ => _ | None => _ end] => destruct m; [|discriminate]
    end.
    destruct (T1PRIME_PCB_I_HAS_MORE (pcb response_block)); [|discriminate].
    match goal with
    | |- context [t1prime_block_transceive ?s ?b ?x] =>
        destruct (t1prime_block_transceive s b x) as [[[status rb'] st1] w1] eqn:Htr
    end.
    destruct (block_transceive_spec _ _ _ _ _ _ _ Htr) as (_ & _ & _ & Hlt & _).
    destruct (status =? PROTOCOL_TRANSCEIVE_SUCCESS) eqn:Est; cbn [negb]; [|discriminate].
    apply Z.eqb_eq in Est. intros H. injection H as _ _ _ <-. exact (Hlt Est).
  - destruct (T1PRIME_PCB_IS_R (pcb response_block)).
    + match goal with
      | |- context [t1prime_block_transceive ?s ?b ?x] =>
          destruct (t1prime_block_transceive s b x) as [[[status rb'] st1] w1] eqn:Htr
      end.
      destruct (block_transceive_spec _ _ _ _ _ _ _ Htr) as (_ & _ & _ & Hlt & _).
      destruct (status =? PROTOCOL_TRANSCEIVE_SUCCESS) eqn:Est; cbn [negb]; [|discriminate].
      apply Z.eqb_eq in Est. intros H. injection H as _ _ _ <-. exact (Hlt Est).
    + destruct (pcb response_block =? T1PRIME_PCB_S_ABORT_REQ); [|discriminate].
      match goal with
      | |- context [t1prime_block_transceive ?s ?b ?x] =>
          destruct (t1prime_block_transceive s b x) as [[[status rb'] st1] w1]
      end.
      discriminate.
Qed.

Lemma recv_loop_total (fuel : nat) :
  forall (response_block : Block) (response : option (list Z))
         (st : T1PrimeProtocolState) (w : World),
    (length (rx_script w) < fuel)%nat ->
    exists r, recv_loop fuel response_block response st w = Some r.
Proof.
  induction fuel as [|fuel IH]; intros rb response st w Hfuel; [lia|].
  cbn [recv_loop].
  destruct (recv_step rb response st w) as [status r' st' w'|rb' r' st' w'] eqn:Hstep.
  - eauto.
  - apply recv_step_continue in Hstep. apply IH. lia.
Qed.

(** Every call of [t1prime_transceive] returns: the bound on the rounds of the
    model is never hit. *)
Lemma t1prime_transceive_total (st : T1PrimeProtocolState) (data : list Z) (w : World) :
  exists status response st' w',
    t1prime_transceive st data w = Some (status, response, st', w').
Proof.
  unfold t1prime_transceive, transceive_send.
  destruct (Z.of_nat (length data) =? 0); [eauto|].
  destruct (send_loop_total (loop_fuel w) data (send_init st data) st w)
    as [(status & st' & w' & ->)|(rb & st' & w' & ->)]; [unfold loop_fuel; lia|eauto|].
  destruct (recv_loop_total (loop_fuel w') rb None st' w') as [[[[status r] st2] w2] ->];
    [unfold loop_fuel; lia|eauto].
Qed.

(** ** The size bookkeeping of the first loop

    [remaining - last_information_size] is a difference of [size_t] values in
    the source.  It never wraps: the size of the block in flight is at most
    what remains to be sent, from the first block on. *)

Lemma size_min_le (a b : Z) : size_min a b <= a /\ size_min a b <= b.
Proof. unfold size_min. destruct (a <? b) eqn:E; [apply Z.ltb_lt in E|apply Z.ltb_ge in E]; lia. Qed.

Lemma send_init_sizes (st : T1PrimeProtocolState) (data : list Z) :
  last_information_size (send_init st data) <= remaining (send_init st data).
Proof. cbn [send_init last_information_size remaining]. apply size_min_le. Qed.

Lemma send_step_sizes (data : list Z) (v v' : SendVars)
    (st st' : T1PrimeProtocolState) (w w' : World) :
  last_information_size v <= remaining v ->
  send_step data v st w = SendContinue v' st' w' ->
  last_information_size v' <= remaining v'.
Proof.
  intros Hle. unfold send_step.
  destruct (t1prime_block_transceive st (transmission_block v) w)
    as [[[status response_block] st1] w1].
  pose proof (size_min_le (remaining v - last_information_size v) (ifsc st1)) as Hnext.
  destruct (t1prime_ifs_decode (information response_block)
                               (information_size response_block)) as [ifs|e];
    try pose proof (size_min_le ifs (last_information_size v)) as Hifs;
    repeat match goal with
           | |- context [if ?c then _ else _] => destruct c
           end;
    intros H; try discriminate H; injection H as <- _ _;
    cbn [last_information_size remaining ifsc set_send_counter]; lia.
Qed.

(** ** S(ABORT request) in the outgoing chain *)

Lemma pcb_classes_all : forallb pcb_classes_ok (zrange 0 256) = true.
Proof. vm_compute. reflexivity. Qed.

Lemma pcb_is_r_not_i (p : Z) : T1PRIME_PCB_IS_R p = true -> T1PRIME_PCB_IS_I p = false.
Proof.
  assert (Hv : In (T1PRIME_PCB p) (zrange 0 256)).
  { apply in_zrange. unfold T1PRIME_PCB. change 0xff with (Z.ones 8).
    rewrite Z.land_ones by lia. pose proof (Z.mod_pos_bound p (2 ^ 8)). lia. }
  pose proof (proj1 (forallb_forall _ _) pcb_classes_all _ Hv) as H.
  unfold pcb_classes_ok in H. apply andb_true_iff in H. destruct H as [H _].
  assert (Hidem : T1PRIME_PCB (T1PRIME_PCB p) = T1PRIME_PCB p).
  { unfold T1PRIME_PCB. rewrite <- Z.land_assoc. reflexivity. }
  unfold T1PRIME_PCB_IS_R, T1PRIME_PCB_IS_I in *. rewrite Hidem in H.
  intros Hr. rewrite Hr in H. cbn [implb] in H. apply negb_true_iff in H. exact H.
Qed.



(** What follows an abort of a chained request *)

Lemma ifs_decode_error (data : list Z) (data_len e : Z) :
  t1prime_ifs_decode data data_len = Err e ->
  e = IFX_ERROR LIBT1PRIME T1PRIME_IFS_DECODE ILLEGAL_ARGUMENT.
Proof.
  unfold t1prime_ifs_decode.
  repeat match goal with
         | |- context [if ?c then _ else _] => destruct c
         end; intros H; try discriminate H; injection H as <-; reflexivity.
Qed.








(** ** An R-block with the wrong N(R) in the response chain *)

(** Whatever the accumulator holds, an R-block whose N(R) is not the send
    counter makes the second loop drop the accumulator and go on: it sends
    R(N(R) = receive counter) and waits for the next block. *)
Lemma recv_step_wrong_nr (rb : Block) (response : option (list Z))
    (st : T1PrimeProtocolState) (w : World) :
  T1PRIME_PCB_IS_R (pcb rb) = true ->
  T1PRIME_PCB_R_GET_NR (pcb rb) <> send_counter st ->
  recv_step rb response st w
  = let '(status, rb', st', w') :=
      t1prime_block_transceive
        st (mkBlock 0x21 (T1PRIME_PCB_R_ACK (receive_counter st)) 0 []) w in
    if negb (status =? PROTOCOL_TRANSCEIVE_SUCCESS)
    then RecvReturn status None st' w'
    else RecvContinue rb' None st' w'.
Proof.
  intros Hr Hnr. unfold recv_step.
  rewrite (pcb_is_r_not_i _ Hr), Hr.
  replace (T1PRIME_PCB_R_GET_NR (pcb rb) =? send_counter st) with false
    by (symmetry; apply Z.eqb_neq; exact Hnr).
  reflexivity.
Qed.



(** ** Zero-length I-blocks in the response chain *)

Lemma recv_step_first_block_empty (rb : Block) (st : T1PrimeProtocolState) (w : World) :
  T1PRIME_PCB_IS_I (pcb rb) = true ->
  information_size rb = 0 ->
  recv_step rb None st w
  = RecvReturn (IFX_ERROR LIBT1PRIME PROTOCOL_TRANSCEIVE INVALID_BLOCK) None st w.
Proof.
  intros Hi Hsize. unfold recv_step. rewrite Hi, Hsize.
  destruct (negb (T1PRIME_PCB_I_GET_NS (pcb rb) =? receive_counter st)); reflexivity.
Qed.

Lemma recv_step_accumulator (rb rb' : Block) (st st' : T1PrimeProtocolState)
    (w w' : World) (buffer : list Z) :
  recv_step rb None st w = RecvContinue rb' (Some buffer) st' w'
  \/ recv_step rb None st w = RecvReturn PROTOCOL_TRANSCEIVE_SUCCESS (Some buffer) st' w' ->
  T1PRIME_PCB_IS_I (pcb rb) = true
  /\ information_size rb <> 0
  /\ buffer = information rb.
Proof.
  unfold recv_step.
  destruct (T1PRIME_PCB_IS_I (pcb rb)).
  - destruct (negb (T1PRIME_PCB_I_GET_NS (pcb rb) =? receive_counter st));
      [intros [H|H]; discriminate H|].
    destruct (information_size rb =? 0) eqn:Hsize;
      [intros [H|H]; discriminate H|].
    apply Z.eqb_neq in Hsize.
    destruct (T1PRIME_PCB_I_HAS_MORE (pcb rb)).
    + match goal with
      | |- context [t1prime_block_transceive ?s ?b ?x] =>
          destruct (t1prime_block_transceive s b x) as [[[status rb1] st1] w1]
      end.
      destruct (negb (status =? PROTOCOL_TRANSCEIVE_SUCCESS));
        intros [H|H]; try discriminate H; injection H as _ <- _ _; auto.
    + intros [H|H]; try discriminate H. injection H as <- _ _. auto.
  - destruct (T1PRIME_PCB_IS_R (pcb rb)).
    + destruct (negb (T1PRIME_PCB_R_GET_NR (pcb rb) =? send_counter st));
        match goal with
        | |- context [t1prime_block_transceive ?s ?b ?x] =>
            destruct (t1prime_block_transceive s b x) as [[[status rb1] st1] w1]
        end;
        destruct (negb (status =? PROTOCOL_TRANSCEIVE_SUCCESS));
        intros [H|H]; discriminate H.
    + destruct (pcb rb =? T1PRIME_PCB_S_ABORT_REQ).
      * match goal with
        | |- context [t1prime_block_transceive ?s ?b ?x] =>
            destruct (t1prime_block_transceive s b x) as [[[status rb1] st1] w1]
        end.
        intros [H|H]; discriminate H.
      * intros [H|H]; discriminate H.
Qed.

(** C10: a zero-length I-block that opens the response chain makes the call
    fail with INVALID_BLOCK; with an accumulator present and the expected
    N(S) it is accepted, toggles the receive counter and leaves the
    accumulator as it is; and the accumulator only comes into being with an
    I-block that carries information. *)
Theorem zero_length_response_block (rb : Block) (st : T1PrimeProtocolState) (w : World) :
  T1PRIME_PCB_IS_I (pcb rb) = true ->
  information_size rb = 0 ->
  recv_step rb None st w
  = RecvReturn (IFX_ERROR LIBT1PRIME PROTOCOL_TRANSCEIVE INVALID_BLOCK) None st w
  /\ (forall data st0 w0,
        data <> [] ->
        transceive_send st0 data w0 = Some (SendBreak rb st w) ->
        t1prime_transceive st0 data w0
        = Some (IFX_ERROR LIBT1PRIME PROTOCOL_TRANSCEIVE INVALID_BLOCK, None, st, w))
  /\ (forall buffer,
        T1PRIME_PCB_I_GET_NS (pcb rb) = receive_counter st ->
        (T1PRIME_PCB_I_HAS_MORE (pcb rb) = false ->
         recv_step rb (Some buffer) st w
         = RecvReturn PROTOCOL_TRANSCEIVE_SUCCESS (Some buffer)
             (set_receive_counter (Z.lxor (receive_counter st) 0x01) st) w)
        /\ (T1PRIME_PCB_I_HAS_MORE (pcb rb) = true ->
            forall rb' st' w',
              t1prime_block_transceive
                (set_receive_counter (Z.lxor (receive_counter st) 0x01) st)
                (mkBlock 0x21 (T1PRIME_PCB_R_ACK (Z.lxor (receive_counter st) 0x01)) 0 [])
                w
              = (PROTOCOL_TRANSCEIVE_SUCCESS, rb', st', w') ->
              recv_step rb (Some buffer) st w = RecvContinue rb' (Some buffer) st' w'))
  /\ (forall rb0 rb' st' w' buffer,
        recv_step rb0 None st w = RecvContinue rb' (Some buffer) st' w'
        \/ recv_step rb0 None st w
           = RecvReturn PROTOCOL_TRANSCEIVE_SUCCESS (Some buffer) st' w' ->
        T1PRIME_PCB_IS_I (pcb rb0) = true
        /\ information_size rb0 <> 0
        /\ buffer = information rb0).
Proof.
  intros Hi Hsize.
  pose proof (recv_step_first_block_empty rb st w Hi Hsize) as Hfirst.
  split; [exact Hfirst|]. split; [|split].
  - intros data st0 w0 Hdata Hsend. unfold t1prime_transceive.
    replace (Z.of_nat (length data) =? 0) with false
      by (symmetry; apply Z.eqb_neq; destruct data; [contradiction|cbn [length]; lia]).
    rewrite Hsend. unfold loop_fuel. cbn [recv_loop]. rewrite Hfirst. reflexivity.
  - intros buffer Hns. unfold recv_step. rewrite Hi, Hns, Z.eqb_refl, Hsize.
    cbn [negb Z.ltb Z.compare]. split.
    + intros ->. reflexivity.
    + intros -> rb' st' w' Htr.
      cbn [receive_counter set_receive_counter] in *. rewrite Htr. reflexivity.
  - intros rb0 rb' st' w' buffer. apply recv_step_accumulator.
Qed.

Lemma zero_length_response_block_witness :
  T1PRIME_PCB_IS_I (pcb (mkBlock 0x12 0x00 0 [])) = true
  /\ information_size (mkBlock 0x12 0x00 0 []) = 0
  /\ t1prime_transceive (snd (t1prime_get_protocol_state None)) [0x01; 0x02]
       (card_world (card_frames 0x00 []))
     = Some (IFX_ERROR LIBT1PRIME PROTOCOL_TRANSCEIVE INVALID_BLOCK, None,
             mkState 300 10 0xff9 1 0 0,
             mkWorld [] [] [host_block 0x00 [0x01; 0x02]] 1 [] []).
Proof.
  split; [reflexivity|]. split; [reflexivity|].
  apply (proj1 (proj2 (zero_length_response_block (mkBlock 0x12 0x00 0 [])
                         (mkState 300 10 0xff9 1 0 0)
                         (mkWorld [] [] [host_block 0x00 [0x01; 0x02]] 1 [] [])
                         eq_refl eq_refl))).
  - discriminate.
  - vm_compute. reflexivity.
Defined.

(** ** The link parameters outside activation

    Only [t1prime_activate] and [t1prime_set_bwt] write BWT, MPOT or IFSC:
    the block exchange, the supervisory exchanges and [t1prime_transceive]
    hand the link parameters back as they got them. *)

Lemma same_link_refl (st : T1PrimeProtocolState) : same_link st st.
Proof. unfold same_link. auto. Qed.

Lemma same_link_trans (st1 st2 st3 : T1PrimeProtocolState) :
  same_link st1 st2 -> same_link st2 st3 -> same_link st1 st3.
Proof.
  unfold same_link. intros (? & ? & ?) (? & ? & ?). repeat split; congruence.
Qed.

Lemma same_session_link (st st' : T1PrimeProtocolState) :
  same_session st st' -> same_link st st'.
Proof. unfold same_session, same_link. tauto. Qed.

Lemma block_transceive_link (st : T1PrimeProtocolState) (b : Block) (w : World)
    (status : Z) (response : Block) (st' : T1PrimeProtocolState) (w' : World) :
  t1prime_block_transceive st b w = (status, response, st', w') -> same_link st st'.
Proof.
  intros H. apply same_session_link.
  exact (proj1 (block_transceive_spec _ _ _ _ _ _ _ H)).
Qed.

Lemma s_resynch_link (st : T1PrimeProtocolState) (w : World) :
  same_link st (snd (fst (s_resynch st w))).
Proof.
  unfold s_resynch.
  destruct (t1prime_block_transceive st _ w) as [[[status response] st1] w1] eqn:Htr.
  apply block_transceive_link in Htr.
  repeat match goal with
         | |- context [if ?c then _ else _] => destruct c
         end; cbn [fst snd]; exact Htr.
Qed.

Lemma s_swr_link (st : T1PrimeProtocolState) (w : World) :
  same_link st (snd (fst (s_swr st w))).
Proof.
  unfold s_swr.
  destruct (t1prime_block_transceive st _ w) as [[[status response] st1] w1] eqn:Htr.
  apply block_transceive_link in Htr.
  repeat match goal with
         | |- context [if ?c then _ else _] => destruct c
         end; cbn [fst snd]; exact Htr.
Qed.

Lemma set_ifsd_link (st : T1PrimeProtocolState) (ifsd : Z) (w : World) :
  same_link st (snd (fst (t1prime_set_ifsd st ifsd w))).
Proof.
  unfold t1prime_set_ifsd.
  destruct (t1prime_ifs_encode ifsd) as [encoded|e]; [|apply same_link_refl].
  destruct (t1prime_block_transceive st _ w) as [[[status response] st1] w1] eqn:Htr.
  apply block_transceive_link in Htr.
  destruct (t1prime_ifs_decode (information response) (information_size response));
    repeat match goal with
           | |- context [if ?c then _ else _] => destruct c
           end; cbn [fst snd]; exact Htr.
Qed.

Lemma send_step_link (data : list Z) (v : SendVars) (st : T1PrimeProtocolState)
    (w : World) :
  match send_step data v st w with
  | SendReturn _ st' _ | SendBreak _ st' _ | SendContinue _ st' _ => same_link st st'
  end.
Proof.
  unfold send_step.
  destruct (t1prime_block_transceive st (transmission_block v) w)
    as [[[status response_block] st1] w1] eqn:Htr.
  apply block_transceive_link in Htr.
  destruct (t1prime_ifs_decode (information response_block)
                               (information_size response_block));
    repeat match goal with
           | |- context [if ?c then _ else _] => destruct c
           end;
    cbv beta iota;
    first [ exact Htr
          | eapply same_link_trans; [exact Htr|]; unfold same_link; cbn; auto ].
Qed.

Lemma send_loop_link (fuel : nat) :
  forall (data : list Z) (v : SendVars) (st : T1PrimeProtocolState) (w : World),
    match send_loop fuel data v st w with
    | Some (SendReturn _ st' _) | Some (SendBreak _ st' _)
    | Some (SendContinue _ st' _) => same_link st st'
    | None => True
    end.
Proof.
  induction fuel as [|fuel IH]; intros data v st w; cbn [send_loop]; [exact I|].
  pose proof (send_step_link data v st w) as Hstep.
  destruct (send_step data v st w) as [status st' w'|rb st' w'|v' st' w'];
    try exact Hstep.
  specialize (IH data v' st' w').
  destruct (send_loop fuel data v' st' w') as [[? st2 ?|? st2 ?|? st2 ?]|];
    cbv beta iota in *; try exact I; eapply same_link_trans; eassumption.
Qed.

Lemma recv_step_link (rb : Block) (response : option (list Z))
    (st : T1PrimeProtocolState) (w : World) :
  match recv_step rb response st w with
  | RecvReturn _ _ st' _ | RecvContinue _ _ st' _ => same_link st st'
  end.
Proof.
  assert (Htoggle : same_link st (set_receive_counter (Z.lxor (receive_counter st) 0x01) st))
    by (unfold same_link; cbn; auto).
  unfold recv_step.
  destruct (T1PRIME_PCB_IS_I (pcb rb)).
  - destruct (negb (T1PRIME_PCB_I_GET_NS (pcb rb) =? receive_counter st));
      [apply same_link_refl|].
    match goal with
    | |- context [match ?m with Some _ => _ | None => _ end] =>
        destruct m; [|apply same_link_refl]
    end.
    destruct (T1PRIME_PCB_I_HAS_MORE (pcb rb)); [|exact Htoggle].
    match goal with
    | |- context [t1prime_block_transceive ?s ?b ?x] =>
        destruct (t1prime_block_transceive s b x) as [[[status rb'] st1] w1] eqn:Htr
    end.
    apply block_transceive_link in Htr.
    destruct (negb (status =? PROTOCOL_TRANSCEIVE_SUCCESS)); exact Htr.
  - destruct (T1PRIME_PCB_IS_R (pcb rb)).
    + match goal with
      | |- context [t1prime_block_transceive ?s ?b ?x] =>
          destruct (t1prime_block_transceive s b x) as [[[status rb'] st1] w1] eqn:Htr
      end.
      apply block_transceive_link in Htr.
      destruct (negb (status =? PROTOCOL_TRANSCEIVE_SUCCESS)); exact Htr.
    + destruct (pcb rb =? T1PRIME_PCB_S_ABORT_REQ); [|apply same_link_refl].
      match goal with
      | |- context [t1prime_block_transceive ?s ?b ?x] =>
          destruct (t1prime_block_transceive s b x) as [[[status rb'] st1] w1] eqn:Htr
      end.
      apply block_transceive_link in Htr. exact Htr.
Qed.

Lemma recv_loop_link (fuel : nat) :
  forall (rb : Block) (response : option (list Z)) (st : T1PrimeProtocolState) (w : World),
    match recv_loop fuel rb response st w with
    | Some (_, _, st', _) => same_link st st'
    | None => True
    end.
Proof.
  induction fuel as [|fuel IH]; intros rb response st w; cbn [recv_loop]; [exact I|].
  pose proof (recv_step_link rb response st w) as Hstep.
  destruct (recv_step rb response st w) as [status r' st' w'|rb' r' st' w'];
    [exact Hstep|].
  specialize (IH rb' r' st' w').
  destruct (recv_loop fuel rb' r' st' w') as [[[[? ?] st2] ?]|]; [|exact I].
  cbv beta iota in *. eapply same_link_trans; eassumption.
Qed.

(** [t1prime_transceive] returns the session with the IFSC, BWT and MPOT it
    was called with, whatever the card sends. *)
Lemma transceive_link (st : T1PrimeProtocolState) (data : list Z) (w : World)
    (status : Z) (response : option (list Z)) (st' : T1PrimeProtocolState) (w' : World) :
  t1prime_transceive st data w = Some (status, response, st', w') -> same_link st st'.
Proof.
  unfold t1prime_transceive, transceive_send.
  destruct (Z.of_nat (length data) =? 0).
  { intros H. injection H as _ _ <- _. apply same_link_refl. }
  pose proof (send_loop_link (loop_fuel w) data (send_init st data) st w) as Hsend.
  destruct (send_loop (loop_fuel w) data (send_init st data) st w)
    as [[s1 st1 w1|rb st1 w1|v1 st1 w1]|]; try discriminate.
  - intros H. injection H as _ _ <- _. exact Hsend.
  - pose proof (recv_loop_link (loop_fuel w1) rb None st1 w1) as Hrecv.
    intros H. rewrite H in Hrecv. eapply same_link_trans; eassumption.
Qed.

Lemma s_cip_link (st : T1PrimeProtocolState) (w : World) :
  same_link st (snd (fst (s_cip st w))).
Proof.
  unfold s_cip.
  destruct (t1prime_block_transceive st _ w) as [[[status response] st1] w1] eqn:Htr.
  apply block_transceive_link in Htr.
  destruct (t1prime_cip_decode (information response) (information_size response));
    repeat match goal with
           | |- context [if ?c then _ else _] => destruct c
           end; cbn [fst snd]; exact Htr.
Qed.

Lemma to_uint16_range (v : Z) : 0 <= to_uint16 v < 65536.
Proof.
  unfold to_uint16. change 0xffff with (Z.ones 16). rewrite Z.land_ones by lia.
  apply Z.mod_pos_bound. reflexivity.
Qed.

(** Activation leaves the IFSC at the default 8 or at the 16-bit value of the
    DLLP, whatever that is: nothing bounds it by [T1PRIME_MAX_IFS]. *)
Lemma activate_ifsc_range (st : T1PrimeProtocolState) (w : World) :
  0 <= ifsc (snd (fst (t1prime_activate st w))) < 65536.
Proof.
  unfold t1prime_activate.
  destruct (i2c_set_clock_frequency T1PRIME_DEFAULT_I2C_CLOCK_FREQUENCY w) as [status0 w0].
  destruct (negb (status0 =? PROTOCOL_SETPROPERTY_SUCCESS));
    [cbn [fst snd ifsc set_bwt set_ifsc]; unfold T1PRIME_DEFAULT_IFSC; lia|].
  pose proof (s_cip_link (set_bwt T1PRIME_DEFAULT_BWT (set_ifsc T1PRIME_DEFAULT_IFSC st)) w0)
    as Hcip.
  destruct (s_cip (set_bwt T1PRIME_DEFAULT_BWT (set_ifsc T1PRIME_DEFAULT_IFSC st)) w0)
    as [[[status1 cip] st1] w1].
  cbn [fst snd] in Hcip. destruct Hcip as (_ & _ & Hifsc).
  cbn [ifsc set_bwt set_ifsc] in Hifsc. unfold T1PRIME_DEFAULT_IFSC in Hifsc.
  destruct cip as [cip|]; [|cbn [fst snd]; rewrite Hifsc; lia].
  unfold t1prime_dllp_decode.
  destruct (dllp_len cip <? 2 + 2); [cbn [fst snd]; rewrite Hifsc; lia|].
  cbn [dllp_ifsc dllp_bwt].
  set (v := to_uint16 (Z.lor (Z.shiftl (byte_at (dllp cip) 2) 8) (byte_at (dllp cip) 3))).
  pose proof (to_uint16_range
                (Z.lor (Z.shiftl (byte_at (dllp cip) 2) 8) (byte_at (dllp cip) 3))) as Hv.
  fold v in Hv.
  destruct (plid cip =? PLID_I2C).
  - destruct (t1prime_i2c_plp_decode (plp cip) (plp_len cip)) as [plp0|e];
      [|cbn [fst snd ifsc set_ifsc]; exact Hv].
    match goal with
    | |- context [i2c_set_clock_frequency ?f ?x] =>
        destruct (i2c_set_clock_frequency f x) as [status2 w2]
    end.
    destruct (negb (status2 =? PROTOCOL_SETPROPERTY_SUCCESS));
      [cbn [fst snd ifsc set_ifsc]; exact Hv|].
    match goal with
    | |- context [s_resynch ?s ?x] => destruct (s_resynch_link s x) as (_ & _ & Hre)
    end.
    rewrite Hre. cbn [ifsc set_mpot set_ifsc]. exact Hv.
  - destruct (plid cip =? PLID_SPI); cbn [fst snd ifsc set_ifsc]; exact Hv.
Qed.

(** ** Session state: construction and activation *)

(** C9 at its failing input, the first call of [t1prime_get_protocol_state]
    on a stack without a session state: the state it creates holds BWT =
    [T1PRIME_DEFAULT_BWT] = 300 ms, the default MPOT, both counters 0 and no
    pending WTX delay, but IFSC = [T1PRIME_MAX_IFS] = 0xFF9 and not
    [T1PRIME_DEFAULT_IFSC] = 8, the value that activation installs; the
    state is handed out unchanged from then on. *)
Theorem fresh_protocol_state :
  t1prime_get_protocol_state None
  = (PROTOCOL_GETPROPERTY_SUCCESS,
     {| bwt := T1PRIME_DEFAULT_BWT; mpot := T1PRIME_DEFAULT_I2C_MPOT;
        ifsc := T1PRIME_MAX_IFS; send_counter := 0; receive_counter := 0;
        wtx_delay := 0 |})
  /\ T1PRIME_DEFAULT_BWT = 300
  /\ T1PRIME_MAX_IFS = 0xff9
  /\ T1PRIME_DEFAULT_IFSC = 8
  /\ ifsc (snd (t1prime_get_protocol_state None)) <> T1PRIME_DEFAULT_IFSC
  /\ (forall st, t1prime_get_protocol_state (Some st) = (PROTOCOL_GETPROPERTY_SUCCESS, st))
  /\ (let '(_, st', _) :=
        t1prime_activate (snd (t1prime_get_protocol_state None)) (card_world []) in
      ifsc st' = T1PRIME_DEFAULT_IFSC /\ bwt st' = T1PRIME_DEFAULT_BWT).
Proof.
  split; [reflexivity|]. split; [reflexivity|]. split; [reflexivity|].
  split; [reflexivity|]. split; [discriminate|]. split; [reflexivity|].
  vm_compute. split; reflexivity.
Qed.

(** C1 at its failing input: the card advertises IFSC = 0xFFFF in the DLLP
    of its CIP; activation succeeds and leaves the session with
    IFSC = 0xFFFF, above [T1PRIME_MAX_IFS].  The same happens with 0x0FFA,
    the first value above the maximum. *)
Theorem activate_adopts_ifsc_above_max :
  t1prime_activate (snd (t1prime_get_protocol_state None))
    (card_world (card_frames 0xe4 (cip_with_ifsc 0xff 0xff) ++ card_frames 0xe0 []))
  = (PROTOCOL_ACTIVATE_SUCCESS,
     {| bwt := 0x80; mpot := 0x0a; ifsc := 0xffff; send_counter := 0;
        receive_counter := 0; wtx_delay := 0 |},
     mkWorld [] [] [host_block 0xc4 []; host_block 0xc0 []] 1 [] [400000; 400000])
  /\ T1PRIME_MAX_IFS < 0xffff
  /\ t1prime_activate (snd (t1prime_get_protocol_state None))
       (card_world (card_frames 0xe4 (cip_with_ifsc 0x0f 0xfa) ++ card_frames 0xe0 []))
     = (PROTOCOL_ACTIVATE_SUCCESS,
        {| bwt := 0x80; mpot := 0x0a; ifsc := 0x0ffa; send_counter := 0;
           receive_counter := 0; wtx_delay := 0 |},
        mkWorld [] [] [host_block 0xc4 []; host_block 0xc0 []] 1 [] [400000; 400000])
  /\ T1PRIME_MAX_IFS < 0x0ffa.
Proof.
  split; [vm_compute; reflexivity|]. split; [reflexivity|].
  split; [vm_compute; reflexivity|reflexivity].
Qed.

(** ** Transceive at the failing inputs of C5 and C6 *)

(** C5 at its failing input (scenario "mid-stream IFS shrink"): six request
    bytes, IFSC = 6.  The card answers the I-block with S(IFS request) 02,
    asks for the block again with R(0), acknowledges with R(1) and answers
    with I(0,0) F5 F6.  The engine echoes the IFS and re-sends two bytes, but
    then sends the remaining four bytes in one I-block, and the session IFSC
    is still 6 after the call. *)
Theorem ifs_request_not_adopted :
  t1prime_transceive (state_with_ifsc 6) [0x01; 0x02; 0x03; 0x04; 0x05; 0x06]
    (card_world (card_frames 0xc1 [0x02] ++ card_frames 0x80 [] ++ card_frames 0x90 []
                 ++ card_frames 0x00 [0xf5; 0xf6]))
  = Some (PROTOCOL_TRANSCEIVE_SUCCESS, Some [0xf5; 0xf6],
          {| bwt := 300; mpot := 10; ifsc := 6; send_counter := 0;
             receive_counter := 1; wtx_delay := 0 |},
          mkWorld [] []
            [host_block 0x00 [0x01; 0x02; 0x03; 0x04; 0x05; 0x06];
             host_block 0xe1 [0x02];
             host_block 0x20 [0x01; 0x02];
             host_block 0x40 [0x03; 0x04; 0x05; 0x06]] 1 [] [])
  /\ t1prime_ifs_decode [0x02] 1 = Ok 2.
Proof. split; [vm_compute; reflexivity|reflexivity]. Qed.

(** C6 at its failing input: the card answers with I(0,1) F1 F2, then with
    R(0) although the send counter is 1, then with I(1,0) F3 F4.  The engine
    drops what it had accumulated, sends R(1) again, goes on with the chain
    and returns success with F3 F4 only. *)
Theorem wrong_nr_in_receive_chain_continues :
  t1prime_transceive (snd (t1prime_get_protocol_state None)) [0x01; 0x02]
    (card_world (card_frames 0x20 [0xf1; 0xf2] ++ card_frames 0x80 []
                 ++ card_frames 0x40 [0xf3; 0xf4]))
  = Some (PROTOCOL_TRANSCEIVE_SUCCESS, Some [0xf3; 0xf4],
          {| bwt := 300; mpot := 10; ifsc := 0xff9; send_counter := 1;
             receive_counter := 0; wtx_delay := 0 |},
          mkWorld [] []
            [host_block 0x00 [0x01; 0x02]; host_block 0x90 []; host_block 0x90 []]
            1 [] [])
  /\ T1PRIME_PCB_R_GET_NR 0x80 <> 1.
Proof. split; [vm_compute; reflexivity|discriminate]. Qed.

(** ** Scenarios of t1prime-protocol-tests.cpp replayed on the model *)

Example scenario_1 :
  t1prime_transceive (snd (t1prime_get_protocol_state None)) [0x01; 0x02]
    (card_world (card_frames 0x00 [0xf1; 0xf2]))
  = Some (PROTOCOL_TRANSCEIVE_SUCCESS, Some [0xf1; 0xf2],
          mkState 300 10 0xff9 1 1 0,
          mkWorld [] [] [host_block 0x00 [0x01; 0x02]] 1 [] []).
Proof. vm_compute. reflexivity. Qed.

Example scenario_5 :
  t1prime_transceive (state_with_ifsc 2) [0x01; 0x02; 0x03; 0x04; 0x05; 0x06]
    (card_world (card_frames 0x90 [] ++ card_frames 0x80 []
                 ++ card_frames 0x00 [0xf1; 0xf2]))
  = Some (PROTOCOL_TRANSCEIVE_SUCCESS, Some [0xf1; 0xf2],
          mkState 300 10 2 1 1 0,
          mkWorld [] []
            [host_block 0x20 [0x01; 0x02]; host_block 0x60 [0x03; 0x04];
             host_block 0x00 [0x05; 0x06]] 1 [] []).
Proof. vm_compute. reflexivity. Qed.

Example scenario_27 :
  t1prime_transceive (state_with_ifsc 2) [0x01; 0x02; 0x03; 0x04; 0x05; 0x06]
    (card_world (card_frames 0x90 [] ++ card_frames 0xc2 [] ++ card_frames 0x80 []))
  = Some (IFX_ERROR LIBT1PRIME PROTOCOL_TRANSCEIVE TRANSCEIVE_ABORTED, None,
          mkState 300 10 2 1 0 0,
          mkWorld [] []
            [host_block 0x20 [0x01; 0x02]; host_block 0x60 [0x03; 0x04];
             host_block 0xe2 []] 1 [] []).
Proof. vm_compute. reflexivity. Qed.

Example scenario_24 :
  t1prime_transceive (state_with_ifsc 2) [0x01; 0x02]
    (card_world (card_frames 0x20 [0xf1; 0xf2]
                 ++ [(0, [0x12]); (0, [0x91; 0x00; 0x00]); (0, [0x00; 0x00])]
                 ++ card_frames 0x40 [0xf3; 0xf4]))
  = Some (PROTOCOL_TRANSCEIVE_SUCCESS, Some [0xf1; 0xf2; 0xf3; 0xf4],
          mkState 300 10 2 1 0 0,
          mkWorld [] []
            [host_block 0x00 [0x01; 0x02]; host_block 0x90 []; host_block 0x91 []] 1 [] []).
Proof. vm_compute. reflexivity. Qed.

Example invalid_resynch_wrong_response_block :
  s_resynch (snd (t1prime_get_protocol_state None))
    (card_world (card_frames 0xe1 [] ++ card_frames 0xe1 [] ++ card_frames 0xe1 []))
  = (IFX_ERROR LIBT1PRIME PROTOCOL_TRANSCEIVE INVALID_BLOCK,
     mkState 300 10 0xff9 0 0 0,
     mkWorld [] [] [host_block 0xc0 []; host_block 0xc0 []; host_block 0xc0 []] 1 [] []).
Proof. vm_compute. reflexivity. Qed.

Example scenario_2 :
  t1prime_transceive (snd (t1prime_get_protocol_state None)) [0x01; 0x02]
    (card_world (card_frames 0xc3 [0x10] ++ card_frames 0x00 [0xf1; 0xf2]))
  = Some (PROTOCOL_TRANSCEIVE_SUCCESS, Some [0xf1; 0xf2],
          mkState 300 10 0xff9 1 1 0,
          mkWorld [] [] [host_block 0x00 [0x01; 0x02]; host_block 0xe3 [0x10]] 1 [] []).
Proof. vm_compute. reflexivity. Qed.

Example scenario_7_first_call :
  t1prime_transceive (snd (t1prime_get_protocol_state None)) [0x01; 0x02]
    (card_world (card_frames 0x20 [0xf1; 0xf2] ++ card_frames 0x40 []))
  = Some (PROTOCOL_TRANSCEIVE_SUCCESS, Some [0xf1; 0xf2],
          mkState 300 10 0xff9 1 0 0,
          mkWorld [] [] [host_block 0x00 [0x01; 0x02]; host_block 0x90 []] 1 [] []).
Proof. vm_compute. reflexivity. Qed.

Example scenario_26 :
  t1prime_transceive (snd (t1prime_get_protocol_state None)) [0x01; 0x02]
    (card_world (card_frames 0x20 [0xf1; 0xf2] ++ card_frames 0xc2 []
                 ++ card_frames 0x90 []))
  = Some (IFX_ERROR LIBT1PRIME PROTOCOL_TRANSCEIVE TRANSCEIVE_ABORTED, None,
          mkState 300 10 0xff9 1 1 0,
          mkWorld [] []
            [host_block 0x00 [0x01; 0x02]; host_block 0x90 []; host_block 0xe2 []]
            1 [] []).
Proof. vm_compute. reflexivity. Qed.

Example set_ifsd_value_above_fe :
  t1prime_set_ifsd (snd (t1prime_get_protocol_state None)) 0x0102
    (card_world (card_frames 0xe1 [0x01; 0x02]))
  = (PROTOCOL_SETPROPERTY_SUCCESS, mkState 300 10 0xff9 0 0 0,
     mkWorld [] [] [host_block 0xc1 [0x01; 0x02]] 1 [] []).
Proof. vm_compute. reflexivity. Qed.

Example set_ifsd_response_mismatch :
  t1prime_set_ifsd (snd (t1prime_get_protocol_state None)) 0x01
    (card_world (card_frames 0xe1 [0x02]))
  = (IFX_ERROR LIBT1PRIME PROTOCOL_RECEIVE INVALID_BLOCK, mkState 300 10 0xff9 0 0 0,
     mkWorld [] [] [host_block 0xc1 [0x01]] 1 [] []).
Proof. vm_compute. reflexivity. Qed.

(** * Further properties *)

(** ** Status codes (ifx/error.h, error.c) *)

Lemma testbit_shiftl (a s i : Z) :
  0 <= s -> Z.testbit (Z.shiftl a s) i = (s <=? i) && Z.testbit a (i - s).
Proof.
  intros Hs. destruct (Z.leb_spec s i) as [H|H]; cbn [andb].
  - apply Z.shiftl_spec. lia.
  - destruct (Z_lt_le_dec i 0) as [Hi|Hi]; [apply Z.testbit_neg_r; exact Hi|].
    apply Z.shiftl_spec_low. exact H.
Qed.

Lemma testbit_ones (k i : Z) :
  0 <= k -> Z.testbit (Z.ones k) i = (0 <=? i) && (i <? k).
Proof.
  intros Hk. destruct (Z.leb_spec 0 i) as [H|H]; cbn [andb].
  - apply Z.testbit_ones_nonneg; assumption.
  - apply Z.testbit_neg_r. exact H.
Qed.

(** Bit by bit: the masks and shifts of [IFX_ERROR] and of the accessors are
    written with [Z.ones] and [Z.shiftl], every bit test becomes a comparison
    of positions. *)
Ltac error_bits :=
  unfold IFX_ERROR, ERROR_INDICATOR;
  change 0x80000000 with (Z.shiftl (Z.ones 1) 31);
  change 0x00ff0000 with (Z.shiftl (Z.ones 8) 16);
  change 0x0000ff00 with (Z.shiftl (Z.ones 8) 8);
  change 0xff with (Z.ones 8);
  apply Z.bits_inj'; intros n Hn;
  repeat first [ rewrite Z.shiftr_spec by lia
               | rewrite Z.land_spec
               | rewrite Z.lor_spec
               | rewrite testbit_ones by lia
               | rewrite testbit_shiftl by lia ];
  repeat match goal with
         | |- context [?a <=? ?b] => destruct (Z.leb_spec a b)
         | |- context [?a <? ?b] => destruct (Z.ltb_spec a b)
         end; try lia;
  rewrite ?andb_false_r, ?andb_true_r, ?orb_false_r, ?orb_false_l;
  cbn [andb orb];
  rewrite ?andb_false_r, ?andb_true_r, ?orb_false_r, ?orb_false_l;
  try reflexivity;
  try (f_equal; lia).

Lemma error_get_module (md fn reason : Z) :
  ifx_error_get_module (IFX_ERROR md fn reason) = Z.land md 0xff.
Proof. unfold ifx_error_get_module. error_bits. Qed.

Lemma error_get_function (md fn reason : Z) :
  ifx_error_get_function (IFX_ERROR md fn reason) = Z.land fn 0xff.
Proof. unfold ifx_error_get_function. error_bits. Qed.

Lemma error_get_reason (md fn reason : Z) :
  ifx_error_get_reason (IFX_ERROR md fn reason) = Z.land reason 0xff.
Proof. unfold ifx_error_get_reason. change 0x000000ff with 0xff. error_bits. Qed.

Lemma error_is_error (md fn reason : Z) : ifx_is_error (IFX_ERROR md fn reason) = true.
Proof.
  unfold ifx_is_error. apply negb_true_iff, Z.eqb_neq. intros H.
  apply (f_equal (fun v => Z.testbit v 31)) in H. revert H.
  unfold IFX_ERROR, ERROR_INDICATOR.
  rewrite Z.land_spec, !Z.lor_spec. cbn. discriminate.
Qed.

(** An error code built by [IFX_ERROR] is recognised as an error, and the
    accessors of error.c give back the low byte of the module, of the
    function and of the reason it was built from; so two codes are equal
    exactly when these three bytes agree, and [SUCCESS] is no error. *)
Theorem ifx_error_fields (md fn reason : Z) :
  ifx_is_error (IFX_ERROR md fn reason) = true
  /\ ifx_error_get_module (IFX_ERROR md fn reason) = Z.land md 0xff
  /\ ifx_error_get_function (IFX_ERROR md fn reason) = Z.land fn 0xff
  /\ ifx_error_get_reason (IFX_ERROR md fn reason) = Z.land reason 0xff
  /\ (forall md' fn' reason',
        IFX_ERROR md fn reason = IFX_ERROR md' fn' reason'
        <-> Z.land md 0xff = Z.land md' 0xff
            /\ Z.land fn 0xff = Z.land fn' 0xff
            /\ Z.land reason 0xff = Z.land reason' 0xff)
  /\ ifx_is_error SUCCESS = false.
Proof.
  split; [apply error_is_error|]. split; [apply error_get_module|].
  split; [apply error_get_function|]. split; [apply error_get_reason|].
  split; [|reflexivity].
  intros md' fn' reason'. split.
  - intros H.
    rewrite <- (error_get_module md fn reason), <- (error_get_function md fn reason),
      <- (error_get_reason md fn reason), H.
    rewrite error_get_module, error_get_function, error_get_reason. auto.
  - intros (Hm & Hf & Hr). unfold IFX_ERROR. rewrite Hm, Hf, Hr. reflexivity.
Qed.

(** ** Protocol control bytes (t1prime.h) *)

Lemma pcb_one_class_all : forallb pcb_one_class (zrange 0 256) = true.
Proof. vm_compute. reflexivity. Qed.

Lemma pcb_in_range (p : Z) : In (T1PRIME_PCB p) (zrange 0 256).
Proof.
  apply in_zrange. unfold T1PRIME_PCB. change 0xff with (Z.ones 8).
  rewrite Z.land_ones by lia. pose proof (Z.mod_pos_bound p (2 ^ 8)). lia.
Qed.

Lemma pcb_idempotent (p : Z) : T1PRIME_PCB (T1PRIME_PCB p) = T1PRIME_PCB p.
Proof. unfold T1PRIME_PCB. rewrite <- Z.land_assoc. reflexivity. Qed.

Lemma nibble_in_range (t : Z) : In (Z.land t 0x0f) (zrange 0 16).
Proof.
  apply in_zrange. change 0x0f with (Z.ones 4).
  rewrite Z.land_ones by lia. pose proof (Z.mod_pos_bound t (2 ^ 4)). lia.
Qed.

Lemma pcb_class_cases (p : Z) :
  (T1PRIME_PCB_IS_I p = true /\ T1PRIME_PCB_IS_R p = false /\ T1PRIME_PCB_IS_S p = false)
  \/ (T1PRIME_PCB_IS_I p = false /\ T1PRIME_PCB_IS_R p = true /\ T1PRIME_PCB_IS_S p = false)
  \/ (T1PRIME_PCB_IS_I p = false /\ T1PRIME_PCB_IS_R p = false /\ T1PRIME_PCB_IS_S p = true).
Proof.
  pose proof (proj1 (forallb_forall _ _) pcb_one_class_all _ (pcb_in_range p)) as H.
  unfold pcb_one_class, T1PRIME_PCB_IS_I, T1PRIME_PCB_IS_R, T1PRIME_PCB_IS_S in *.
  rewrite pcb_idempotent in H.
  destruct (Z.land (T1PRIME_PCB p) 0x80 =? 0x00), (Z.land (T1PRIME_PCB p) 0xC0 =? 0x80),
    (Z.land (T1PRIME_PCB p) 0xC0 =? 0xC0); cbn in H; try discriminate H; auto.
Qed.

(** Whatever value is looked at as a PCB, it is an I-block, an R-block or an
    S-block and never two of them. *)
Theorem pcb_block_classes (p : Z) :
  (T1PRIME_PCB_IS_I p = true /\ T1PRIME_PCB_IS_R p = false /\ T1PRIME_PCB_IS_S p = false)
  \/ (T1PRIME_PCB_IS_I p = false /\ T1PRIME_PCB_IS_R p = true /\ T1PRIME_PCB_IS_S p = false)
  \/ (T1PRIME_PCB_IS_I p = false /\ T1PRIME_PCB_IS_R p = false /\ T1PRIME_PCB_IS_S p = true).
Proof. apply pcb_class_cases. Qed.

Lemma pcb_i_accessors (ns : Z) (m : bool) :
  T1PRIME_PCB_IS_I (T1PRIME_PCB_I ns m) = true
  /\ T1PRIME_PCB_I_GET_NS (T1PRIME_PCB_I ns m) = (if ns =? 0 then 0 else 1)
  /\ T1PRIME_PCB_I_HAS_MORE (T1PRIME_PCB_I ns m) = m.
Proof.
  unfold T1PRIME_PCB_I. destruct (ns =? 0), m; repeat split; reflexivity.
Qed.

Lemma pcb_r_accessors (nr type : Z) :
  T1PRIME_PCB_IS_R (T1PRIME_PCB_R nr type) = true
  /\ T1PRIME_PCB_R_GET_NR (T1PRIME_PCB_R nr type) = (if nr =? 0 then 0 else 1)
  /\ T1PRIME_PCB_IS_R_ACK (T1PRIME_PCB_R nr type) = (Z.land type 0x0f =? 0).
Proof.
  unfold T1PRIME_PCB_R. pose proof (nibble_in_range type) as Ht.
  destruct (nr =? 0); cbn [zrange Z.add Pos.add Pos.succ In] in Ht;
    repeat destruct Ht as [Ht|Ht]; try contradiction; rewrite <- Ht;
    repeat split; reflexivity.
Qed.

Lemma pcb_s_accessors (type : Z) (is_response : bool) :
  T1PRIME_PCB_IS_S (T1PRIME_PCB_S type is_response) = true
  /\ T1PRIME_PCB_S_IS_REQUEST (T1PRIME_PCB_S type is_response) = negb is_response
  /\ T1PRIME_PCB_S_GET_TYPE (T1PRIME_PCB_S type is_response) = Z.land type 0x0f.
Proof.
  unfold T1PRIME_PCB_S. pose proof (nibble_in_range type) as Ht.
  destruct is_response; cbn [zrange Z.add Pos.add Pos.succ In] in Ht;
    repeat destruct Ht as [Ht|Ht]; try contradiction; rewrite <- Ht;
    repeat split; reflexivity.
Qed.

(** The PCB built by [T1PRIME_PCB_I], [T1PRIME_PCB_R] or [T1PRIME_PCB_S] is
    of the class it was built for, and the accessors give back what went in:
    the sequence bit and the more-data bit of an I-block, the sequence bit of
    an R-block (an R-block is an acknowledgement exactly when its type nibble
    is 0), the request/response bit and the type nibble of an S-block. *)
Theorem pcb_builders_and_accessors (ns nr type : Z) (m is_response : bool) :
  (T1PRIME_PCB_IS_I (T1PRIME_PCB_I ns m) = true
   /\ T1PRIME_PCB_I_GET_NS (T1PRIME_PCB_I ns m) = (if ns =? 0 then 0 else 1)
   /\ T1PRIME_PCB_I_HAS_MORE (T1PRIME_PCB_I ns m) = m)
  /\ (T1PRIME_PCB_IS_R (T1PRIME_PCB_R nr type) = true
      /\ T1PRIME_PCB_R_GET_NR (T1PRIME_PCB_R nr type) = (if nr =? 0 then 0 else 1)
      /\ T1PRIME_PCB_IS_R_ACK (T1PRIME_PCB_R nr type) = (Z.land type 0x0f =? 0))
  /\ (T1PRIME_PCB_IS_S (T1PRIME_PCB_S type is_response) = true
      /\ T1PRIME_PCB_S_IS_REQUEST (T1PRIME_PCB_S type is_response) = negb is_response
      /\ T1PRIME_PCB_S_GET_TYPE (T1PRIME_PCB_S type is_response) = Z.land type 0x0f).
Proof.
  split; [apply pcb_i_accessors|]. split; [apply pcb_r_accessors|apply pcb_s_accessors].
Qed.

(** ** IFS codec: round trip and range of the decoder *)

(** Every IFS that [t1prime_ifs_encode] accepts is read back by
    [t1prime_ifs_decode] from the bytes produced. *)
Theorem ifs_codec_roundtrip (n : Z) :
  1 <= n <= 0xff9 ->
  exists encoded,
    t1prime_ifs_encode n = Ok encoded
    /\ t1prime_ifs_decode encoded (Z.of_nat (length encoded)) = Ok n.
Proof.
  intros Hn. destruct (Z_le_gt_dec n 0xfe) as [Hs|Hl].
  - exists [n]. split; [apply ifs_encode_one_byte; lia|].
    unfold t1prime_ifs_decode, T1PRIME_MAX_IFS. cbn [length Z.of_nat Pos.of_succ_nat
      Z.ltb Z.compare Pos.compare Pos.compare_cont orb Z.eqb Pos.eqb byte_at Z.to_nat nth].
    replace (0xff9 <? n) with false by (symmetry; apply Z.ltb_ge; lia). reflexivity.
  - exists [n / 256; n mod 256]. split; [apply ifs_encode_two_bytes; lia|].
    unfold t1prime_ifs_decode, T1PRIME_MAX_IFS.
    change (Z.of_nat (length [n / 256; n mod 256])) with 2.
    change (byte_at [n / 256; n mod 256] 0) with (n / 256).
    change (byte_at [n / 256; n mod 256] 1) with (n mod 256).
    cbn [Z.ltb Z.compare Pos.compare Pos.compare_cont orb Z.eqb Pos.eqb].
    assert (Ha : 0 <= n / 256 < 256).
    { split; [apply Z.div_pos; lia|apply Z.div_lt_upper_bound; lia]. }
    pose proof (Z.mod_pos_bound n 256 ltac:(lia)) as Hb.
    rewrite (join16 _ _ Ha Hb).
    replace (n / 256 * 256 + n mod 256) with n by (pose proof (Z.div_mod n 256); lia).
    replace (0xff9 <? n) with false by (symmetry; apply Z.ltb_ge; lia). reflexivity.
Qed.

Lemma ifs_codec_roundtrip_witness :
  1 <= 0x0102 <= 0xff9
  /\ exists encoded,
       t1prime_ifs_encode 0x0102 = Ok encoded
       /\ t1prime_ifs_decode encoded (Z.of_nat (length encoded)) = Ok 0x0102.
Proof. split; [lia|apply (ifs_codec_roundtrip 0x0102); lia]. Defined.

(** What [t1prime_ifs_decode] accepts: one byte, or two bytes read big-endian,
    with a value of at most [T1PRIME_MAX_IFS]; 0 is accepted although the
    encoder refuses it.  Everything else is ILLEGAL_ARGUMENT. *)
Theorem ifs_decode_range (data : list Z) (data_len : Z) :
  is_bytes data = true ->
  match t1prime_ifs_decode data data_len with
  | Ok ifs =>
      (data_len = 1 /\ ifs = byte_at data 0
       \/ data_len = 2 /\ ifs = byte_at data 0 * 256 + byte_at data 1)
      /\ 0 <= ifs <= T1PRIME_MAX_IFS
  | Err e =>
      e = IFX_ERROR LIBT1PRIME T1PRIME_IFS_DECODE ILLEGAL_ARGUMENT
      /\ (data_len < 1 \/ 2 < data_len
          \/ data_len = 1 /\ T1PRIME_MAX_IFS < byte_at data 0
          \/ data_len = 2 /\ T1PRIME_MAX_IFS < byte_at data 0 * 256 + byte_at data 1)
  end.
Proof.
  intros Hb. unfold t1prime_ifs_decode.
  pose proof (byte_at_is_byte data 0 Hb) as H0.
  pose proof (byte_at_is_byte data 1 Hb) as H1.
  destruct (Z.ltb_spec data_len 1) as [Hlt|Hge]; cbn [orb]; [split; [reflexivity|lia]|].
  destruct (Z.ltb_spec 2 data_len) as [Hgt|Hle]; [split; [reflexivity|lia]|].
  destruct (Z.eqb_spec data_len 1) as [He|Hne].
  - destruct (Z.ltb_spec T1PRIME_MAX_IFS (byte_at data 0)) as [Hm|Hm].
    + split; [reflexivity|]. right. right. left. split; assumption.
    + split; [left; split; [assumption|reflexivity]|lia].
  - rewrite (join16 _ _ H0 H1).
    destruct (Z.ltb_spec T1PRIME_MAX_IFS (byte_at data 0 * 256 + byte_at data 1)) as [Hm|Hm].
    + split; [reflexivity|]. right. right. right. split; [lia|assumption].
    + split; [right; split; [lia|reflexivity]|lia].
Qed.

Lemma ifs_decode_range_witness :
  is_bytes [0x01; 0x02] = true
  /\ ((2 = 1 /\ 0x0102 = 0x01 \/ 2 = 2 /\ 0x0102 = 0x01 * 256 + 0x02)
      /\ 0 <= 0x0102 <= T1PRIME_MAX_IFS).
Proof. split; [reflexivity|exact (ifs_decode_range [0x01; 0x02] 2 eq_refl)]. Defined.

(** ** Buffers: bytes and slices *)

Lemma length_memcpy (src : list Z) (offset n : Z) :
  0 <= offset -> 0 <= n -> offset + n <= Z.of_nat (length src) ->
  Z.of_nat (length (memcpy src offset n)) = n.
Proof.
  intros Ho Hn Hlen. unfold memcpy. rewrite length_firstn, length_skipn. lia.
Qed.

Lemma skipn_byte_at (src : list Z) (offset : Z) :
  0 <= offset < Z.of_nat (length src) ->
  skipn (Z.to_nat offset) src = byte_at src offset :: skipn (Z.to_nat (offset + 1)) src.
Proof.
  intros Ho. unfold byte_at.
  replace (Z.to_nat (offset + 1)) with (S (Z.to_nat offset)) by lia.
  assert (Hlt : (Z.to_nat offset < length src)%nat) by lia.
  generalize dependent (Z.to_nat offset). clear Ho offset.
  induction src as [|b src IH]; intros n Hn; cbn [length] in Hn; [lia|].
  destruct n as [|n]; [reflexivity|]. cbn [skipn nth]. apply IH. lia.
Qed.

Lemma skipn_memcpy (src : list Z) (offset n : Z) :
  0 <= offset -> 0 <= n ->
  skipn (Z.to_nat offset) src = memcpy src offset n ++ skipn (Z.to_nat (offset + n)) src.
Proof.
  intros Ho Hn. unfold memcpy.
  replace (Z.to_nat (offset + n)) with (Z.to_nat n + Z.to_nat offset)%nat by lia.
  rewrite <- skipn_skipn. symmetry. apply firstn_skipn.
Qed.

Lemma is_bytes_skipn (n : nat) (x : list Z) :
  is_bytes x = true -> is_bytes (skipn n x) = true.
Proof.
  revert x. induction n as [|n IH]; intros [|b x] Hx; try assumption; try reflexivity.
  apply is_bytes_cons in Hx. cbn [skipn]. apply IH. tauto.
Qed.

Lemma is_bytes_memcpy (src : list Z) (offset n : Z) :
  is_bytes src = true -> is_bytes (memcpy src offset n) = true.
Proof. intros H. unfold memcpy. apply is_bytes_firstn, is_bytes_skipn, H. Qed.

Lemma is_bytes_app (x y : list Z) :
  is_bytes (x ++ y) = true <-> is_bytes x = true /\ is_bytes y = true.
Proof. unfold is_bytes. rewrite forallb_app, andb_true_iff. tauto. Qed.

(** ** Communication interface parameters *)

Lemma Ok_inj (A : Type) (a b : A) : Ok a = Ok b -> a = b.
Proof. intros H. injection H as H. exact H. Qed.

Lemma cip_validate_success (cip : CIP) :
  t1prime_cip_validate cip = T1PRIME_CIP_VALIDATE_SUCCESS
  <-> (iin_len cip = 3 \/ iin_len cip = 4)
      /\ (plid cip = PLID_SPI /\ 12 <= plp_len cip \/ plid cip = PLID_I2C /\ 8 <= plp_len cip)
      /\ 4 <= dllp_len cip.
Proof.
  unfold t1prime_cip_validate, T1PRIME_CIP_VALIDATE_SUCCESS, PLID_SPI, PLID_I2C.
  destruct (Z.ltb_spec (iin_len cip) 3); cbn [orb].
  { split; [intros H'; now apply IFX_ERROR_not_success in H'|lia]. }
  destruct (Z.ltb_spec 4 (iin_len cip)).
  { split; [intros H'; now apply IFX_ERROR_not_success in H'|lia]. }
  destruct (Z.eqb_spec (plid cip) 1) as [Hspi|Hspi].
  - destruct (Z.ltb_spec (plp_len cip) (1 + 1 + 2 + 1 + 1 + 2 + 2 + 2)).
    { split; [intros H'; now apply IFX_ERROR_not_success in H'|lia]. }
    destruct (Z.ltb_spec (dllp_len cip) (2 + 2)).
    { split; [intros H'; now apply IFX_ERROR_not_success in H'|lia]. }
    split; [intros _; lia|reflexivity].
  - destruct (Z.eqb_spec (plid cip) 2) as [Hi2c|Hi2c].
    + destruct (Z.ltb_spec (plp_len cip) (1 + 1 + 2 + 1 + 1 + 2)).
      { split; [intros H'; now apply IFX_ERROR_not_success in H'|lia]. }
      destruct (Z.ltb_spec (dllp_len cip) (2 + 2)).
      { split; [intros H'; now apply IFX_ERROR_not_success in H'|lia]. }
      split; [intros _; lia|reflexivity].
    + split; [intros H'; now apply IFX_ERROR_not_success in H'|lia].
Qed.

Lemma cip_decode_fields (data : list Z) (cip : CIP) :
  t1prime_cip_decode data (Z.of_nat (length data)) = Ok cip ->
  t1prime_cip_validate cip = T1PRIME_CIP_VALIDATE_SUCCESS
  /\ version cip = byte_at data 0
  /\ iin_len cip = byte_at data 1
  /\ iin cip = memcpy data 2 (iin_len cip)
  /\ plid cip = byte_at data (2 + iin_len cip)
  /\ plp_len cip = byte_at data (3 + iin_len cip)
  /\ plp cip = memcpy data (4 + iin_len cip) (plp_len cip)
  /\ dllp_len cip = byte_at data (4 + iin_len cip + plp_len cip)
  /\ dllp cip = memcpy data (5 + iin_len cip + plp_len cip) (dllp_len cip)
  /\ hb_len cip = byte_at data (5 + iin_len cip + plp_len cip + dllp_len cip)
  /\ hb cip = memcpy data (6 + iin_len cip + plp_len cip + dllp_len cip) (hb_len cip)
  /\ 6 + iin_len cip + plp_len cip + dllp_len cip + hb_len cip = Z.of_nat (length data)
  /\ 0 <= hb_len cip.
Proof.
  unfold t1prime_cip_decode, cip_field. set (L := Z.of_nat (length data)).
  destruct (L <? 1 + 1 + 1 + 1 + 1 + 1); [discriminate|].
  cbn beta zeta.
  destruct (L <? 0 + 1 + 1 + byte_at data (0 + 1) + 1 + 1 + 1 + 1); [discriminate|].
  destruct (Z.ltb_spec 0 (byte_at data (0 + 1))) as [Ha|Ha];
    (match goal with
     | |- context [if L <? ?e then _ else _] => destruct (L <? e); [discriminate|]
     end;
     match goal with
     | |- context [if 0 <? ?e then (_, _) else _] =>
         destruct (Z.ltb_spec 0 e) as [Hb|Hb]
     end;
     (match goal with
      | |- context [if L <? ?e then _ else _] =>
          destruct (Z.ltb_spec L e) as [Hl3|Hl3]; [discriminate|]
      end;
      match goal with
      | |- context [if 0 <? ?e then (_, _) else _] =>
          destruct (Z.ltb_spec 0 e) as [Hc|Hc]
      end;
      (match goal with
       | |- context [if negb (?e =? L) then _ else _] =>
           destruct (Z.eqb_spec e L) as [Hlen|Hlen]; cbn [negb]; [|discriminate]
       end;
       match goal with
       | |- context [if negb (t1prime_cip_validate ?c =? _) then _ else _] =>
           destruct (Z.eqb_spec (t1prime_cip_validate c) T1PRIME_CIP_VALIDATE_SUCCESS)
             as [Hv|Hv]; cbn [negb]; [|discriminate]
       end;
       intros H; apply Ok_inj in H; subst cip;
       pose proof (proj1 (cip_validate_success _) Hv) as (Hiin & Hplp & Hdllp);
       cbv beta iota delta [version iin_len iin plid plp_len plp dllp_len dllp hb_len hb]
         in Hiin, Hplp, Hdllp |- *;
       try lia))).
  split; [exact Hv|].
  repeat split; try reflexivity; try (f_equal; lia); try lia.
  match goal with
  | |- (if 0 <? ?e then _ else _) = _ => destruct (Z.ltb_spec 0 e) as [Hd|Hd]
  end; [f_equal; lia|].
  unfold memcpy.
  match goal with
  | |- _ = firstn (Z.to_nat ?e) _ => replace (Z.to_nat e) with 0%nat by lia
  end.
  reflexivity.
Qed.

Lemma cip_decode_layout_aux (data : list Z) (cip : CIP) :
  t1prime_cip_decode data (Z.of_nat (length data)) = Ok cip ->
  data = [version cip; iin_len cip] ++ iin cip
         ++ [plid cip; plp_len cip] ++ plp cip
         ++ [dllp_len cip] ++ dllp cip
         ++ [hb_len cip] ++ hb cip
  /\ Z.of_nat (length (iin cip)) = iin_len cip
  /\ Z.of_nat (length (plp cip)) = plp_len cip
  /\ Z.of_nat (length (dllp cip)) = dllp_len cip
  /\ Z.of_nat (length (hb cip)) = hb_len cip.
Proof.
  intros Hdec.
  destruct (cip_decode_fields data cip Hdec)
    as (Hv & Hver & Hil & Hiin & Hplid & Hpl & Hplp & Hdl & Hdllp & Hhl & Hhb & Hlen & Hh0).
  apply cip_validate_success in Hv. destruct Hv as (Hiv & Hpv & Hdv).
  assert (Hp8 : 8 <= plp_len cip) by lia.
  set (i := iin_len cip) in *. set (p := plp_len cip) in *.
  set (d := dllp_len cip) in *. set (h := hb_len cip) in *.
  split.
  - change data with (skipn (Z.to_nat 0) data) at 1.
    rewrite (skipn_byte_at data 0) by lia. rewrite <- Hver.
    rewrite (skipn_byte_at data (0 + 1)) by lia. change (0 + 1) with 1. rewrite <- Hil.
    rewrite (skipn_memcpy data (1 + 1) i) by lia. change (1 + 1) with 2. rewrite <- Hiin.
    rewrite (skipn_byte_at data (2 + i)) by lia. rewrite <- Hplid.
    rewrite (skipn_byte_at data (2 + i + 1)) by lia.
    replace (2 + i + 1) with (3 + i) by lia. rewrite <- Hpl.
    rewrite (skipn_memcpy data (3 + i + 1) p) by lia.
    replace (3 + i + 1) with (4 + i) by lia. rewrite <- Hplp.
    rewrite (skipn_byte_at data (4 + i + p)) by lia. rewrite <- Hdl.
    rewrite (skipn_memcpy data (4 + i + p + 1) d) by lia.
    replace (4 + i + p + 1) with (5 + i + p) by lia. rewrite <- Hdllp.
    rewrite (skipn_byte_at data (5 + i + p + d)) by lia. rewrite <- Hhl.
    rewrite (skipn_memcpy data (5 + i + p + d + 1) h) by lia.
    replace (5 + i + p + d + 1) with (6 + i + p + d) by lia. rewrite <- Hhb.
    rewrite (skipn_all2 data) by lia. rewrite app_nil_r. reflexivity.
  - rewrite Hiin, Hplp, Hdllp, Hhb. fold i p d h.
    repeat split; apply length_memcpy; lia.
Qed.



Lemma cip_decode_of_fields (data : list Z) (cip : CIP) :
  t1prime_cip_validate cip = T1PRIME_CIP_VALIDATE_SUCCESS ->
  version cip = byte_at data 0 ->
  iin_len cip = byte_at data 1 ->
  iin cip = memcpy data 2 (iin_len cip) ->
  plid cip = byte_at data (2 + iin_len cip) ->
  plp_len cip = byte_at data (3 + iin_len cip) ->
  plp cip = memcpy data (4 + iin_len cip) (plp_len cip) ->
  dllp_len cip = byte_at data (4 + iin_len cip + plp_len cip) ->
  dllp cip = memcpy data (5 + iin_len cip + plp_len cip) (dllp_len cip) ->
  hb_len cip = byte_at data (5 + iin_len cip + plp_len cip + dllp_len cip) ->
  hb cip = memcpy data (6 + iin_len cip + plp_len cip + dllp_len cip) (hb_len cip) ->
  6 + iin_len cip + plp_len cip + dllp_len cip + hb_len cip = Z.of_nat (length data) ->
  0 <= hb_len cip ->
  t1prime_cip_decode data (Z.of_nat (length data)) = Ok cip.
Proof.
  intros Hv Hver Hil Hiin Hplid Hpl Hplp Hdl Hdllp Hhl Hhb Hlen Hh0.
  pose proof (proj1 (cip_validate_success _) Hv) as (Hiv & Hpv & Hdv).
  assert (Hp8 : 8 <= plp_len cip) by lia.
  unfold t1prime_cip_decode, cip_field. set (L := Z.of_nat (length data)) in *.
  destruct (Z.ltb_spec L (1 + 1 + 1 + 1 + 1 + 1)) as [H0|H0]; [lia|].
  cbn beta zeta.
  replace (0 + 1) with 1 by lia. rewrite <- Hil.
  set (i := iin_len cip) in *.
  destruct (Z.ltb_spec L (1 + 1 + i + 1 + 1 + 1 + 1)) as [H1|H1]; [lia|].
  destruct (Z.ltb_spec 0 i) as [Hi|Hi]; [|lia].
  replace (1 + 1) with 2 by lia. rewrite <- Hiin.
  replace (2 + i + 1) with (3 + i) by lia. rewrite <- Hpl, <- Hplid.
  set (p := plp_len cip) in *.
  destruct (Z.ltb_spec L (3 + i + 1 + p + 1 + 1)) as [H2|H2]; [lia|].
  destruct (Z.ltb_spec 0 p) as [Hp|Hp]; [|lia].
  replace (3 + i + 1) with (4 + i) by lia. rewrite <- Hplp, <- Hdl.
  set (d := dllp_len cip) in *.
  destruct (Z.ltb_spec L (4 + i + p + 1 + d + 1)) as [H3|H3]; [lia|].
  destruct (Z.ltb_spec 0 d) as [Hd|Hd]; [|lia].
  replace (4 + i + p + 1) with (5 + i + p) by lia. rewrite <- Hdllp, <- Hhl.
  set (h := hb_len cip) in *.
  destruct (Z.eqb_spec (5 + i + p + d + 1 + h) L) as [H4|H4]; [|lia]. cbn [negb].
  replace (5 + i + p + d + 1) with (6 + i + p + d) by lia.
  assert (Hhb' : (if 0 <? h then memcpy data (6 + i + p + d) h else []) = hb cip).
  { rewrite Hhb. destruct (Z.ltb_spec 0 h) as [Hh|Hh]; [reflexivity|].
    replace h with 0 by lia. reflexivity. }
  rewrite Hhb'.
  assert (Hrec : {| version := byte_at data 0; iin_len := i; iin := iin cip;
                    plid := plid cip; plp_len := p; plp := plp cip;
                    dllp_len := d; dllp := dllp cip; hb_len := h; hb := hb cip |} = cip).
  { rewrite <- Hver. subst i p d h. destruct cip; reflexivity. }
  rewrite Hrec, Hv. reflexivity.
Qed.

Lemma byte_at_skipn (data : list Z) (offset : Z) :
  byte_at data offset = hd 0 (skipn (Z.to_nat offset) data).
Proof.
  unfold byte_at. generalize (Z.to_nat offset). intros n. revert data.
  induction n as [|n IH]; intros [|b data]; try reflexivity. cbn [nth skipn]. apply IH.
Qed.

Lemma skipn_add (data : list Z) (a b : Z) :
  0 <= a -> 0 <= b ->
  skipn (Z.to_nat (a + b)) data = skipn (Z.to_nat b) (skipn (Z.to_nat a) data).
Proof.
  intros Ha Hb. rewrite skipn_skipn. f_equal. lia.
Qed.

Lemma skipn_exact (x rest : list Z) (n : Z) :
  Z.of_nat (length x) = n -> skipn (Z.to_nat n) (x ++ rest) = rest.
Proof.
  intros <-. rewrite Nat2Z.id, skipn_app, skipn_all, Nat.sub_diag. reflexivity.
Qed.

Lemma firstn_exact (x rest : list Z) (n : Z) :
  Z.of_nat (length x) = n -> firstn (Z.to_nat n) (x ++ rest) = x.
Proof.
  intros <-. rewrite Nat2Z.id, firstn_app, firstn_all, Nat.sub_diag.
  cbn [firstn]. apply app_nil_r.
Qed.

Lemma cip_decode_of_bytes (cip : CIP) :
  cip_lengths cip ->
  t1prime_cip_validate cip = T1PRIME_CIP_VALIDATE_SUCCESS ->
  t1prime_cip_decode (cip_bytes cip) (Z.of_nat (length (cip_bytes cip))) = Ok cip.
Proof.
  intros (Li & Lp & Ld & Lh) Hv.
  pose proof (proj1 (cip_validate_success _) Hv) as (Hiv & Hpv & Hdv).
  set (data := cip_bytes cip).
  set (i := iin_len cip) in *. set (p := plp_len cip) in *.
  set (d := dllp_len cip) in *. set (h := hb_len cip) in *.
  set (R3 := [h] ++ hb cip).
  set (R2 := [d] ++ dllp cip ++ R3).
  set (R1 := [plid cip; p] ++ plp cip ++ R2).
  assert (K1 : skipn (Z.to_nat 2) data = iin cip ++ R1) by reflexivity.
  assert (K2 : skipn (Z.to_nat (2 + i)) data = R1).
  { rewrite skipn_add, K1 by lia. apply skipn_exact, Li. }
  assert (K3 : skipn (Z.to_nat (4 + i)) data = plp cip ++ R2).
  { replace (4 + i) with (2 + i + 2) by lia. rewrite skipn_add, K2 by lia. reflexivity. }
  assert (K4 : skipn (Z.to_nat (4 + i + p)) data = R2).
  { rewrite skipn_add, K3 by lia. apply skipn_exact, Lp. }
  assert (K5 : skipn (Z.to_nat (5 + i + p)) data = dllp cip ++ R3).
  { replace (5 + i + p) with (4 + i + p + 1) by lia. rewrite skipn_add, K4 by lia.
    reflexivity. }
  assert (K6 : skipn (Z.to_nat (5 + i + p + d)) data = R3).
  { rewrite skipn_add, K5 by lia. apply skipn_exact, Ld. }
  assert (K7 : skipn (Z.to_nat (6 + i + p + d)) data = hb cip).
  { replace (6 + i + p + d) with (5 + i + p + d + 1) by lia.
    rewrite skipn_add, K6 by lia. reflexivity. }
  assert (Hlen : 6 + i + p + d + h = Z.of_nat (length data)).
  { subst data. unfold cip_bytes. rewrite !length_app. cbn [length]. lia. }
  apply cip_decode_of_fields; try exact Hv; try reflexivity; fold data i p d h.
  - unfold memcpy. rewrite K1. symmetry. apply firstn_exact, Li.
  - rewrite byte_at_skipn, K2. reflexivity.
  - replace (3 + i) with (2 + i + 1) by lia.
    rewrite byte_at_skipn, skipn_add, K2 by lia. reflexivity.
  - unfold memcpy. rewrite K3. symmetry. apply firstn_exact, Lp.
  - rewrite byte_at_skipn, K4. reflexivity.
  - unfold memcpy. rewrite K5. symmetry. apply firstn_exact, Ld.
  - rewrite byte_at_skipn, K6. reflexivity.
  - unfold memcpy. rewrite K7. rewrite <- (app_nil_r (hb cip)) at 2.
    symmetry. apply firstn_exact, Lh.
  - exact Hlen.
  - lia.
Qed.

(** [t1prime_cip_decode] accepts a byte string exactly when it is the layout
    of a CIP whose length members count their buffers, whose issuer
    identification number has 3 or 4 bytes, whose physical layer is SPI with
    at least 12 or I2C with at least 8 parameter bytes, and whose data-link
    layer parameters have at least 4 bytes; the CIP handed back is that
    one. *)
Theorem cip_decode_layout (data : list Z) (cip : CIP) :
  t1prime_cip_decode data (Z.of_nat (length data)) = Ok cip
  <-> data = cip_bytes cip
      /\ cip_lengths cip
      /\ (iin_len cip = 3 \/ iin_len cip = 4)
      /\ (plid cip = PLID_SPI /\ 12 <= plp_len cip
          \/ plid cip = PLID_I2C /\ 8 <= plp_len cip)
      /\ 4 <= dllp_len cip.
Proof.
  split.
  - intros Hdec. destruct (cip_decode_layout_aux data cip Hdec) as (Hdata & Hl).
    split; [exact Hdata|]. split; [exact Hl|].
    apply cip_validate_success.
    exact (proj1 (cip_decode_fields data cip Hdec)).
  - intros (-> & Hl & Hv). apply cip_decode_of_bytes; [exact Hl|].
    apply cip_validate_success. exact Hv.
Qed.

Lemma join16_uint16 (a b : Z) :
  0 <= a < 256 -> 0 <= b < 256 ->
  to_uint16 (Z.lor (Z.shiftl a 8) b) = a * 256 + b.
Proof.
  intros Ha Hb. destruct (join16_parts a b Ha Hb) as (_ & H & _).
  rewrite H. apply join16; assumption.
Qed.

(** A CIP that came out of [t1prime_cip_decode] never makes the decoders of
    its parts fail: the DLLP decodes to the big-endian BWT and IFSC of its
    first four bytes, and with the I2C physical layer the PLP decodes to its
    first eight bytes, MCF and RWGT read big-endian. *)
Theorem decoded_cip_parameters (data : list Z) (cip : CIP) :
  is_bytes data = true ->
  t1prime_cip_decode data (Z.of_nat (length data)) = Ok cip ->
  t1prime_dllp_decode (dllp cip) (dllp_len cip)
  = Ok {| dllp_bwt := byte_at (dllp cip) 0 * 256 + byte_at (dllp cip) 1;
          dllp_ifsc := byte_at (dllp cip) 2 * 256 + byte_at (dllp cip) 3 |}
  /\ (plid cip = PLID_I2C ->
      t1prime_i2c_plp_decode (plp cip) (plp_len cip)
      = Ok {| plp_configuration := byte_at (plp cip) 0;
              plp_pwt := byte_at (plp cip) 1;
              plp_mcf := byte_at (plp cip) 2 * 256 + byte_at (plp cip) 3;
              plp_pst := byte_at (plp cip) 4;
              plp_mpot := byte_at (plp cip) 5;
              plp_rwgt := byte_at (plp cip) 6 * 256 + byte_at (plp cip) 7 |}).
Proof.
  intros Hb Hdec.
  destruct (cip_decode_fields data cip Hdec)
    as (Hv & _ & _ & _ & _ & _ & Hplp & _ & Hdllp & _).
  apply cip_validate_success in Hv. destruct Hv as (_ & Hpv & Hdv).
  assert (Hbd : is_bytes (dllp cip) = true) by (rewrite Hdllp; apply is_bytes_memcpy, Hb).
  assert (Hbp : is_bytes (plp cip) = true) by (rewrite Hplp; apply is_bytes_memcpy, Hb).
  split.
  - unfold t1prime_dllp_decode.
    destruct (Z.ltb_spec (dllp_len cip) (2 + 2)) as [H|H]; [lia|].
    rewrite !join16_uint16 by (apply byte_at_is_byte; exact Hbd). reflexivity.
  - intros Hi2c. unfold t1prime_i2c_plp_decode.
    destruct (Z.ltb_spec (plp_len cip) (1 + 1 + 2 + 1 + 1 + 2)) as [H|H]; [lia|].
    rewrite !join16_uint16 by (apply byte_at_is_byte; exact Hbp). reflexivity.
Qed.

Lemma decoded_cip_parameters_witness :
  is_bytes (cip_with_ifsc 0x0f 0xf9) = true
  /\ t1prime_dllp_decode [0x00; 0x80; 0x0f; 0xf9] 4
     = Ok {| dllp_bwt := 0x00 * 256 + 0x80; dllp_ifsc := 0x0f * 256 + 0xf9 |}.
Proof.
  split; [reflexivity|].
  exact (proj1 (decoded_cip_parameters (cip_with_ifsc 0x0f 0xf9)
                  (mkCIP 0x01 3 [0x00; 0x00; 0x00] 0x02
                         8 [0x00; 0x00; 0x01; 0x90; 0x00; 0x0a; 0x00; 0x00]
                         4 [0x00; 0x80; 0x0f; 0xf9] 0 [])
                  eq_refl eq_refl)).
Defined.

(** ** Blocks on the wire *)

Lemma block_crc_input_wf (b : Block) :
  wf_block b = true ->
  block_crc_input b
  = nad b :: pcb b :: information_size b / 256 :: information_size b mod 256
    :: information b.
Proof.
  unfold wf_block. rewrite !andb_true_iff, !is_byte_range, Z.eqb_eq, Z.leb_le.
  intros ((((Hn & Hp) & Hsz) & Hmax) & Hinfo).
  destruct b as [n p size info]. cbn [nad pcb information_size information] in *.
  assert (Hfull : firstn (Z.to_nat size) info = info)
    by (subst size; rewrite Nat2Z.id; apply firstn_all).
  rewrite <- Hfull at 1. rewrite block_crc_input_firstn by lia.
  rewrite Hfull. reflexivity.
Qed.

(** The frames of a well-formed block, spelled out. *)
Lemma block_frames_wf (b : Block) :
  wf_block b = true ->
  let crc := crc16_ccitt_x25 (block_crc_input b) in
  block_frames b
  = [(PROTOCOL_RECEIVE_SUCCESS, [nad b]);
     (PROTOCOL_RECEIVE_SUCCESS,
      [pcb b; information_size b / 256; information_size b mod 256])]
    ++ (if 0 <? information_size b
        then [(PROTOCOL_RECEIVE_SUCCESS, information b)] else [])
    ++ [(PROTOCOL_RECEIVE_SUCCESS, [crc / 256; crc mod 256])].
Proof.
  intros Hwf crc. unfold block_frames.
  pose proof (block_encode_wf b Hwf) as Henc. cbv zeta in Henc.
  rewrite <- (block_crc_input_wf b Hwf) in Henc. fold crc in Henc.
  revert Hwf. unfold wf_block.
  rewrite !andb_true_iff, !is_byte_range, Z.eqb_eq, Z.leb_le.
  intros ((((Hn & Hp) & Hsz) & Hmax) & Hinfo).
  rewrite Henc. set (size := information_size b) in *.
  set (tail := [crc / 256; crc mod 256]).
  assert (H1 : memcpy (nad b :: pcb b :: size / 256 :: size mod 256 :: information b ++ tail)
                 BLOCK_PROLOGUE_LENGTH size = information b).
  { unfold memcpy. change (Z.to_nat BLOCK_PROLOGUE_LENGTH) with 4%nat. cbn [skipn].
    apply firstn_exact. lia. }
  assert (H2 : memcpy (nad b :: pcb b :: size / 256 :: size mod 256 :: information b ++ tail)
                 (BLOCK_PROLOGUE_LENGTH + size) BLOCK_EPILOGUE_LENGTH = tail).
  { unfold memcpy. rewrite skipn_add by (unfold BLOCK_PROLOGUE_LENGTH; lia).
    change (Z.to_nat BLOCK_PROLOGUE_LENGTH) with 4%nat. cbn [skipn].
    rewrite skipn_exact by lia. reflexivity. }
  rewrite H1, H2. reflexivity.
Qed.

Lemma with_rx_same (w : World) : with_rx w (rx_script w) = w.
Proof. destruct w. reflexivity. Qed.

Lemma with_rx_with_rx (w : World) (r1 r2 : list (Z * list Z)) :
  with_rx (with_rx w r1) r2 = with_rx w r2.
Proof. reflexivity. Qed.


Lemma poll_nad_found (polls : nat) :
  forall (w : World) (idle rest : list (Z * list Z)) (n : Z),
    forallb idle_answer idle = true ->
    (length idle < polls)%nat ->
    n <> 0x00 -> n <> 0xff ->
    rx_script w = idle ++ (PROTOCOL_RECEIVE_SUCCESS, [n]) :: rest ->
    poll_nad polls w = (n, with_rx w rest).
Proof.
  induction polls as [|polls IH]; intros w idle rest n Hidle Hlen Hn0 Hnf Hrx; [lia|].
  cbn [poll_nad]. unfold driver_receive. rewrite Hrx.
  destruct idle as [|[status buffer] idle]; cbn [app].
  - change (PROTOCOL_RECEIVE_SUCCESS =? PROTOCOL_RECEIVE_SUCCESS) with true. cbv iota.
    change (Z.of_nat (length [n]) =? 1) with true. change (byte_at [n] 0) with n.
    replace (n =? 0x00) with false by (symmetry; apply Z.eqb_neq; exact Hn0).
    replace (n =? 0xff) with false by (symmetry; apply Z.eqb_neq; exact Hnf).
    reflexivity.
  - cbn [forallb] in Hidle. apply andb_true_iff in Hidle.
    destruct Hidle as [Hhead Htail]. unfold idle_answer in Hhead. cbn [fst snd] in Hhead.
    cbn [length] in Hlen.
    change (mkWorld (idle ++ (PROTOCOL_RECEIVE_SUCCESS, [n]) :: rest) (tx_script w) (tx_log w)
                    (bwt_polls w) (prop_script w) (clock_log w))
      with (with_rx w (idle ++ (PROTOCOL_RECEIVE_SUCCESS, [n]) :: rest)).
    rewrite (IH (with_rx w (idle ++ (PROTOCOL_RECEIVE_SUCCESS, [n]) :: rest)) idle rest n)
      by (try assumption; try reflexivity; lia).
    rewrite with_rx_with_rx.
    destruct (status =? PROTOCOL_RECEIVE_SUCCESS); [|reflexivity].
    cbn [negb orb] in Hhead. apply negb_true_iff in Hhead. rewrite Hhead. reflexivity.
Qed.

Lemma block_receive_delivered (st : T1PrimeProtocolState) (w : World)
    (n p hi lo c1 c2 : Z) (info : list Z) (idle rest : list (Z * list Z)) :
  forallb idle_answer idle = true ->
  (length idle < bwt_polls w)%nat ->
  n <> 0x00 -> n <> 0xff ->
  0 <= hi < 256 -> 0 <= lo < 256 -> 0 <= c1 < 256 -> 0 <= c2 < 256 ->
  hi * 256 + lo = Z.of_nat (length info) ->
  crc16_ccitt_x25 (n :: p :: hi :: lo :: info) = c1 * 256 + c2 ->
  rx_script w
  = idle
    ++ [(PROTOCOL_RECEIVE_SUCCESS, [n]); (PROTOCOL_RECEIVE_SUCCESS, [p; hi; lo])]
    ++ (if 0 <? Z.of_nat (length info) then [(PROTOCOL_RECEIVE_SUCCESS, info)] else [])
    ++ [(PROTOCOL_RECEIVE_SUCCESS, [c1; c2])] ++ rest ->
  t1prime_block_receive st w
  = (PROTOCOL_RECEIVE_SUCCESS, mkBlock n p (Z.of_nat (length info)) info, with_rx w rest).
Proof.
  intros Hidle Hpolls Hn0 Hnf Hhi Hlo Hc1 Hc2 Hsize Hcrc Hrx.
  unfold t1prime_block_receive.
  rewrite (poll_nad_found (bwt_polls w) w idle _ n Hidle Hpolls Hn0 Hnf Hrx).
  unfold with_rx.
  unfold driver_receive at 1. cbn [rx_script tx_script tx_log bwt_polls prop_script clock_log].
  change (PROTOCOL_RECEIVE_SUCCESS =? PROTOCOL_RECEIVE_SUCCESS) with true. cbn [negb].
  change (Z.of_nat (length [p; hi; lo]) =? BLOCK_PROLOGUE_LENGTH - 1) with true. cbn [negb].
  change (byte_at [p; hi; lo] 0) with p. change (byte_at [p; hi; lo] 1) with hi.
  change (byte_at [p; hi; lo] 2) with lo.
  rewrite (join16 hi lo Hhi Hlo), Hsize.
  replace (n =? 0x00) with false by (symmetry; apply Z.eqb_neq; exact Hn0).
  assert (Hval : t1prime_validate_crc (mkBlock n p (Z.of_nat (length info)) info)
                   (to_uint16 (Z.lor (Z.shiftl c1 8) c2)) = T1PRIME_VALIDATE_CRC_SUCCESS).
  { apply Z.eqb_eq. rewrite validate_crc_eqb, join16_uint16 by assumption.
    apply Z.eqb_eq. rewrite <- Hcrc. f_equal.
    assert (Hfull : firstn (Z.to_nat (Z.of_nat (length info))) info = info)
      by (rewrite Nat2Z.id; apply firstn_all).
    transitivity (block_crc_input
                    (mkBlock n p (Z.of_nat (length info))
                             (firstn (Z.to_nat (Z.of_nat (length info))) info)));
      [rewrite Hfull; reflexivity|].
    rewrite block_crc_input_firstn by lia. rewrite Hfull.
    destruct (proj1 (divmod256 hi lo (Z.of_nat (length info)) Hlo)) as [<- <-];
      [lia|reflexivity]. }
  destruct (Z.ltb_spec 0 (Z.of_nat (length info))) as [Hpos|Hzero]; cbn [app].
  - unfold driver_receive at 1. cbn [rx_script tx_script tx_log bwt_polls prop_script clock_log].
    change (PROTOCOL_RECEIVE_SUCCESS =? PROTOCOL_RECEIVE_SUCCESS) with true. cbn [negb andb].
    rewrite Z.eqb_refl. cbn [negb].
    unfold driver_receive at 1. cbn [rx_script tx_script tx_log bwt_polls prop_script clock_log].
    change (PROTOCOL_RECEIVE_SUCCESS =? PROTOCOL_RECEIVE_SUCCESS) with true. cbn [negb].
    change (Z.of_nat (length [c1; c2]) =? BLOCK_EPILOGUE_LENGTH) with true. cbn [negb].
    change (byte_at [c1; c2] 0) with c1. change (byte_at [c1; c2] 1) with c2.
    rewrite Hval. change (T1PRIME_VALIDATE_CRC_SUCCESS =? T1PRIME_VALIDATE_CRC_SUCCESS) with true.
    cbn [negb]. reflexivity.
  - assert (Hnil : info = []) by (destruct info; [reflexivity|cbn [length] in Hzero; lia]).
    subst info. cbn [length Z.of_nat] in *.
    change (PROTOCOL_RECEIVE_SUCCESS =? PROTOCOL_RECEIVE_SUCCESS) with true. cbn [negb andb].
    unfold driver_receive at 1. cbn [rx_script tx_script tx_log bwt_polls prop_script clock_log].
    change (PROTOCOL_RECEIVE_SUCCESS =? PROTOCOL_RECEIVE_SUCCESS) with true. cbn [negb].
    change (Z.of_nat (length [c1; c2]) =? BLOCK_EPILOGUE_LENGTH) with true. cbn [negb].
    change (byte_at [c1; c2] 0) with c1. change (byte_at [c1; c2] 1) with c2.
    rewrite Hval. change (T1PRIME_VALIDATE_CRC_SUCCESS =? T1PRIME_VALIDATE_CRC_SUCCESS) with true.
    cbn [negb]. reflexivity.
Qed.

Lemma wf_block_parts (b : Block) :
  wf_block b = true <->
  0 <= nad b < 256 /\ 0 <= pcb b < 256
  /\ information_size b = Z.of_nat (length (information b))
  /\ information_size b <= 0xffff /\ is_bytes (information b) = true.
Proof.
  unfold wf_block. rewrite !andb_true_iff, !is_byte_range, Z.eqb_eq, Z.leb_le. tauto.
Qed.

Lemma div256_byte (v : Z) : 0 <= v < 65536 -> 0 <= v / 256 < 256 /\ 0 <= v mod 256 < 256.
Proof.
  intros Hv. split.
  - split; [apply Z.div_pos; lia | apply Z.div_lt_upper_bound; lia].
  - apply Z.mod_pos_bound. lia.
Qed.

(** What [t1prime_block_encode] produces for a well-formed block, delivered
    in the reads of [t1prime_block_receive], is received as that block. *)
Lemma block_receive_frames (st : T1PrimeProtocolState) (w : World) (b : Block)
    (idle rest : list (Z * list Z)) :
  wf_block b = true ->
  nad b <> 0x00 -> nad b <> 0xff ->
  forallb idle_answer idle = true ->
  (length idle < bwt_polls w)%nat ->
  rx_script w = idle ++ block_frames b ++ rest ->
  t1prime_block_receive st w = (PROTOCOL_RECEIVE_SUCCESS, b, with_rx w rest).
Proof.
  intros Hwf Hn0 Hnf Hidle Hpolls Hrx.
  rewrite (block_frames_wf b Hwf) in Hrx. cbv zeta in Hrx.
  rewrite (block_crc_input_wf b Hwf) in Hrx.
  apply wf_block_parts in Hwf. destruct Hwf as (Hn & Hp & Hsz & Hmax & Hinfo).
  destruct b as [n p size info]. cbn [nad pcb information_size information] in *.
  subst size.
  set (size := Z.of_nat (length info)) in *.
  set (crc := crc16_ccitt_x25 (n :: p :: size / 256 :: size mod 256 :: info)) in *.
  pose proof (crc16_ccitt_x25_range (n :: p :: size / 256 :: size mod 256 :: info)) as Hcrc.
  fold crc in Hcrc.
  destruct (div256_byte size ltac:(lia)) as [Hq Hr].
  destruct (div256_byte crc Hcrc) as [Hcq Hcr].
  apply (block_receive_delivered st w n p (size / 256) (size mod 256)
           (crc / 256) (crc mod 256) info idle rest); try assumption.
  - pose proof (Z.div_mod size 256). lia.
  - fold crc. pose proof (Z.div_mod crc 256). lia.
  - rewrite Hrx, <- !app_assoc. reflexivity.
Qed.

Lemma card_frames_block (pcb0 : Z) (info : list Z) :
  0 <= pcb0 < 256 -> is_bytes info = true -> Z.of_nat (length info) <= 0xffff ->
  card_frames pcb0 info = block_frames (mkBlock 0x12 pcb0 (Z.of_nat (length info)) info).
Proof.
  intros Hp Hinfo Hmax.
  assert (Hwf : wf_block (mkBlock 0x12 pcb0 (Z.of_nat (length info)) info) = true).
  { apply wf_block_parts. cbn [nad pcb information_size information].
    repeat split; try assumption; lia. }
  rewrite (block_frames_wf _ Hwf). cbv zeta. rewrite (block_crc_input_wf _ Hwf).
  cbn [nad pcb information_size information].
  unfold card_frames. set (size := Z.of_nat (length info)).
  destruct (split16 size ltac:(lia)) as (_ & _ & Hhi & Hlo & _).
  change 0x00ff with 0xff. rewrite Hhi, Hlo.
  set (crc := crc16_ccitt_x25 (0x12 :: [pcb0; size / 256; size mod 256] ++ info)).
  change (crc16_ccitt_x25 (0x12 :: pcb0 :: size / 256 :: size mod 256 :: info)) with crc.
  destruct (split16 crc (crc16_ccitt_x25_range _)) as (_ & _ & Hchi & Hclo & _).
  rewrite Hchi, Hclo.
  replace (match info with [] => [] | _ :: _ => [(PROTOCOL_RECEIVE_SUCCESS, info)] end)
    with (if 0 <? size then [(PROTOCOL_RECEIVE_SUCCESS, info)] else []).
  - reflexivity.
  - subst size. destruct info; [reflexivity|].
    cbn [length]. destruct (Z.ltb_spec 0 (Z.of_nat (S (length info)))); [reflexivity|lia].
Qed.


Lemma poll_nad_idle (polls : nat) :
  forall w,
    forallb idle_answer (firstn polls (rx_script w)) = true ->
    poll_nad polls w = (0x00, with_rx w (skipn polls (rx_script w))).
Proof.
  induction polls as [|polls IH]; intros w Hidle.
  - cbn [poll_nad skipn]. rewrite with_rx_same. reflexivity.
  - cbn [poll_nad]. unfold driver_receive.
    destruct (rx_script w) as [|[status buffer] script] eqn:Erx.
    + rewrite IFX_ERROR_eqb_success. rewrite IH by (rewrite Erx, firstn_nil; reflexivity).
      rewrite Erx, !skipn_nil, <- Erx, with_rx_same. reflexivity.
    + cbn [firstn forallb] in Hidle. apply andb_true_iff in Hidle.
      destruct Hidle as [Hhead Htail]. unfold idle_answer in Hhead. cbn [fst snd] in Hhead.
      cbn [skipn].
      change (mkWorld script (tx_script w) (tx_log w) (bwt_polls w) (prop_script w)
                      (clock_log w)) with (with_rx w script).
      rewrite (IH (with_rx w script)) by exact Htail.
      cbn [with_rx rx_script]. rewrite with_rx_with_rx.
      destruct (status =? PROTOCOL_RECEIVE_SUCCESS); [|reflexivity].
      cbn [negb orb] in Hhead. apply negb_true_iff in Hhead. rewrite Hhead. reflexivity.
Qed.

(** When every read of the polling window fails, has another length than one
    byte or brings an idle byte, [t1prime_block_receive] gives up with
    TOO_LITTLE_DATA; the reads of the window are used up and nothing else is
    touched. *)
Theorem block_receive_timeout (st : T1PrimeProtocolState) (w : World) :
  forallb idle_answer (firstn (bwt_polls w) (rx_script w)) = true ->
  t1prime_block_receive st w
  = (IFX_ERROR LIBT1PRIME PROTOCOL_RECEIVE TOO_LITTLE_DATA, mkBlock 0x00 0 0 [],
     with_rx w (skipn (bwt_polls w) (rx_script w))).
Proof.
  intros Hidle. unfold t1prime_block_receive. rewrite (poll_nad_idle _ _ Hidle). reflexivity.
Qed.

Lemma block_receive_timeout_witness :
  forallb idle_answer
    (firstn 2 [(PROTOCOL_RECEIVE_SUCCESS, [0x00]); (PROTOCOL_RECEIVE_SUCCESS, [0xff]);
               (PROTOCOL_RECEIVE_SUCCESS, [0x12])]) = true
  /\ t1prime_block_receive (snd (t1prime_get_protocol_state None))
       (mkWorld [(PROTOCOL_RECEIVE_SUCCESS, [0x00]); (PROTOCOL_RECEIVE_SUCCESS, [0xff]);
                 (PROTOCOL_RECEIVE_SUCCESS, [0x12])] [] [] 2 [] [])
     = (IFX_ERROR LIBT1PRIME PROTOCOL_RECEIVE TOO_LITTLE_DATA, mkBlock 0x00 0 0 [],
        mkWorld [(PROTOCOL_RECEIVE_SUCCESS, [0x12])] [] [] 2 [] []).
Proof.
  split; [reflexivity|].
  exact (block_receive_timeout (snd (t1prime_get_protocol_state None))
           (mkWorld [(PROTOCOL_RECEIVE_SUCCESS, [0x00]); (PROTOCOL_RECEIVE_SUCCESS, [0xff]);
                     (PROTOCOL_RECEIVE_SUCCESS, [0x12])] [] [] 2 [] [])
           eq_refl).
Defined.




(** ** Invariants of [t1prime_transceive]

    A relation between the session and environment before and after that is
    reflexive and transitive, holds across every block exchange and across
    the updates of the counters and of the WTX delay, holds across the whole
    call. *)
Section TransceiveInvariant.

Variable R : T1PrimeProtocolState -> World -> T1PrimeProtocolState -> World -> Prop.

Hypothesis R_refl : forall st w, R st w st w.
Hypothesis R_trans :
  forall st1 w1 st2 w2 st3 w3, R st1 w1 st2 w2 -> R st2 w2 st3 w3 -> R st1 w1 st3 w3.
Hypothesis R_block :
  forall st b w status response st' w',
    t1prime_block_transceive st b w = (status, response, st', w') -> R st w st' w'.
Hypothesis R_send_counter :
  forall st w, R st w (set_send_counter (Z.lxor (send_counter st) 0x01) st) w.
Hypothesis R_receive_counter :
  forall st w, R st w (set_receive_counter (Z.lxor (receive_counter st) 0x01) st) w.
Hypothesis R_wtx_delay : forall st w v, R st w (set_wtx_delay v st) w.

Lemma send_step_invariant (data : list Z) (v : SendVars) (st : T1PrimeProtocolState)
    (w : World) :
  match send_step data v st w with
  | SendReturn _ st' w' | SendBreak _ st' w' | SendContinue _ st' w' => R st w st' w'
  end.
Proof.
  unfold send_step.
  destruct (t1prime_block_transceive st (transmission_block v) w)
    as [[[status response_block] st1] w1] eqn:Htr.
  apply R_block in Htr.
  destruct (t1prime_ifs_decode (information response_block)
                               (information_size response_block));
    repeat match goal with
           | |- context [if ?c then _ else _] => destruct c
           end;
    cbv beta iota;
    first [ exact Htr
          | eapply R_trans; [exact Htr|]; first [apply R_send_counter | apply R_wtx_delay] ].
Qed.

Lemma send_loop_invariant (fuel : nat) :
  forall (data : list Z) (v : SendVars) (st : T1PrimeProtocolState) (w : World),
    match send_loop fuel data v st w with
    | Some (SendReturn _ st' w') | Some (SendBreak _ st' w')
    | Some (SendContinue _ st' w') => R st w st' w'
    | None => True
    end.
Proof.
  induction fuel as [|fuel IH]; intros data v st w; cbn [send_loop]; [exact I|].
  pose proof (send_step_invariant data v st w) as Hstep.
  destruct (send_step data v st w) as [status st' w'|rb st' w'|v' st' w'];
    try exact Hstep.
  specialize (IH data v' st' w').
  destruct (send_loop fuel data v' st' w') as [[? st2 w2|? st2 w2|? st2 w2]|];
    cbv beta iota in *; try exact I; eapply R_trans; eassumption.
Qed.

Lemma recv_step_invariant (rb : Block) (response : option (list Z))
    (st : T1PrimeProtocolState) (w : World) :
  match recv_step rb response st w with
  | RecvReturn _ _ st' w' | RecvContinue _ _ st' w' => R st w st' w'
  end.
Proof.
  unfold recv_step.
  destruct (T1PRIME_PCB_IS_I (pcb rb)).
  - destruct (negb (T1PRIME_PCB_I_GET_NS (pcb rb) =? receive_counter st));
      [apply R_refl|].
    match goal with
    | |- context [match ?m with Some _ => _ | None => _ end] =>
        destruct m; [|apply R_refl]
    end.
    destruct (T1PRIME_PCB_I_HAS_MORE (pcb rb)); [|apply R_receive_counter].
    match goal with
    | |- context [t1prime_block_transceive ?s ?b ?x] =>
        destruct (t1prime_block_transceive s b x) as [[[status rb'] st1] w1] eqn:Htr
    end.
    apply R_block in Htr.
    destruct (negb (status =? PROTOCOL_TRANSCEIVE_SUCCESS));
      (eapply R_trans; [apply R_receive_counter|exact Htr]).
  - destruct (T1PRIME_PCB_IS_R (pcb rb)).
    + match goal with
      | |- context [t1prime_block_transceive ?s ?b ?x] =>
          destruct (t1prime_block_transceive s b x) as [[[status rb'] st1] w1] eqn:Htr
      end.
      apply R_block in Htr.
      destruct (negb (status =? PROTOCOL_TRANSCEIVE_SUCCESS)); exact Htr.
    + destruct (pcb rb =? T1PRIME_PCB_S_ABORT_REQ); [|apply R_refl].
      match goal with
      | |- context [t1prime_block_transceive ?s ?b ?x] =>
          destruct (t1prime_block_transceive s b x) as [[[status rb'] st1] w1] eqn:Htr
      end.
      apply R_block in Htr. exact Htr.
Qed.

Lemma recv_loop_invariant (fuel : nat) :
  forall (rb : Block) (response : option (list Z)) (st : T1PrimeProtocolState)
         (w : World),
    match recv_loop fuel rb response st w with
    | Some (_, _, st', w') => R st w st' w'
    | None => True
    end.
Proof.
  induction fuel as [|fuel IH]; intros rb response st w; cbn [recv_loop]; [exact I|].
  pose proof (recv_step_invariant rb response st w) as Hstep.
  destruct (recv_step rb response st w) as [status r' st' w'|rb' r' st' w'];
    [exact Hstep|].
  specialize (IH rb' r' st' w').
  destruct (recv_loop fuel rb' r' st' w') as [[[[? ?] st2] w2]|]; [|exact I].
  cbv beta iota in *. eapply R_trans; eassumption.
Qed.

Lemma transceive_invariant (st : T1PrimeProtocolState) (data : list Z) (w : World)
    (status : Z) (response : option (list Z)) (st' : T1PrimeProtocolState) (w' : World) :
  t1prime_transceive st data w = Some (status, response, st', w') -> R st w st' w'.
Proof.
  unfold t1prime_transceive, transceive_send.
  destruct (Z.of_nat (length data) =? 0).
  { intros H. injection H as _ _ <- <-. apply R_refl. }
  pose proof (send_loop_invariant (loop_fuel w) data (send_init st data) st w) as Hsend.
  destruct (send_loop (loop_fuel w) data (send_init st data) st w)
    as [[s1 st1 w1|rb st1 w1|v1 st1 w1]|]; try discriminate.
  - intros H. injection H as _ _ <- <-. exact Hsend.
  - pose proof (recv_loop_invariant (loop_fuel w1) rb None st1 w1) as Hrecv.
    intros H. rewrite H in Hrecv. eapply R_trans; eassumption.
Qed.

End TransceiveInvariant.

(** *** The sequence counters stay bits *)


Lemma lxor_bit (v : Z) : is_bit v -> is_bit (Z.lxor v 0x01).
Proof. intros [->| ->]; [right|left]; reflexivity. Qed.

Lemma block_transceive_bits (st : T1PrimeProtocolState) (b : Block) (w : World)
    (status : Z) (response : Block) (st' : T1PrimeProtocolState) (w' : World) :
  t1prime_block_transceive st b w = (status, response, st', w') -> bits_kept st w st' w'.
Proof.
  intros H. destruct (block_transceive_spec _ _ _ _ _ _ _ H) as ((_ & _ & _ & Hs & Hr) & _).
  unfold bits_kept. rewrite Hs, Hr. auto.
Qed.

Lemma transceive_bits (st : T1PrimeProtocolState) (data : list Z) (w : World)
    (status : Z) (response : option (list Z)) (st' : T1PrimeProtocolState) (w' : World) :
  t1prime_transceive st data w = Some (status, response, st', w') -> bits_kept st w st' w'.
Proof.
  apply (transceive_invariant bits_kept); unfold bits_kept.
  - auto.
  - auto.
  - apply block_transceive_bits.
  - intros s x [Hs Hr]. split; [apply lxor_bit, Hs|exact Hr].
  - intros s x [Hs Hr]. split; [exact Hs|apply lxor_bit, Hr].
  - intros s x v H. exact H.
Qed.

Lemma s_resynch_bits (st : T1PrimeProtocolState) (w : World) :
  bits_kept st w (snd (fst (s_resynch st w))) (snd (s_resynch st w)).
Proof.
  unfold s_resynch.
  destruct (t1prime_block_transceive st _ w) as [[[status response] st1] w1] eqn:Htr.
  apply block_transceive_bits in Htr.
  repeat match goal with
         | |- context [if ?c then _ else _] => destruct c
         end; cbn [fst snd]; try exact Htr.
  intros _. split; left; reflexivity.
Qed.

Lemma s_swr_bits (st : T1PrimeProtocolState) (w : World) :
  bits_kept st w (snd (fst (s_swr st w))) (snd (s_swr st w)).
Proof.
  unfold s_swr.
  destruct (t1prime_block_transceive st _ w) as [[[status response] st1] w1] eqn:Htr.
  apply block_transceive_bits in Htr.
  repeat match goal with
         | |- context [if ?c then _ else _] => destruct c
         end; cbn [fst snd]; try exact Htr.
  intros _. split; left; reflexivity.
Qed.

Lemma s_cip_bits (st : T1PrimeProtocolState) (w : World) :
  bits_kept st w (snd (fst (s_cip st w))) (snd (s_cip st w)).
Proof.
  unfold s_cip.
  destruct (t1prime_block_transceive st _ w) as [[[status response] st1] w1] eqn:Htr.
  apply block_transceive_bits in Htr.
  destruct (t1prime_cip_decode (information response) (information_size response));
    repeat match goal with
           | |- context [if ?c then _ else _] => destruct c
           end; cbn [fst snd]; exact Htr.
Qed.

Lemma set_ifsd_bits (st : T1PrimeProtocolState) (ifsd : Z) (w : World) :
  bits_kept st w (snd (fst (t1prime_set_ifsd st ifsd w))) (snd (t1prime_set_ifsd st ifsd w)).
Proof.
  unfold t1prime_set_ifsd.
  destruct (t1prime_ifs_encode ifsd) as [encoded|e]; [|unfold bits_kept; auto].
  destruct (t1prime_block_transceive st _ w) as [[[status response] st1] w1] eqn:Htr.
  apply block_transceive_bits in Htr.
  destruct (t1prime_ifs_decode (information response) (information_size response));
    repeat match goal with
           | |- context [if ?c then _ else _] => destruct c
           end; cbn [fst snd]; exact Htr.
Qed.

Lemma activate_bits (st : T1PrimeProtocolState) (w : World) :
  bits_kept st w (snd (fst (t1prime_activate st w))) (snd (t1prime_activate st w)).
Proof.
  unfold t1prime_activate.
  destruct (i2c_set_clock_frequency T1PRIME_DEFAULT_I2C_CLOCK_FREQUENCY w) as [status0 w0].
  destruct (negb (status0 =? PROTOCOL_SETPROPERTY_SUCCESS));
    [unfold bits_kept; cbn; auto|].
  pose proof (s_cip_bits (set_bwt T1PRIME_DEFAULT_BWT (set_ifsc T1PRIME_DEFAULT_IFSC st)) w0)
    as Hcip.
  destruct (s_cip (set_bwt T1PRIME_DEFAULT_BWT (set_ifsc T1PRIME_DEFAULT_IFSC st)) w0)
    as [[[status1 cip] st1] w1].
  cbn [fst snd] in Hcip.
  assert (Hcip' : bits_kept st w st1 w1) by exact Hcip.
  destruct cip as [cip|]; [|exact Hcip'].
  destruct (t1prime_dllp_decode (dllp cip) (dllp_len cip)) as [dllp0|e]; [|exact Hcip'].
  destruct (plid cip =? PLID_I2C).
  - destruct (t1prime_i2c_plp_decode (plp cip) (plp_len cip)) as [plp0|e]; [|exact Hcip'].
    match goal with
    | |- context [i2c_set_clock_frequency ?f ?x] =>
        destruct (i2c_set_clock_frequency f x) as [status2 w2]
    end.
    destruct (negb (status2 =? PROTOCOL_SETPROPERTY_SUCCESS)); [exact Hcip'|].
    match goal with
    | |- context [s_resynch ?s ?x] => pose proof (s_resynch_bits s x) as Hre
    end.
    intros Hb. apply Hre. exact (Hcip' Hb).
  - destruct (plid cip =? PLID_SPI); exact Hcip'.
Qed.

(** *** No frame above the IFSC *)


Lemma sent_within_refl (limit : Z) (w : World) : sent_within limit w w.
Proof. exists []. rewrite app_nil_r. split; [reflexivity|constructor]. Qed.

Lemma sent_within_trans (limit : Z) (w1 w2 w3 : World) :
  sent_within limit w1 w2 -> sent_within limit w2 w3 -> sent_within limit w1 w3.
Proof.
  intros (s1 & H1 & F1) (s2 & H2 & F2). exists (s1 ++ s2).
  split; [rewrite H2, H1, app_assoc; reflexivity|apply Forall_app; split; assumption].
Qed.

Lemma length_block_encode (b : Block) :
  Z.of_nat (length (t1prime_block_encode b))
  = BLOCK_PROLOGUE_LENGTH
    + Z.of_nat (length (if 0 <? information_size b
                        then memcpy (information b) 0 (information_size b) else []))
    + BLOCK_EPILOGUE_LENGTH.
Proof.
  unfold t1prime_block_encode, block_crc_input. rewrite !length_app. cbn [length].
  unfold BLOCK_PROLOGUE_LENGTH, BLOCK_EPILOGUE_LENGTH. lia.
Qed.

Lemma block_encode_fits (b : Block) (limit : Z) :
  0 <= limit -> information_size b <= limit -> frame_fits limit (t1prime_block_encode b).
Proof.
  intros Hl Hsize. unfold frame_fits. rewrite length_block_encode.
  destruct (Z.ltb_spec 0 (information_size b)) as [Hpos|Hzero].
  - unfold memcpy. rewrite length_firstn. lia.
  - cbn [length]. lia.
Qed.

Lemma block_transmit_fits (st : T1PrimeProtocolState) (block : Block) (w : World) :
  0 <= ifsc st -> sent_within (ifsc st) w (snd (t1prime_block_transmit st block w)).
Proof.
  intros Hl. unfold t1prime_block_transmit.
  destruct (Z.ltb_spec (ifsc st) (information_size block)) as [H|H]; cbn [snd].
  - apply sent_within_refl.
  - exists [t1prime_block_encode block]. split; [reflexivity|].
    constructor; [apply block_encode_fits; assumption|constructor].
Qed.

Lemma block_receive_log (st : T1PrimeProtocolState) (w : World) :
  tx_log (snd (t1prime_block_receive st w)) = tx_log w.
Proof. exact (proj1 (proj1 (block_receive_consumed st w))). Qed.

Lemma block_transceive_attempt_fits (block to_send : Block)
    (st : T1PrimeProtocolState) (w : World) :
  0 <= ifsc st ->
  sent_within (ifsc st) w (snd (block_transceive_attempt block to_send st w)).
Proof.
  intros Hl. unfold block_transceive_attempt.
  pose proof (block_transmit_fits st to_send w Hl) as Htx.
  destruct (t1prime_block_transmit st to_send w) as [status w1]. cbn [snd] in Htx.
  destruct (negb (status =? PROTOCOL_TRANSMIT_SUCCESS)); [exact Htx|].
  match goal with
  | |- context [t1prime_block_receive ?s ?x] =>
      pose proof (block_receive_log s x) as Hrx;
      destruct (t1prime_block_receive s x) as [[rstatus rblock] w2]
  end.
  cbn [snd] in *. destruct Htx as (sent & Hlog & Hfit).
  exists sent. split; [congruence|exact Hfit].
Qed.

Lemma block_transceive_loop_fits (retries : nat) :
  forall (block to_send : Block) (st : T1PrimeProtocolState) (w : World),
    0 <= ifsc st ->
    sent_within (ifsc st) w (snd (block_transceive_loop retries block to_send st w)).
Proof.
  induction retries as [|retries IH]; intros block to_send st w Hl;
    cbn [block_transceive_loop];
    pose proof (block_transceive_attempt_fits block to_send st w Hl) as Hat;
    destruct (block_transceive_attempt block to_send st w) as [[[outcome r1] st1] w1] eqn:E;
    cbn [snd] in Hat;
    destruct outcome as [s|s]; cbn [snd]; try exact Hat.
  destruct (block_transceive_attempt_spec _ _ _ _ _ _ _ _ E) as ((_ & _ & Hifsc & _) & _).
  eapply sent_within_trans; [exact Hat|].
  rewrite <- Hifsc. apply IH. lia.
Qed.

Lemma block_transceive_link_and_frames (st : T1PrimeProtocolState) (b : Block) (w : World)
    (status : Z) (response : Block) (st' : T1PrimeProtocolState) (w' : World) :
  t1prime_block_transceive st b w = (status, response, st', w') ->
  link_and_frames st w st' w'.
Proof.
  intros H Hl. split; [eapply block_transceive_link; exact H|].
  pose proof (block_transceive_loop_fits T1PRIME_BLOCK_TRANSCEIVE_RETRIES b b st w Hl) as Hf.
  unfold t1prime_block_transceive in H. rewrite H in Hf. exact Hf.
Qed.

Lemma link_and_frames_trans st1 w1 st2 w2 st3 w3 :
  link_and_frames st1 w1 st2 w2 -> link_and_frames st2 w2 st3 w3 ->
  link_and_frames st1 w1 st3 w3.
Proof.
  intros H12 H23 Hl. destruct (H12 Hl) as [L12 S12].
  assert (Hi : ifsc st2 = ifsc st1) by apply L12.
  destruct (H23 ltac:(lia)) as [L23 S23].
  split; [eapply same_link_trans; eassumption|].
  eapply sent_within_trans; [exact S12|]. rewrite <- Hi. exact S23.
Qed.

Lemma transceive_link_and_frames (st : T1PrimeProtocolState) (data : list Z) (w : World)
    (status : Z) (response : option (list Z)) (st' : T1PrimeProtocolState) (w' : World) :
  t1prime_transceive st data w = Some (status, response, st', w') ->
  link_and_frames st w st' w'.
Proof.
  apply (transceive_invariant link_and_frames).
  - intros s x _. split; [apply same_link_refl|apply sent_within_refl].
  - apply link_and_frames_trans.
  - apply block_transceive_link_and_frames.
  - intros s x _. split; [unfold same_link; cbn; auto|apply sent_within_refl].
  - intros s x _. split; [unfold same_link; cbn; auto|apply sent_within_refl].
  - intros s x v _. split; [unfold same_link; cbn; auto|apply sent_within_refl].
Qed.

(** *** The calls end, and how much they send *)


Lemma block_transceive_effort (st : T1PrimeProtocolState) (b : Block) (w : World)
    (status : Z) (response : Block) (st' : T1PrimeProtocolState) (w' : World) :
  t1prime_block_transceive st b w = (status, response, st', w') ->
  (effort w' <= effort w + 3)%nat /\ (status = SUCCESS -> (effort w' <= effort w)%nat).
Proof.
  intros H.
  destruct (block_transceive_spec _ _ _ _ _ _ _ H) as (_ & Hle & _ & Hlt & k & Hk & Hlog).
  unfold effort. rewrite Hlog, length_app, length_firstn. cbn [length].
  split; [lia|]. intros Hs. specialize (Hlt Hs). lia.
Qed.

Lemma send_step_effort (data : list Z) (v : SendVars) (st : T1PrimeProtocolState)
    (w : World) :
  match send_step data v st w with
  | SendReturn _ _ w' => (effort w' <= effort w + 3)%nat
  | SendBreak _ _ w' | SendContinue _ _ w' => (effort w' <= effort w)%nat
  end.
Proof.
  unfold send_step.
  destruct (t1prime_block_transceive st (transmission_block v) w)
    as [[[status response_block] st1] w1] eqn:Htr.
  destruct (block_transceive_effort _ _ _ _ _ _ _ Htr) as [Hany Hok].
  destruct (Z.eqb_spec status PROTOCOL_TRANSCEIVE_SUCCESS) as [Hs|Hs]; cbn [negb];
    [specialize (Hok Hs)|exact Hany].
  destruct (t1prime_ifs_decode (information response_block)
                               (information_size response_block));
    repeat match goal with
           | |- context [if ?c then _ else _] => destruct c
           end;
    cbv beta iota; lia.
Qed.

Lemma send_loop_effort (fuel : nat) :
  forall (data : list Z) (v : SendVars) (st : T1PrimeProtocolState) (w : World),
    match send_loop fuel data v st w with
    | Some (SendReturn _ _ w') => (effort w' <= effort w + 3)%nat
    | Some (SendBreak _ _ w') | Some (SendContinue _ _ w') => (effort w' <= effort w)%nat
    | None => True
    end.
Proof.
  induction fuel as [|fuel IH]; intros data v st w; cbn [send_loop]; [exact I|].
  pose proof (send_step_effort data v st w) as Hstep.
  destruct (send_step data v st w) as [status st' w'|rb st' w'|v' st' w'];
    try exact Hstep.
  specialize (IH data v' st' w').
  destruct (send_loop fuel data v' st' w') as [[? st2 w2|? st2 w2|? st2 w2]|];
    cbv beta iota in *; try exact I; lia.
Qed.

Lemma recv_step_effort (rb : Block) (response : option (list Z))
    (st : T1PrimeProtocolState) (w : World) :
  match recv_step rb response st w with
  | RecvReturn _ _ _ w' => (effort w' <= effort w + 3)%nat
  | RecvContinue _ _ _ w' => (effort w' <= effort w)%nat
  end.
Proof.
  unfold recv_step.
  destruct (T1PRIME_PCB_IS_I (pcb rb)).
  - destruct (negb (T1PRIME_PCB_I_GET_NS (pcb rb) =? receive_counter st)); [lia|].
    match goal with
    | |- context [match ?m with Some _ => _ | None => _ end] => destruct m; [|lia]
    end.
    destruct (T1PRIME_PCB_I_HAS_MORE (pcb rb)); [|lia].
    match goal with
    | |- context [t1prime_block_transceive ?s ?b ?x] =>
        destruct (t1prime_block_transceive s b x) as [[[status rb'] st1] w1] eqn:Htr
    end.
    destruct (block_transceive_effort _ _ _ _ _ _ _ Htr) as [Hany Hok].
    destruct (Z.eqb_spec status PROTOCOL_TRANSCEIVE_SUCCESS) as [Hs|Hs]; cbn [negb];
      [exact (Hok Hs)|exact Hany].
  - destruct (T1PRIME_PCB_IS_R (pcb rb)).
    + match goal with
      | |- context [t1prime_block_transceive ?s ?b ?x] =>
          destruct (t1prime_block_transceive s b x) as [[[status rb'] st1] w1] eqn:Htr
      end.
      destruct (block_transceive_effort _ _ _ _ _ _ _ Htr) as [Hany Hok].
      destruct (Z.eqb_spec status PROTOCOL_TRANSCEIVE_SUCCESS) as [Hs|Hs]; cbn [negb];
        [exact (Hok Hs)|exact Hany].
    + destruct (pcb rb =? T1PRIME_PCB_S_ABORT_REQ); [|lia].
      match goal with
      | |- context [t1prime_block_transceive ?s ?b ?x] =>
          destruct (t1prime_block_transceive s b x) as [[[status rb'] st1] w1] eqn:Htr
      end.
      exact (proj1 (block_transceive_effort _ _ _ _ _ _ _ Htr)).
Qed.

Lemma recv_loop_effort (fuel : nat) :
  forall (rb : Block) (response : option (list Z)) (st : T1PrimeProtocolState) (w : World),
    match recv_loop fuel rb response st w with
    | Some (_, _, _, w') => (effort w' <= effort w + 3)%nat
    | None => True
    end.
Proof.
  induction fuel as [|fuel IH]; intros rb response st w; cbn [recv_loop]; [exact I|].
  pose proof (recv_step_effort rb response st w) as Hstep.
  destruct (recv_step rb response st w) as [status r' st' w'|rb' r' st' w'];
    [exact Hstep|].
  specialize (IH rb' r' st' w').
  destruct (recv_loop fuel rb' r' st' w') as [[[[? ?] st2] w2]|]; [|exact I].
  cbv beta iota in *. lia.
Qed.

Lemma transceive_effort (st : T1PrimeProtocolState) (data : list Z) (w : World)
    (status : Z) (response : option (list Z)) (st' : T1PrimeProtocolState) (w' : World) :
  t1prime_transceive st data w = Some (status, response, st', w') ->
  (effort w' <= effort w + 3)%nat.
Proof.
  unfold t1prime_transceive, transceive_send.
  destruct (Z.of_nat (length data) =? 0).
  { intros H. injection H as _ _ _ <-. lia. }
  pose proof (send_loop_effort (loop_fuel w) data (send_init st data) st w) as Hsend.
  destruct (send_loop (loop_fuel w) data (send_init st data) st w)
    as [[s1 st1 w1|rb st1 w1|v1 st1 w1]|]; try discriminate.
  - intros H. injection H as _ _ _ <-. exact Hsend.
  - pose proof (recv_loop_effort (loop_fuel w1) rb None st1 w1) as Hrecv.
    intros H. rewrite H in Hrecv. lia.
Qed.

Lemma transceive_rx_length (st : T1PrimeProtocolState) (data : list Z) (w : World)
    (status : Z) (response : option (list Z)) (st' : T1PrimeProtocolState) (w' : World) :
  t1prime_transceive st data w = Some (status, response, st', w') ->
  (length (rx_script w') <= length (rx_script w))%nat.
Proof.
  apply (transceive_invariant
           (fun _ x _ x' => (length (rx_script x') <= length (rx_script x))%nat));
    try (intros; lia).
  intros s b x status0 r s' x' Htr.
  exact (proj1 (proj2 (block_transceive_spec _ _ _ _ _ _ _ Htr))).
Qed.

(** Whatever the card sends in the finitely many receptions that the driver
    still serves, [t1prime_transceive] returns: its two loops end because
    every round that goes on has read a block; and it has then handed at most
    three frames per block read, plus three, to the driver. *)
Theorem transceive_returns (st : T1PrimeProtocolState) (data : list Z) (w : World) :
  exists status response st' w',
    t1prime_transceive st data w = Some (status, response, st', w')
    /\ (length (rx_script w') <= length (rx_script w))%nat
    /\ (length (tx_log w')
        <= length (tx_log w)
           + 3 * (length (rx_script w) - length (rx_script w') + 1))%nat.
Proof.
  destruct (t1prime_transceive_total st data w) as (status & response & st' & w' & H).
  exists status, response, st', w'. split; [exact H|].
  pose proof (transceive_effort _ _ _ _ _ _ _ H) as He. unfold effort in He.
  pose proof (transceive_rx_length _ _ _ _ _ _ _ H) as Hrx.
  split; [exact Hrx|lia].
Qed.

(** *** A waiting time extension is used once *)

Lemma block_transceive_attempt_wtx (block to_send response : Block)
    (st st1 : T1PrimeProtocolState) (w w1 : World) :
  block_transceive_attempt block to_send st w = (Done SUCCESS, response, st1, w1) ->
  wtx_delay st1 <= 0.
Proof.
  unfold block_transceive_attempt.
  destruct (t1prime_block_transmit st to_send w) as [status wt].
  destruct (Z.eqb_spec status PROTOCOL_TRANSMIT_SUCCESS) as [Hs|Hs]; cbn [negb].
  - destruct (t1prime_block_receive _ wt) as [[rstatus rblock] w2].
    intros H. injection H as _ _ <- _.
    destruct (Z.ltb_spec 0 (wtx_delay st)); [cbn [wtx_delay set_wtx_delay]|]; lia.
  - intros H. injection H as H _ _ _. contradiction.
Qed.

Lemma block_transceive_loop_wtx (retries : nat) :
  forall (block to_send response : Block) (st st' : T1PrimeProtocolState) (w w' : World),
    block_transceive_loop retries block to_send st w = (SUCCESS, response, st', w') ->
    wtx_delay st' <= 0.
Proof.
  induction retries as [|retries IH]; intros block to_send response st st' w w';
    cbn [block_transceive_loop];
    destruct (block_transceive_attempt block to_send st w) as [[[outcome r1] st1] w1] eqn:Hat;
    destruct (block_transceive_attempt_spec _ _ _ _ _ _ _ _ Hat)
      as (_ & _ & _ & _ & _ & Hretry);
    destruct outcome as [s|s].
  - intros H. injection H as -> _ <- _. eapply block_transceive_attempt_wtx. exact Hat.
  - intros H. injection H as -> _ _ _. destruct (Hretry SUCCESS eq_refl) as [Hs _].
    now contradiction Hs.
  - intros H. injection H as -> _ <- _. eapply block_transceive_attempt_wtx. exact Hat.
  - apply IH.
Qed.

Lemma block_transceive_wtx (st st' : T1PrimeProtocolState) (b response : Block)
    (w w' : World) :
  t1prime_block_transceive st b w = (PROTOCOL_TRANSCEIVE_SUCCESS, response, st', w') ->
  wtx_delay st' <= 0.
Proof. apply block_transceive_loop_wtx. Qed.

Lemma send_step_wtx (data : list Z) (v : SendVars) (st st' : T1PrimeProtocolState)
    (w w' : World) (rb : Block) :
  send_step data v st w = SendBreak rb st' w' -> wtx_delay st' <= 0.
Proof.
  unfold send_step.
  destruct (t1prime_block_transceive st (transmission_block v) w)
    as [[[status response_block] st1] w1] eqn:Htr.
  destruct (Z.eqb_spec status PROTOCOL_TRANSCEIVE_SUCCESS) as [Hs|Hs]; cbn [negb];
    [subst status; apply block_transceive_wtx in Htr|discriminate].
  destruct (t1prime_ifs_decode (information response_block)
                               (information_size response_block));
    repeat match goal with
           | |- context [if ?c then _ else _] => destruct c
           end;
    intros H; try discriminate H; injection H as _ <- _; exact Htr.
Qed.

Lemma send_loop_wtx (fuel : nat) :
  forall (data : list Z) (v : SendVars) (st st' : T1PrimeProtocolState) (w w' : World)
         (rb : Block),
    send_loop fuel data v st w = Some (SendBreak rb st' w') -> wtx_delay st' <= 0.
Proof.
  induction fuel as [|fuel IH]; intros data v st st' w w' rb; cbn [send_loop];
    [discriminate|].
  destruct (send_step data v st w) as [status st1 w1|rb1 st1 w1|v1 st1 w1] eqn:Hstep.
  - discriminate.
  - intros H. injection H as _ <- _. eapply send_step_wtx. exact Hstep.
  - apply IH.
Qed.

Lemma recv_step_wtx (rb : Block) (response : option (list Z))
    (st : T1PrimeProtocolState) (w : World) :
  wtx_delay st <= 0 ->
  match recv_step rb response st w with
  | RecvReturn status _ st' _ => status = PROTOCOL_TRANSCEIVE_SUCCESS -> wtx_delay st' <= 0
  | RecvContinue _ _ st' _ => wtx_delay st' <= 0
  end.
Proof.
  intros Hw. unfold recv_step.
  destruct (T1PRIME_PCB_IS_I (pcb rb)).
  - destruct (negb (T1PRIME_PCB_I_GET_NS (pcb rb) =? receive_counter st));
      [intros H; now apply IFX_ERROR_not_success in H|].
    match goal with
    | |- context [match ?m with Some _ => _ | None => _ end] =>
        destruct m; [|intros H; now apply IFX_ERROR_not_success in H]
    end.
    destruct (T1PRIME_PCB_I_HAS_MORE (pcb rb)); [|intros _; exact Hw].
    match goal with
    | |- context [t1prime_block_transceive ?s ?b ?x] =>
        destruct (t1prime_block_transceive s b x) as [[[status rb'] st1] w1] eqn:Htr
    end.
    destruct (Z.eqb_spec status PROTOCOL_TRANSCEIVE_SUCCESS) as [Hs|Hs]; cbn [negb];
      [subst status; eapply block_transceive_wtx; exact Htr|intros H; contradiction].
  - destruct (T1PRIME_PCB_IS_R (pcb rb)).
    + match goal with
      | |- context [t1prime_block_transceive ?s ?b ?x] =>
          destruct (t1prime_block_transceive s b x) as [[[status rb'] st1] w1] eqn:Htr
      end.
      destruct (Z.eqb_spec status PROTOCOL_TRANSCEIVE_SUCCESS) as [Hs|Hs]; cbn [negb];
        [subst status; eapply block_transceive_wtx; exact Htr|intros H; contradiction].
    + destruct (pcb rb =? T1PRIME_PCB_S_ABORT_REQ).
      * match goal with
        | |- context [t1prime_block_transceive ?s ?b ?x] =>
            destruct (t1prime_block_transceive s b x) as [[[status rb'] st1] w1] eqn:Htr
        end.
        intros H. now apply IFX_ERROR_not_success in H.
      * intros H. now apply IFX_ERROR_not_success in H.
Qed.

Lemma recv_loop_wtx (fuel : nat) :
  forall (rb : Block) (response response' : option (list Z))
         (st st' : T1PrimeProtocolState) (w w' : World),
    wtx_delay st <= 0 ->
    recv_loop fuel rb response st w = Some (PROTOCOL_TRANSCEIVE_SUCCESS, response', st', w') ->
    wtx_delay st' <= 0.
Proof.
  induction fuel as [|fuel IH]; intros rb response response' st st' w w' Hw;
    cbn [recv_loop]; [discriminate|].
  pose proof (recv_step_wtx rb response st w Hw) as Hstep.
  destruct (recv_step rb response st w) as [status r1 st1 w1|rb1 r1 st1 w1].
  - intros H. injection H as -> _ <- _. apply Hstep. reflexivity.
  - apply IH. exact Hstep.
Qed.

(** The first loop only returns with an error; success comes out of the
    second loop. *)
Lemma send_step_return_error (data : list Z) (v : SendVars)
    (st st' : T1PrimeProtocolState) (w w' : World) (status : Z) :
  send_step data v st w = SendReturn status st' w' -> status <> SUCCESS.
Proof.
  unfold send_step.
  destruct (t1prime_block_transceive st (transmission_block v) w)
    as [[[status0 response_block] st1] w1].
  destruct (Z.eqb_spec status0 PROTOCOL_TRANSCEIVE_SUCCESS) as [Hs|Hs]; cbn [negb];
    [|intros H; injection H as <- _ _; exact Hs].
  destruct (t1prime_ifs_decode (information response_block)
                               (information_size response_block)) as [ifs|e] eqn:Hdec;
    [|apply ifs_decode_error in Hdec; subst e];
    repeat match goal with
           | |- context [if ?c then _ else _] => destruct c
           end;
    intros H; try discriminate H; injection H as <- _ _; apply IFX_ERROR_not_success.
Qed.

Lemma send_loop_return_error (fuel : nat) :
  forall (data : list Z) (v : SendVars) (st st' : T1PrimeProtocolState) (w w' : World)
         (status : Z),
    send_loop fuel data v st w = Some (SendReturn status st' w') -> status <> SUCCESS.
Proof.
  induction fuel as [|fuel IH]; intros data v st st' w w' status; cbn [send_loop];
    [discriminate|].
  destruct (send_step data v st w) as [s1 st1 w1|rb1 st1 w1|v1 st1 w1] eqn:Hstep.
  - intros H. injection H as <- _ _. eapply send_step_return_error. exact Hstep.
  - discriminate.
  - apply IH.
Qed.

(** After a call of [t1prime_transceive] that succeeds no waiting time
    extension is pending: the test [wtx_delay > 0] that opens the next block
    exchange fails ([wtx_delay] is a [size_t], so it is 0), whatever
    S(WTX request) blocks the card sent during the call. *)
Theorem transceive_leaves_no_wtx_delay (st : T1PrimeProtocolState) (data : list Z)
    (w : World) (response : option (list Z)) (st' : T1PrimeProtocolState) (w' : World) :
  t1prime_transceive st data w = Some (PROTOCOL_TRANSCEIVE_SUCCESS, response, st', w') ->
  (0 <? wtx_delay st') = false.
Proof.
  intros H. apply Z.ltb_ge. revert H.
  unfold t1prime_transceive, transceive_send.
  destruct (Z.of_nat (length data) =? 0).
  { intros H. injection H as H _ _ _. now apply IFX_ERROR_not_success in H. }
  destruct (send_loop (loop_fuel w) data (send_init st data) st w)
    as [[s1 st1 w1|rb st1 w1|v1 st1 w1]|] eqn:Hsend; try discriminate.
  - intros H. injection H as -> _ _ _.
    apply send_loop_return_error in Hsend. now contradiction Hsend.
  - apply send_loop_wtx in Hsend. apply recv_loop_wtx. exact Hsend.
Qed.

Lemma transceive_leaves_no_wtx_delay_witness :
  t1prime_transceive (snd (t1prime_get_protocol_state None)) [0x01; 0x02]
    (card_world (card_frames 0xc3 [0x10] ++ card_frames 0x00 [0xf1; 0xf2]))
  = Some (PROTOCOL_TRANSCEIVE_SUCCESS, Some [0xf1; 0xf2],
          mkState 300 10 0xff9 1 1 0,
          mkWorld [] [] [host_block 0x00 [0x01; 0x02]; host_block 0xe3 [0x10]] 1 [] [])
  /\ (0 <? wtx_delay (mkState 300 10 0xff9 1 1 0)) = false.
Proof.
  split; [vm_compute; reflexivity|].
  apply (transceive_leaves_no_wtx_delay (snd (t1prime_get_protocol_state None))
           [0x01; 0x02]
           (card_world (card_frames 0xc3 [0x10] ++ card_frames 0x00 [0xf1; 0xf2]))
           (Some [0xf1; 0xf2]) (mkState 300 10 0xff9 1 1 0)
           (mkWorld [] [] [host_block 0x00 [0x01; 0x02]; host_block 0xe3 [0x10]] 1 [] [])).
  vm_compute. reflexivity.
Defined.

(** Sequence counters that are bits stay bits under every operation of the
    engine: [t1prime_transceive], [t1prime_activate],
    [t1prime_set_ifsd] and the supervisory exchanges only toggle them, reset
    them to 0 or leave them alone. *)
Theorem sequence_counters_stay_bits (st : T1PrimeProtocolState) (w : World) :
  is_bit (send_counter st) -> is_bit (receive_counter st) ->
  (forall data status response st' w',
      t1prime_transceive st data w = Some (status, response, st', w') ->
      is_bit (send_counter st') /\ is_bit (receive_counter st'))
  /\ (is_bit (send_counter (snd (fst (t1prime_activate st w))))
      /\ is_bit (receive_counter (snd (fst (t1prime_activate st w)))))
  /\ (forall ifsd,
        is_bit (send_counter (snd (fst (t1prime_set_ifsd st ifsd w))))
        /\ is_bit (receive_counter (snd (fst (t1prime_set_ifsd st ifsd w)))))
  /\ (is_bit (send_counter (snd (fst (s_resynch st w))))
      /\ is_bit (receive_counter (snd (fst (s_resynch st w)))))
  /\ (is_bit (send_counter (snd (fst (s_swr st w))))
      /\ is_bit (receive_counter (snd (fst (s_swr st w))))).
Proof.
  intros Hs Hr. split; [|split; [|split; [|split]]].
  - intros data status response st' w' H.
    exact (transceive_bits _ _ _ _ _ _ _ H (conj Hs Hr)).
  - exact (activate_bits st w (conj Hs Hr)).
  - intros ifsd. exact (set_ifsd_bits st ifsd w (conj Hs Hr)).
  - exact (s_resynch_bits st w (conj Hs Hr)).
  - exact (s_swr_bits st w (conj Hs Hr)).
Qed.

Lemma sequence_counters_stay_bits_witness :
  is_bit (send_counter (snd (t1prime_get_protocol_state None)))
  /\ is_bit (receive_counter (snd (t1prime_get_protocol_state None)))
  /\ is_bit (send_counter (snd (fst (s_resynch (snd (t1prime_get_protocol_state None))
                                               (card_world [])))))
  /\ is_bit (receive_counter (snd (fst (s_resynch (snd (t1prime_get_protocol_state None))
                                                  (card_world []))))).
Proof.
  split; [left; reflexivity|]. split; [left; reflexivity|].
  exact (proj1 (proj2 (proj2 (proj2
           (sequence_counters_stay_bits (snd (t1prime_get_protocol_state None))
              (card_world []) (or_introl eq_refl) (or_introl eq_refl)))))).
Defined.

(** [t1prime_transceive] never hands a frame to the driver that carries more
    information bytes than the IFSC of the session: every frame sent during a
    call has at most prologue + IFSC + epilogue bytes, also the S(WTX
    response) and S(IFS response) that echo what the card sent. *)
Theorem transceive_frames_fit_ifsc (st : T1PrimeProtocolState) (data : list Z) (w : World)
    (status : Z) (response : option (list Z)) (st' : T1PrimeProtocolState) (w' : World) :
  0 <= ifsc st ->
  t1prime_transceive st data w = Some (status, response, st', w') ->
  exists sent,
    tx_log w' = tx_log w ++ sent
    /\ Forall (fun frame =>
                 Z.of_nat (length frame)
                 <= BLOCK_PROLOGUE_LENGTH + ifsc st + BLOCK_EPILOGUE_LENGTH) sent.
Proof.
  intros Hl H. exact (proj2 (transceive_link_and_frames _ _ _ _ _ _ _ H Hl)).
Qed.

Lemma transceive_frames_fit_ifsc_witness :
  0 <= ifsc (state_with_ifsc 2)
  /\ exists sent,
       [host_block 0x20 [0x01; 0x02]; host_block 0x60 [0x03; 0x04];
        host_block 0x00 [0x05; 0x06]] = [] ++ sent
       /\ Forall (fun frame =>
                    Z.of_nat (length frame)
                    <= BLOCK_PROLOGUE_LENGTH + ifsc (state_with_ifsc 2)
                       + BLOCK_EPILOGUE_LENGTH) sent.
Proof.
  split; [cbn; lia|].
  apply (transceive_frames_fit_ifsc (state_with_ifsc 2)
           [0x01; 0x02; 0x03; 0x04; 0x05; 0x06]
           (card_world (card_frames 0x90 [] ++ card_frames 0x80 []
                        ++ card_frames 0x00 [0xf1; 0xf2]))
           PROTOCOL_TRANSCEIVE_SUCCESS (Some [0xf1; 0xf2]) (mkState 300 10 2 1 1 0)
           (mkWorld [] []
              [host_block 0x20 [0x01; 0x02]; host_block 0x60 [0x03; 0x04];
               host_block 0x00 [0x05; 0x06]] 1 [] [])).
  - cbn. lia.
  - vm_compute. reflexivity.
Defined.

(** Outside activation the negotiated link parameters are only written by
    [t1prime_set_bwt]: [t1prime_transceive], [t1prime_set_ifsd] and the
    RESYNCH and SWR exchanges hand back IFSC, BWT and MPOT as they got them,
    whatever the card answers (so an IFSD that was negotiated is stored
    nowhere); [t1prime_set_bwt] stores the value that [t1prime_get_bwt] then
    returns and leaves IFSC and MPOT alone. *)
Theorem link_parameters_kept (st : T1PrimeProtocolState) (w : World) :
  (forall data status response st' w',
      t1prime_transceive st data w = Some (status, response, st', w') ->
      ifsc st' = ifsc st /\ bwt st' = bwt st /\ mpot st' = mpot st)
  /\ (forall ifsd,
        let st' := snd (fst (t1prime_set_ifsd st ifsd w)) in
        ifsc st' = ifsc st /\ bwt st' = bwt st /\ mpot st' = mpot st)
  /\ (let st' := snd (fst (s_resynch st w)) in
      ifsc st' = ifsc st /\ bwt st' = bwt st /\ mpot st' = mpot st)
  /\ (let st' := snd (fst (s_swr st w)) in
      ifsc st' = ifsc st /\ bwt st' = bwt st /\ mpot st' = mpot st)
  /\ (forall v,
        let st' := snd (t1prime_set_bwt st v) in
        t1prime_get_bwt st' = (PROTOCOL_GETPROPERTY_SUCCESS, v)
        /\ t1prime_get_ifsc st' = t1prime_get_ifsc st /\ mpot st' = mpot st).
Proof.
  split; [|split; [|split; [|split]]].
  - intros data status response st' w' H.
    pose proof (transceive_link _ _ _ _ _ _ _ H) as L. unfold same_link in L. tauto.
  - intros ifsd st'. pose proof (set_ifsd_link st ifsd w) as L. unfold same_link in L.
    subst st'. tauto.
  - intros st'. pose proof (s_resynch_link st w) as L. unfold same_link in L.
    subst st'. tauto.
  - intros st'. pose proof (s_swr_link st w) as L. unfold same_link in L.
    subst st'. tauto.
  - intros v st'. repeat split.
Qed.

(** ** Exchanges with a card that follows the protocol *)

(** One round of [t1prime_block_transceive] with a card that answers: the
    frame goes out, the answer is read, and when the answer is acceptable
    for the block sent the call returns it. *)
Lemma block_transceive_answered (st : T1PrimeProtocolState) (b rb : Block) (w : World)
    (idle rest : list (Z * list Z)) :
  information_size b <= ifsc st ->
  hd PROTOCOL_TRANSMIT_SUCCESS (tx_script w) = PROTOCOL_TRANSMIT_SUCCESS ->
  wf_block rb = true -> nad rb <> 0x00 -> nad rb <> 0xff ->
  forallb idle_answer idle = true ->
  (length idle < bwt_polls w)%nat ->
  rx_script w = idle ++ block_frames rb ++ rest ->
  block_transceive_validate (clear_wtx_delay st) b PROTOCOL_RECEIVE_SUCCESS rb
  = Done PROTOCOL_RECEIVE_SUCCESS ->
  t1prime_block_transceive st b w
  = (PROTOCOL_TRANSCEIVE_SUCCESS, rb, clear_wtx_delay st,
     exchanged w (t1prime_block_encode b) rest).
Proof.
  intros Hfit Htx Hwf Hn0 Hnf Hidle Hpolls Hrx Hval.
  unfold t1prime_block_transceive, T1PRIME_BLOCK_TRANSCEIVE_RETRIES.
  cbn [block_transceive_loop]. unfold block_transceive_attempt, t1prime_block_transmit.
  destruct (Z.ltb_spec (ifsc st) (information_size b)) as [H|_]; [lia|].
  unfold driver_transmit. rewrite Htx.
  change (PROTOCOL_TRANSMIT_SUCCESS =? PROTOCOL_TRANSMIT_SUCCESS) with true. cbn [negb].
  fold (clear_wtx_delay st).
  rewrite (block_receive_frames (clear_wtx_delay st) _ rb idle rest Hwf Hn0 Hnf Hidle)
    by (cbn [bwt_polls rx_script]; assumption).
  rewrite Hval. reflexivity.
Qed.

Lemma i_block_no_s_request (ns : Z) (m : bool) : is_s_request (T1PRIME_PCB_I ns m) = false.
Proof. unfold T1PRIME_PCB_I. destruct (ns =? 0), m; reflexivity. Qed.

Lemma r_block_no_s_request (nr type : Z) : is_s_request (T1PRIME_PCB_R nr type) = false.
Proof.
  destruct (pcb_r_accessors nr type) as (Hr & _).
  unfold is_s_request.
  destruct (pcb_class_cases (T1PRIME_PCB_R nr type)) as [(_ & H & _)|[(_ & _ & ->)|(_ & H & _)]];
    [congruence|reflexivity|congruence].
Qed.

Lemma validate_plain (st : T1PrimeProtocolState) (b rb : Block) :
  is_s_request (pcb b) = false ->
  block_transceive_validate st b PROTOCOL_RECEIVE_SUCCESS rb = Done PROTOCOL_RECEIVE_SUCCESS.
Proof. intros H. unfold block_transceive_validate. rewrite H. reflexivity. Qed.

Lemma is_bit_cases (v : Z) : is_bit v -> (if v =? 0 then 0 else 1) = v.
Proof. intros [->| ->]; reflexivity. Qed.

Lemma card_block_wf (pcb0 : Z) (info : list Z) :
  0 <= pcb0 < 256 -> is_bytes info = true -> Z.of_nat (length info) <= 0xffff ->
  wf_block (mkBlock 0x12 pcb0 (Z.of_nat (length info)) info) = true.
Proof.
  intros Hp Hinfo Hmax. apply wf_block_parts. cbn [nad pcb information_size information].
  repeat split; try assumption; lia.
Qed.

Lemma pcb_i_byte (ns : Z) (m : bool) : 0 <= T1PRIME_PCB_I ns m < 256.
Proof. unfold T1PRIME_PCB_I. destruct (ns =? 0), m; cbn; lia. Qed.

Lemma pcb_byte (v : Z) : 0 <= T1PRIME_PCB v < 256.
Proof.
  unfold T1PRIME_PCB. change 0xff with (Z.ones 8). rewrite Z.land_ones by lia.
  apply Z.mod_pos_bound. reflexivity.
Qed.

(** A block exchange with a card that answers at the first poll with the
    block [mkBlock 0x12 pcb0 |info| info], for a block that is not an
    S(? request). *)
Lemma block_transceive_card (st : T1PrimeProtocolState) (b : Block) (w : World)
    (pcb0 : Z) (info : list Z) (rest : list (Z * list Z)) :
  information_size b <= ifsc st ->
  tx_script w = [] ->
  (0 < bwt_polls w)%nat ->
  is_s_request (pcb b) = false ->
  0 <= pcb0 < 256 -> is_bytes info = true -> Z.of_nat (length info) <= 0xffff ->
  rx_script w = card_frames pcb0 info ++ rest ->
  t1prime_block_transceive st b w
  = (PROTOCOL_TRANSCEIVE_SUCCESS, mkBlock 0x12 pcb0 (Z.of_nat (length info)) info,
     clear_wtx_delay st, exchanged w (t1prime_block_encode b) rest).
Proof.
  intros Hfit Htx Hpolls Hreq Hp Hinfo Hmax Hrx.
  apply (block_transceive_answered st b _ w [] rest); try assumption.
  - rewrite Htx. reflexivity.
  - apply card_block_wf; assumption.
  - discriminate.
  - discriminate.
  - reflexivity.
  - rewrite Hrx, (card_frames_block pcb0 info Hp Hinfo Hmax). reflexivity.
  - apply validate_plain, Hreq.
Qed.

Lemma memcpy_all (data : list Z) : memcpy data 0 (Z.of_nat (length data)) = data.
Proof. unfold memcpy. rewrite Nat2Z.id. cbn [Z.to_nat skipn]. apply firstn_all. Qed.

Lemma exchanged_fields (w : World) (frame : list Z) (rest : list (Z * list Z)) :
  tx_script w = [] ->
  tx_script (exchanged w frame rest) = [] /\ bwt_polls (exchanged w frame rest) = bwt_polls w
  /\ rx_script (exchanged w frame rest) = rest.
Proof. intros H. cbn. rewrite H. auto. Qed.

Lemma clear_wtx_fields (st : T1PrimeProtocolState) :
  send_counter (clear_wtx_delay st) = send_counter st
  /\ receive_counter (clear_wtx_delay st) = receive_counter st
  /\ ifsc (clear_wtx_delay st) = ifsc st
  /\ bwt (clear_wtx_delay st) = bwt st /\ mpot (clear_wtx_delay st) = mpot st
  /\ clear_wtx_delay (clear_wtx_delay st) = clear_wtx_delay st.
Proof.
  unfold clear_wtx_delay. destruct (Z.ltb_spec 0 (wtx_delay st)) as [H|H]; cbn.
  - repeat split.
  - destruct (Z.ltb_spec 0 (wtx_delay st)); [lia|]. repeat split.
Qed.

(** A request that fits one I-block, answered by a card that sends its whole
    response in one I-block with the expected N(S): one frame goes out, the
    information of the answer is the response, and both sequence counters
    are toggled. *)
Theorem transceive_single_block (st : T1PrimeProtocolState) (w : World)
    (data info : list Z) (rest : list (Z * list Z)) :
  data <> [] -> Z.of_nat (length data) <= ifsc st ->
  is_bit (receive_counter st) ->
  tx_script w = [] -> (0 < bwt_polls w)%nat ->
  info <> [] -> is_bytes info = true -> Z.of_nat (length info) <= 0xffff ->
  rx_script w = card_frames (T1PRIME_PCB_I (receive_counter st) false) info ++ rest ->
  t1prime_transceive st data w
  = Some (PROTOCOL_TRANSCEIVE_SUCCESS, Some info,
          set_receive_counter (Z.lxor (receive_counter st) 0x01)
            (set_send_counter (Z.lxor (send_counter st) 0x01) (clear_wtx_delay st)),
          exchanged w (host_block (T1PRIME_PCB_I (send_counter st) false) data) rest).
Proof.
  intros Hdata Hfit Hrc Htx Hpolls Hinfo Hbytes Hmax Hrx.
  assert (Hlen : 0 < Z.of_nat (length data))
    by (destruct data; [contradiction|cbn [length]; lia]).
  assert (Hilen : 0 < Z.of_nat (length info))
    by (destruct info; [contradiction|cbn [length]; lia]).
  unfold t1prime_transceive, transceive_send.
  destruct (Z.eqb_spec (Z.of_nat (length data)) 0) as [H0|_]; [lia|].
  unfold loop_fuel. cbn [send_loop]. unfold send_step, send_init.
  assert (Hmin : size_min (Z.of_nat (length data)) (ifsc st) = Z.of_nat (length data)).
  { unfold size_min. destruct (Z.ltb_spec (Z.of_nat (length data)) (ifsc st)); lia. }
  rewrite Hmin. cbn [transmission_block last_information_size remaining].
  rewrite Z.sub_diag. change (0 <? 0) with false. rewrite memcpy_all.
  rewrite (block_transceive_card st _ w (T1PRIME_PCB_I (receive_counter st) false) info rest);
    try assumption; try (cbn [information_size]; lia);
    try apply i_block_no_s_request; try apply pcb_i_byte.
  change (PROTOCOL_TRANSCEIVE_SUCCESS =? PROTOCOL_TRANSCEIVE_SUCCESS) with true.
  cbn [negb pcb].
  destruct (pcb_i_accessors (receive_counter st) false) as (Hi & Hns & Hmore).
  rewrite Hi.
  cbn [recv_loop]. unfold recv_step. cbn [pcb information_size information].
  rewrite Hi, Hns, (is_bit_cases _ Hrc), Hmore.
  destruct (clear_wtx_fields st) as (Hsc & Hrcc & _).
  cbn [receive_counter set_send_counter]. rewrite Hrcc, Hsc, Z.eqb_refl. cbn [negb].
  destruct (Z.eqb_spec (Z.of_nat (length info)) 0) as [H0|_]; [lia|].
  reflexivity.
Qed.

Lemma transceive_single_block_witness :
  t1prime_transceive (snd (t1prime_get_protocol_state None)) [0x01; 0x02]
    (card_world (card_frames (T1PRIME_PCB_I 0 false) [0xf1; 0xf2] ++ []))
  = Some (PROTOCOL_TRANSCEIVE_SUCCESS, Some [0xf1; 0xf2],
          mkState 300 10 0xff9 1 1 0,
          mkWorld [] [] [host_block 0x00 [0x01; 0x02]] 1 [] []).
Proof.
  apply (transceive_single_block (snd (t1prime_get_protocol_state None))
           (card_world (card_frames (T1PRIME_PCB_I 0 false) [0xf1; 0xf2] ++ []))
           [0x01; 0x02] [0xf1; 0xf2] []);
    try reflexivity; try discriminate; try (left; reflexivity); cbn; lia.
Defined.

(** *** Chained requests and responses *)

Lemma toggled_S (k : nat) (v : Z) : is_bit v -> toggled (S k) v = toggled k (Z.lxor v 0x01).
Proof.
  intros Hv. unfold toggled. rewrite Nat.even_succ, <- Nat.negb_even.
  destruct (Nat.even k); cbn [negb]; [reflexivity|].
  destruct Hv as [->| ->]; reflexivity.
Qed.

Lemma toggled_bit (k : nat) (v : Z) : is_bit v -> is_bit (toggled k v).
Proof. intros Hv. unfold toggled. destruct (Nat.even k); [exact Hv|apply lxor_bit, Hv]. Qed.

Lemma clear_wtx_set_send (v : Z) (st : T1PrimeProtocolState) :
  clear_wtx_delay (set_send_counter v (clear_wtx_delay st))
  = set_send_counter v (clear_wtx_delay st).
Proof.
  unfold clear_wtx_delay. destruct (Z.ltb_spec 0 (wtx_delay st)) as [H|H]; cbn.
  - reflexivity.
  - destruct (Z.ltb_spec 0 (wtx_delay st)); [lia|reflexivity].
Qed.

Lemma exchanged_conversed (w : World) (frame : list Z) (rest : list (Z * list Z)) :
  tx_script w = [] -> exchanged w frame rest = conversed w [frame] rest.
Proof. intros H. unfold exchanged, conversed. rewrite H. reflexivity. Qed.

Lemma conversed_conversed (w : World) (f1 f2 : list (list Z))
    (r1 r2 : list (Z * list Z)) :
  conversed (conversed w f1 r1) f2 r2 = conversed w (f1 ++ f2) r2.
Proof. unfold conversed. cbn. rewrite app_assoc. reflexivity. Qed.

Lemma size_min_spec (a b : Z) :
  (a <= b -> size_min a b = a) /\ (b < a -> size_min a b = b).
Proof. unfold size_min. destruct (Z.ltb_spec a b); split; intros; lia. Qed.

Lemma request_chain_nonempty (n : nat) (ns size : Z) (data : list Z) :
  (0 < n)%nat -> request_chain n ns size data <> [].
Proof.
  destruct n as [|n]; [lia|]. intros _. cbn [request_chain].
  destruct (Z.of_nat (length data) <=? size); discriminate.
Qed.

Lemma r_ack_accessors (nr : Z) :
  is_bit nr ->
  T1PRIME_PCB_IS_I (T1PRIME_PCB_R_ACK nr) = false
  /\ T1PRIME_PCB_IS_R (T1PRIME_PCB_R_ACK nr) = true
  /\ T1PRIME_PCB_R_GET_NR (T1PRIME_PCB_R_ACK nr) = nr
  /\ 0 <= T1PRIME_PCB_R_ACK nr < 256.
Proof. intros [->| ->]; repeat split; cbn; lia. Qed.

Lemma send_loop_chain (n : nat) :
  forall (fuel : nat) (data0 d : list Z) (off rem c sc : Z) (st : T1PrimeProtocolState)
         (w : World) (pcb0 : Z) (info : list Z) (rest : list (Z * list Z)),
    ifsc st = c -> send_counter st = sc ->
    d = skipn (Z.to_nat off) data0 -> rem = Z.of_nat (length d) ->
    0 <= off -> d <> [] -> (length d <= n)%nat ->
    0 < c -> is_bit sc ->
    tx_script w = [] -> (0 < bwt_polls w)%nat ->
    (length (request_chain n sc c d) <= fuel)%nat ->
    T1PRIME_PCB_IS_I pcb0 = true -> 0 <= pcb0 < 256 ->
    is_bytes info = true -> Z.of_nat (length info) <= 0xffff ->
    rx_script w
    = card_acks (length (request_chain n sc c d) - 1) sc
      ++ card_frames pcb0 info ++ rest ->
    send_loop fuel data0
      (mkSendVars
         (mkBlock 0x21 (T1PRIME_PCB_I sc (0 <? rem - size_min rem c))
                  (size_min rem c) (memcpy data0 off (size_min rem c)))
         (size_min rem c) off rem false)
      st w
    = Some (SendBreak (mkBlock 0x12 pcb0 (Z.of_nat (length info)) info)
              (set_send_counter (toggled (length (request_chain n sc c d)) sc)
                                (clear_wtx_delay st))
              (conversed w (map t1prime_block_encode (request_chain n sc c d)) rest)).
Proof.
  induction n as [|n IH];
    intros fuel data0 d off rem c sc st w pcb0 info rest Hceq Hsceq Hd Hrem Hoff Hne Hn
           Hc Hsc Htx Hpolls Hfuel Hi Hp Hbytes Hmax Hrx.
  { destruct d; [contradiction|cbn [length] in Hn; lia]. }
  assert (Hrem0 : 0 < rem) by (subst rem; destruct d; [contradiction|cbn [length]; lia]).
  destruct (clear_wtx_fields st) as (Hcs & Hcr & Hci & _).
  cbn [request_chain] in *.
  destruct (Z.leb_spec (Z.of_nat (length d)) c) as [Hlast|Hmore].
  - (* the last block of the chain *)
    cbn [length] in Hfuel. destruct fuel as [|fuel]; [lia|].
    cbn [length Nat.sub card_acks app] in Hrx.
    rewrite (proj1 (size_min_spec rem c)) by lia.
    rewrite Z.sub_diag. change (0 <? 0) with false.
    assert (Hcopy : memcpy data0 off rem = d).
    { unfold memcpy. rewrite <- Hd, Hrem, Nat2Z.id. apply firstn_all. }
    rewrite Hcopy. cbn [send_loop]. unfold send_step.
    cbn [transmission_block last_information_size remaining aborted offset].
    rewrite (block_transceive_card st _ w pcb0 info rest);
      try assumption; try (cbn [information_size]; lia); try apply i_block_no_s_request.
    change (PROTOCOL_TRANSCEIVE_SUCCESS =? PROTOCOL_TRANSCEIVE_SUCCESS) with true.
    cbn [negb pcb]. rewrite Hi, Z.sub_diag. change (0 <? 0) with false.
    rewrite Hcs, Hsceq.
    rewrite exchanged_conversed by exact Htx. rewrite Hrem. reflexivity.
  - (* a block with more to follow *)
    set (d' := skipn (Z.to_nat c) d) in *.
    set (chain' := request_chain n (Z.lxor sc 0x01) c d') in *.
    assert (Hd'len : Z.of_nat (length d') = rem - c).
    { subst d'. rewrite length_skipn. lia. }
    assert (Hd'ne : d' <> []) by (destruct d'; [cbn [length] in Hd'len; lia|discriminate]).
    assert (Hn' : (length d' <= n)%nat) by lia.
    assert (Hchain' : chain' <> []).
    { apply request_chain_nonempty. destruct d'; [contradiction|cbn [length] in Hn'; lia]. }
    cbn [length] in Hfuel, Hrx |- *. destruct fuel as [|fuel]; [lia|].
    destruct (length chain') as [|k] eqn:Ek;
      [destruct chain'; [contradiction|discriminate]|].
    replace (S (S k) - 1)%nat with (S k) in Hrx by lia.
    cbn [card_acks] in Hrx. rewrite <- app_assoc in Hrx.
    rewrite (proj2 (size_min_spec rem c)) by lia.
    replace (0 <? rem - c) with true by (symmetry; apply Z.ltb_lt; lia).
    cbn [send_loop]. unfold send_step.
    cbn [transmission_block last_information_size remaining aborted offset].
    destruct (r_ack_accessors (Z.lxor sc 0x01) (lxor_bit _ Hsc)) as (Hri & Hrr & Hrn & Hrb).
    rewrite (block_transceive_card st _ w (T1PRIME_PCB_R_ACK (Z.lxor sc 0x01)) []
               (card_acks k (Z.lxor sc 0x01) ++ card_frames pcb0 info ++ rest));
      try assumption; try reflexivity; try (cbn [information_size length]; lia);
      try apply i_block_no_s_request.
    change (PROTOCOL_TRANSCEIVE_SUCCESS =? PROTOCOL_TRANSCEIVE_SUCCESS) with true.
    cbn [negb pcb]. rewrite Hri, Hrr, Hrn.
    rewrite Hcs, Hsceq, Z.eqb_refl.
    replace (rem - c =? 0) with false by (symmetry; apply Z.eqb_neq; lia).
    cbn [ifsc send_counter set_send_counter nad t1prime_block_destroy].
    rewrite Hci, Hceq.
    rewrite (IH fuel data0 d' (off + c) (rem - c) c (Z.lxor sc 0x01)
               (set_send_counter (Z.lxor sc 0x01) (clear_wtx_delay st)) _ pcb0 info rest);
      try assumption; try reflexivity; try lia.
    + rewrite clear_wtx_set_send, exchanged_conversed, conversed_conversed by exact Htx.
      fold chain'. rewrite Ek.
      rewrite (toggled_S (S k) sc Hsc).
      assert (Hfirst : memcpy data0 off c = firstn (Z.to_nat c) d)
        by (unfold memcpy; rewrite <- Hd; reflexivity).
      rewrite Hfirst. reflexivity.
    + cbn [ifsc set_send_counter]. exact (eq_trans Hci Hceq).
    + subst d'. rewrite Hd. rewrite skipn_add by lia. reflexivity.
    + apply lxor_bit, Hsc.
    + cbn [tx_script exchanged]. rewrite Htx. reflexivity.
    + fold chain'. lia.
    + fold chain'. rewrite Ek. replace (S k - 1)%nat with k by lia. reflexivity.
Qed.

Lemma clear_wtx_idle (st : T1PrimeProtocolState) :
  (0 <? wtx_delay st) = false -> clear_wtx_delay st = st.
Proof. intros H. unfold clear_wtx_delay. rewrite H. reflexivity. Qed.

Lemma conversed_nil (w : World) :
  tx_script w = [] -> conversed w [] (rx_script w) = w.
Proof. intros H. unfold conversed. rewrite app_nil_r, <- H. destruct w. reflexivity. Qed.

Lemma i_block_accessors (ns : Z) (m : bool) :
  is_bit ns ->
  T1PRIME_PCB_IS_I (T1PRIME_PCB_I ns m) = true
  /\ T1PRIME_PCB_I_GET_NS (T1PRIME_PCB_I ns m) = ns
  /\ T1PRIME_PCB_I_HAS_MORE (T1PRIME_PCB_I ns m) = m.
Proof.
  intros Hns. destruct (pcb_i_accessors ns m) as (H1 & H2 & H3).
  rewrite (is_bit_cases ns Hns) in H2. auto.
Qed.

Lemma recv_loop_chain (parts : list (list Z)) :
  forall (fuel : nat) (part : list Z) (nr : Z) (acc : option (list Z))
         (st : T1PrimeProtocolState) (w : World) (rest : list (Z * list Z)),
    receive_counter st = nr -> is_bit nr ->
    (0 <? wtx_delay st) = false -> 0 <= ifsc st ->
    tx_script w = [] -> (0 < bwt_polls w)%nat ->
    (acc = None -> part <> []) ->
    Forall (fun p => is_bytes p = true /\ Z.of_nat (length p) <= 0xffff) parts ->
    (length parts < fuel)%nat ->
    rx_script w = response_frames (Z.lxor nr 0x01) parts ++ rest ->
    recv_loop fuel
      (mkBlock 0x12 (T1PRIME_PCB_I nr (match parts with [] => false | _ => true end))
               (Z.of_nat (length part)) part)
      acc st w
    = Some (PROTOCOL_TRANSCEIVE_SUCCESS,
            Some (match acc with None => [] | Some buffer => buffer end
                  ++ part ++ concat parts),
            set_receive_counter (toggled (S (length parts)) nr) st,
            conversed w (response_acks nr (part :: parts)) rest).
Proof.
  induction parts as [|part2 parts IH];
    intros fuel part nr acc st w rest Hrc Hnr Hwtx Hifsc Htx Hpolls Hacc Hparts Hfuel Hrx;
    (destruct fuel as [|fuel]; [cbn [length] in Hfuel; lia|]);
    cbn [recv_loop]; unfold recv_step; cbn [pcb information_size information].
  - destruct (i_block_accessors nr false Hnr) as (Hi & Hns & Hmore).
    rewrite Hi, Hns, Hrc, Z.eqb_refl, Hmore. cbn [negb].
    cbn [response_frames app] in Hrx. cbn [concat response_acks]. rewrite app_nil_r.
    rewrite <- Hrx, conversed_nil by exact Htx.
    destruct acc as [buffer|].
    + destruct (Z.ltb_spec 0 (Z.of_nat (length part))) as [Hpos|Hzero].
      * rewrite memcpy_all. reflexivity.
      * assert (Hnil : part = []) by (destruct part; [reflexivity|cbn [length] in Hzero; lia]).
        subst part. rewrite app_nil_r. reflexivity.
    + specialize (Hacc eq_refl).
      destruct (Z.eqb_spec (Z.of_nat (length part)) 0) as [H0|_];
        [destruct part; [contradiction|cbn [length] in H0; lia]|].
      reflexivity.
  - destruct (i_block_accessors nr true Hnr) as (Hi & Hns & Hmore).
    rewrite Hi, Hns, Hrc, Z.eqb_refl, Hmore. cbn [negb].
    cbn [response_frames] in Hrx. rewrite <- app_assoc in Hrx.
    apply Forall_cons_iff in Hparts. destruct Hparts as [[Hb2 Hm2] Hparts].
    set (buffer' := match acc with None => [] | Some buffer => buffer end ++ part).
    assert (Hbuf : match acc with
                    | None => if Z.of_nat (length part) =? 0 then None else Some part
                    | Some buffer =>
                        if 0 <? Z.of_nat (length part)
                        then Some (buffer ++ memcpy part 0 (Z.of_nat (length part)))
                        else Some buffer
                    end = Some buffer').
    { subst buffer'. destruct acc as [buffer|].
      - destruct (Z.ltb_spec 0 (Z.of_nat (length part))) as [Hpos|Hzero].
        + rewrite memcpy_all. reflexivity.
        + assert (Hnil : part = [])
            by (destruct part; [reflexivity|cbn [length] in Hzero; lia]).
          subst part. rewrite app_nil_r. reflexivity.
      - specialize (Hacc eq_refl).
        destruct (Z.eqb_spec (Z.of_nat (length part)) 0) as [H0|_];
          [destruct part; [contradiction|cbn [length] in H0; lia]|].
        reflexivity. }
    rewrite Hbuf. cbn [receive_counter set_receive_counter].
    set (st1 := set_receive_counter (Z.lxor nr 0x01) st).
    assert (Hwtx1 : (0 <? wtx_delay st1) = false) by exact Hwtx.
    rewrite (block_transceive_card st1 _ w
               (T1PRIME_PCB_I (Z.lxor nr 0x01) (match parts with [] => false | _ => true end))
               part2 (response_frames (Z.lxor (Z.lxor nr 0x01) 0x01) parts ++ rest));
      try assumption; try (cbn [information_size ifsc st1 set_receive_counter]; lia);
      try apply r_block_no_s_request; try apply pcb_i_byte.
    change (PROTOCOL_TRANSCEIVE_SUCCESS =? PROTOCOL_TRANSCEIVE_SUCCESS) with true.
    cbn [negb]. rewrite (clear_wtx_idle st1 Hwtx1).
    rewrite (IH fuel part2 (Z.lxor nr 0x01) (Some buffer') st1 _ rest);
      try assumption; try reflexivity; try discriminate.
    + rewrite exchanged_conversed, conversed_conversed by exact Htx.
      subst buffer'. cbn [concat length]. rewrite <- !app_assoc.
      rewrite (toggled_S (S (length parts)) nr Hnr).
      cbn [response_acks app]. reflexivity.
    + apply lxor_bit, Hnr.
    + cbn [tx_script exchanged]. rewrite Htx. reflexivity.
    + cbn [length] in Hfuel. lia.
Qed.

Lemma length_card_frames (pcb0 : Z) (info : list Z) :
  (3 <= length (card_frames pcb0 info))%nat.
Proof. unfold card_frames. rewrite !length_app. cbn [length]. lia. Qed.

Lemma length_card_acks (k : nat) : forall ns, (k <= length (card_acks k ns))%nat.
Proof.
  induction k as [|k IH]; intros ns; cbn [card_acks]; [lia|].
  rewrite length_app. pose proof (length_card_frames (T1PRIME_PCB_R_ACK (Z.lxor ns 1)) []).
  specialize (IH (Z.lxor ns 1)). lia.
Qed.

Lemma length_response_frames (parts : list (list Z)) :
  forall ns, (length parts <= length (response_frames ns parts))%nat.
Proof.
  induction parts as [|part parts IH]; intros ns; cbn [response_frames length]; [lia|].
  rewrite length_app.
  pose proof (length_card_frames
                (T1PRIME_PCB_I ns (match parts with [] => false | _ => true end)) part).
  specialize (IH (Z.lxor ns 1)). lia.
Qed.

Lemma clear_wtx_no_delay (st : T1PrimeProtocolState) :
  (0 <? wtx_delay (clear_wtx_delay st)) = false.
Proof.
  unfold clear_wtx_delay. destruct (Z.ltb_spec 0 (wtx_delay st)) as [H|H];
    [reflexivity|apply Z.ltb_ge; exact H].
Qed.

(** The blocks of a request chain carry the request, in order, and none more
    than [size] bytes. *)
Lemma request_chain_covers (n : nat) :
  forall (ns size : Z) (data : list Z),
    0 < size -> (length data <= n)%nat -> data <> [] ->
    concat (map information (request_chain n ns size data)) = data
    /\ Forall (fun b => information_size b = Z.of_nat (length (information b))
                        /\ 0 < information_size b <= size)
              (request_chain n ns size data).
Proof.
  induction n as [|n IH]; intros ns size data Hsize Hn Hne.
  { destruct data; [contradiction|cbn [length] in Hn; lia]. }
  cbn [request_chain].
  assert (Hlen : 0 < Z.of_nat (length data))
    by (destruct data; [contradiction|cbn [length]; lia]).
  destruct (Z.leb_spec (Z.of_nat (length data)) size) as [Hlast|Hmore].
  - cbn [map concat information]. rewrite app_nil_r. split; [reflexivity|].
    constructor; [|constructor]. cbn [information_size information]. lia.
  - cbn [map concat information].
    assert (Hrest : skipn (Z.to_nat size) data <> []).
    { intros H. apply (f_equal (@length Z)) in H. rewrite length_skipn in H.
      cbn [length] in H. lia. }
    destruct (IH (Z.lxor ns 1) size (skipn (Z.to_nat size) data) Hsize) as [Hcat Hall];
      [rewrite length_skipn; lia|exact Hrest|].
    rewrite Hcat. split; [apply firstn_skipn|].
    constructor; [|exact Hall]. cbn [information_size information].
    rewrite length_firstn. lia.
Qed.

(** A request of any length with a card that follows the protocol: the
    request goes out in I-blocks of at most IFSC bytes, each but the last
    with the more-data bit and acknowledged by the card with R(N(R)) for the
    next block; the card answers the last block with its response, in one
    I-block or chained, and the host acknowledges each I-block but the last.
    The call returns the parts of the response put together, the frames sent
    are exactly these I-blocks and acknowledgements, and each sequence
    counter has been toggled once per I-block. *)
Theorem transceive_chained (st : T1PrimeProtocolState) (w : World) (data part : list Z)
    (parts : list (list Z)) (rest : list (Z * list Z)) :
  data <> [] -> 0 < ifsc st ->
  is_bit (send_counter st) -> is_bit (receive_counter st) ->
  tx_script w = [] -> (0 < bwt_polls w)%nat ->
  part <> [] ->
  Forall (fun p => is_bytes p = true /\ Z.of_nat (length p) <= 0xffff) (part :: parts) ->
  rx_script w
  = card_acks (length (request_blocks st data) - 1) (send_counter st)
    ++ response_frames (receive_counter st) (part :: parts) ++ rest ->
  t1prime_transceive st data w
  = Some (PROTOCOL_TRANSCEIVE_SUCCESS, Some (concat (part :: parts)),
          set_receive_counter (toggled (S (length parts)) (receive_counter st))
            (set_send_counter (toggled (length (request_blocks st data)) (send_counter st))
               (clear_wtx_delay st)),
          conversed w
            (map t1prime_block_encode (request_blocks st data)
             ++ response_acks (receive_counter st) (part :: parts))
            rest)
  /\ concat (map information (request_blocks st data)) = data
  /\ Forall (fun b => information_size b = Z.of_nat (length (information b))
                      /\ 0 < information_size b <= ifsc st)
            (request_blocks st data).
Proof.
  unfold request_blocks.
  set (chain := request_chain (length data) (send_counter st) (ifsc st) data).
  intros Hdata Hifsc Hsc Hrc Htx Hpolls Hpart Hparts Hrx.
  split; [|apply request_chain_covers; [exact Hifsc|lia|exact Hdata]].
  assert (Hlen : 0 < Z.of_nat (length data))
    by (destruct data; [contradiction|cbn [length]; lia]).
  apply Forall_cons_iff in Hparts. destruct Hparts as [[Hb1 Hm1] Hparts].
  cbn [response_frames] in Hrx. rewrite <- app_assoc in Hrx.
  unfold t1prime_transceive, transceive_send.
  destruct (Z.eqb_spec (Z.of_nat (length data)) 0) as [H0|_]; [lia|].
  unfold send_init.
  destruct (i_block_accessors (receive_counter st)
              (match parts with [] => false | _ => true end) Hrc) as (Hi & _).
  rewrite (send_loop_chain (length data) (loop_fuel w) data data 0
             (Z.of_nat (length data)) (ifsc st) (send_counter st) st w
             (T1PRIME_PCB_I (receive_counter st) (match parts with [] => false | _ => true end))
             part (response_frames (Z.lxor (receive_counter st) 0x01) parts ++ rest));
    try assumption; try reflexivity; try lia; try apply pcb_i_byte.
  - fold chain.
    destruct (clear_wtx_fields st) as (Hcs & Hcr & Hci & _).
    rewrite (recv_loop_chain parts _ part (receive_counter st) None _ _ rest);
      try assumption; try reflexivity; try (intros _; exact Hpart).
    + rewrite conversed_conversed. reflexivity.
    + cbn [wtx_delay set_send_counter]. apply clear_wtx_no_delay.
    + cbn [ifsc set_send_counter]. lia.
    + unfold loop_fuel. cbn [rx_script conversed]. rewrite length_app.
      pose proof (length_response_frames parts (Z.lxor (receive_counter st) 1)). lia.
  - fold chain. unfold loop_fuel. rewrite Hrx, length_app.
    pose proof (length_card_acks (length chain - 1) (send_counter st)). lia.
Qed.

Lemma transceive_chained_witness :
  t1prime_transceive (state_with_ifsc 2) [0x01; 0x02; 0x03; 0x04; 0x05]
    (card_world (card_frames 0x90 [] ++ card_frames 0x80 []
                 ++ card_frames 0x20 [0xf1; 0xf2] ++ card_frames 0x40 [0xf3]))
  = Some (PROTOCOL_TRANSCEIVE_SUCCESS, Some [0xf1; 0xf2; 0xf3],
          mkState 300 10 2 1 0 0,
          mkWorld [] []
            [host_block 0x20 [0x01; 0x02]; host_block 0x60 [0x03; 0x04];
             host_block 0x00 [0x05]; host_block 0x90 []] 1 [] []).
Proof.
  refine (proj1 (transceive_chained (state_with_ifsc 2)
                   (card_world (card_frames 0x90 [] ++ card_frames 0x80 []
                                ++ card_frames 0x20 [0xf1; 0xf2] ++ card_frames 0x40 [0xf3]))
                   [0x01; 0x02; 0x03; 0x04; 0x05] [0xf1; 0xf2] [[0xf3]] []
                   _ _ _ _ _ _ _ _ _));
    try reflexivity; try discriminate; try (left; reflexivity); try (cbn; lia).
  repeat constructor; cbn; lia.
Defined.

(** ** Resynchronisation, software reset and activation *)

Lemma block_transceive_card_validated (st : T1PrimeProtocolState) (b : Block) (w : World)
    (pcb0 : Z) (info : list Z) (rest : list (Z * list Z)) :
  information_size b <= ifsc st ->
  tx_script w = [] ->
  (0 < bwt_polls w)%nat ->
  0 <= pcb0 < 256 -> is_bytes info = true -> Z.of_nat (length info) <= 0xffff ->
  rx_script w = card_frames pcb0 info ++ rest ->
  block_transceive_validate (clear_wtx_delay st) b PROTOCOL_RECEIVE_SUCCESS
    (mkBlock 0x12 pcb0 (Z.of_nat (length info)) info)
  = Done PROTOCOL_RECEIVE_SUCCESS ->
  t1prime_block_transceive st b w
  = (PROTOCOL_TRANSCEIVE_SUCCESS, mkBlock 0x12 pcb0 (Z.of_nat (length info)) info,
     clear_wtx_delay st, exchanged w (t1prime_block_encode b) rest).
Proof.
  intros Hfit Htx Hpolls Hp Hinfo Hmax Hrx Hval.
  apply (block_transceive_answered st b _ w [] rest); try assumption.
  - rewrite Htx. reflexivity.
  - apply card_block_wf; assumption.
  - discriminate.
  - discriminate.
  - reflexivity.
  - rewrite Hrx, (card_frames_block pcb0 info Hp Hinfo Hmax). reflexivity.
Qed.

Lemma supervisory_counters (request : Block) (expected : Z)
    (st st' : T1PrimeProtocolState) (w w' : World) (status : Z) :
  (let '(status, response, st1, w1) := t1prime_block_transceive st request w in
   if negb (status =? SUCCESS)
   then (status, st1, w1)
   else if negb (pcb response =? expected)
   then (IFX_ERROR LIBT1PRIME PROTOCOL_RECEIVE INVALID_BLOCK, st1, w1)
   else (SUCCESS, set_receive_counter 0x00 (set_send_counter 0x00 st1), w1))
  = (status, st', w') ->
  same_link st st'
  /\ (status = SUCCESS -> send_counter st' = 0 /\ receive_counter st' = 0)
  /\ (status <> SUCCESS ->
      send_counter st' = send_counter st /\ receive_counter st' = receive_counter st).
Proof.
  destruct (t1prime_block_transceive st request w) as [[[s r] st1] w1] eqn:E.
  apply block_transceive_spec in E. destruct E as ((Hb & Hm & Hi & Hs & Hr) & _).
  destruct (Z.eqb_spec s SUCCESS) as [Hs0|Hs0]; cbn [negb].
  - destruct (pcb r =? expected); cbn [negb]; intros H; injection H as <- <- <-.
    + split; [unfold same_link; cbn; auto|]. split; [auto|]. intros H; now contradiction H.
    + split; [unfold same_link; auto|]. split; [|auto].
      intros H. now apply IFX_ERROR_not_success in H.
  - intros H; injection H as <- <- <-.
    split; [unfold same_link; auto|]. split; [|auto]. intros H; contradiction.
Qed.

(** S(RESYNCH request) and S(SWR request) put both sequence counters to 0
    exactly when they report success; when they fail, the counters are those
    from before the call.  BWT, MPOT and IFSC are never touched. *)
Theorem resynch_and_reset_counters (st st' : T1PrimeProtocolState) (w w' : World)
    (status : Z) :
  s_resynch st w = (status, st', w') \/ s_swr st w = (status, st', w') ->
  same_link st st'
  /\ (status = PROTOCOL_TRANSCEIVE_SUCCESS ->
      send_counter st' = 0 /\ receive_counter st' = 0)
  /\ (status <> PROTOCOL_TRANSCEIVE_SUCCESS ->
      send_counter st' = send_counter st /\ receive_counter st' = receive_counter st).
Proof.
  intros [H|H].
  - exact (supervisory_counters (mkBlock NAD_HD_TO_SE T1PRIME_PCB_S_RESYNCH_REQ 0 [])
             T1PRIME_PCB_S_RESYNCH_RESP st st' w w' status H).
  - exact (supervisory_counters (mkBlock NAD_HD_TO_SE T1PRIME_PCB_S_SWR_REQ 0 [])
             T1PRIME_PCB_S_SWR_RESP st st' w w' status H).
Qed.

Lemma resynch_and_reset_counters_witness :
  s_resynch (mkState 300 10 8 1 1 0) (card_world (card_frames 0xe0 []))
  = (PROTOCOL_TRANSCEIVE_SUCCESS, mkState 300 10 8 0 0 0,
     mkWorld [] [] [host_block 0xc0 []] 1 [] [])
  /\ (PROTOCOL_TRANSCEIVE_SUCCESS = PROTOCOL_TRANSCEIVE_SUCCESS ->
      send_counter (mkState 300 10 8 0 0 0) = 0
      /\ receive_counter (mkState 300 10 8 0 0 0) = 0).
Proof.
  assert (Hrun : s_resynch (mkState 300 10 8 1 1 0) (card_world (card_frames 0xe0 []))
                 = (PROTOCOL_TRANSCEIVE_SUCCESS, mkState 300 10 8 0 0 0,
                    mkWorld [] [] [host_block 0xc0 []] 1 [] []))
    by (vm_compute; reflexivity).
  split; [exact Hrun|].
  exact (proj1 (proj2 (resynch_and_reset_counters (mkState 300 10 8 1 1 0) _
                         (card_world (card_frames 0xe0 [])) _ _ (or_introl Hrun)))).
Defined.

Lemma in_is_bytes (x : list Z) (v : Z) : is_bytes x = true -> In v x -> 0 <= v < 256.
Proof.
  unfold is_bytes. intros H Hin. apply (proj1 (forallb_forall _ _) H) in Hin.
  apply is_byte_range. exact Hin.
Qed.

Lemma length_cip_bytes (cip : CIP) :
  Z.of_nat (length (cip_bytes cip))
  = 6 + Z.of_nat (length (iin cip)) + Z.of_nat (length (plp cip))
    + Z.of_nat (length (dllp cip)) + Z.of_nat (length (hb cip)).
Proof.
  unfold cip_bytes. repeat (rewrite ?length_app; cbn [length]). lia.
Qed.

Lemma cip_bytes_parts (cip : CIP) :
  is_bytes (cip_bytes cip) = true ->
  0 <= iin_len cip < 256 /\ 0 <= plp_len cip < 256
  /\ 0 <= dllp_len cip < 256 /\ 0 <= hb_len cip < 256
  /\ is_bytes (plp cip) = true /\ is_bytes (dllp cip) = true.
Proof.
  unfold cip_bytes. cbn [app].
  rewrite !is_bytes_cons, is_bytes_app, !is_bytes_cons, is_bytes_app, is_bytes_cons,
    is_bytes_app, is_bytes_cons.
  tauto.
Qed.

Lemma dllp_decode_bytes (cip : CIP) :
  is_bytes (dllp cip) = true -> 4 <= dllp_len cip ->
  t1prime_dllp_decode (dllp cip) (dllp_len cip)
  = Ok {| dllp_bwt := byte_at (dllp cip) 0 * 256 + byte_at (dllp cip) 1;
          dllp_ifsc := byte_at (dllp cip) 2 * 256 + byte_at (dllp cip) 3 |}.
Proof.
  intros Hb Hlen. unfold t1prime_dllp_decode.
  destruct (Z.ltb_spec (dllp_len cip) (2 + 2)) as [H|H]; [lia|].
  rewrite !join16_uint16 by (apply byte_at_is_byte; exact Hb). reflexivity.
Qed.

Lemma i2c_plp_decode_bytes (cip : CIP) :
  is_bytes (plp cip) = true -> 8 <= plp_len cip ->
  t1prime_i2c_plp_decode (plp cip) (plp_len cip)
  = Ok {| plp_configuration := byte_at (plp cip) 0;
          plp_pwt := byte_at (plp cip) 1;
          plp_mcf := byte_at (plp cip) 2 * 256 + byte_at (plp cip) 3;
          plp_pst := byte_at (plp cip) 4;
          plp_mpot := byte_at (plp cip) 5;
          plp_rwgt := byte_at (plp cip) 6 * 256 + byte_at (plp cip) 7 |}.
Proof.
  intros Hb Hlen. unfold t1prime_i2c_plp_decode.
  destruct (Z.ltb_spec (plp_len cip) (1 + 1 + 2 + 1 + 1 + 2)) as [H|H]; [lia|].
  rewrite !join16_uint16 by (apply byte_at_is_byte; exact Hb). reflexivity.
Qed.

(** Activation with a card that answers S(CIP request) with a valid CIP for
    the I2C physical layer and S(RESYNCH request) with S(RESYNCH response):
    the call succeeds, the session takes BWT and IFSC from the data-link
    layer parameters and MPOT from the physical layer parameters of the CIP,
    whatever their values, both sequence counters are 0, the two requests
    are all that was sent, and the clock was set to the default frequency
    and then to the MCF of the CIP in kHz. *)
Theorem activate_adopts_cip (st : T1PrimeProtocolState) (w : World) (cip : CIP)
    (rest : list (Z * list Z)) :
  cip_lengths cip ->
  t1prime_cip_validate cip = T1PRIME_CIP_VALIDATE_SUCCESS ->
  plid cip = PLID_I2C ->
  is_bytes (cip_bytes cip) = true ->
  tx_script w = [] -> prop_script w = [] -> (0 < bwt_polls w)%nat ->
  rx_script w
  = card_frames T1PRIME_PCB_S_CIP_RESP (cip_bytes cip)
    ++ card_frames T1PRIME_PCB_S_RESYNCH_RESP [] ++ rest ->
  t1prime_activate st w
  = (PROTOCOL_ACTIVATE_SUCCESS,
     {| bwt := byte_at (dllp cip) 0 * 256 + byte_at (dllp cip) 1;
        mpot := byte_at (plp cip) 5;
        ifsc := byte_at (dllp cip) 2 * 256 + byte_at (dllp cip) 3;
        send_counter := 0; receive_counter := 0;
        wtx_delay := wtx_delay (clear_wtx_delay st) |},
     mkWorld rest [] 
             (tx_log w ++ [host_block T1PRIME_PCB_S_CIP_REQ [];
                           host_block T1PRIME_PCB_S_RESYNCH_REQ []])
             (bwt_polls w) []
             (clock_log w ++ [T1PRIME_DEFAULT_I2C_CLOCK_FREQUENCY;
                              (byte_at (plp cip) 2 * 256 + byte_at (plp cip) 3) * 1000])).
Proof.
  intros Hl Hv Hplid Hbytes Htx Hprop Hpolls Hrx.
  pose proof (proj1 (cip_validate_success cip) Hv) as (_ & Hpv & Hdv).
  assert (Hplp : 8 <= plp_len cip).
  { destruct Hpv as [[Hspi _]|[_ H]]; [|exact H].
    rewrite Hplid in Hspi. discriminate Hspi. }
  destruct (cip_bytes_parts cip Hbytes) as (Hi & Hp & Hd & Hh & Hbp & Hbd).
  destruct Hl as (Li & Lp & Ld & Lh).
  assert (Hmax : Z.of_nat (length (cip_bytes cip)) <= 0xffff)
    by (rewrite length_cip_bytes; lia).
  unfold t1prime_activate, i2c_set_clock_frequency. rewrite Hprop.
  cbn [hd tl negb]. change (PROTOCOL_SETPROPERTY_SUCCESS =? PROTOCOL_SETPROPERTY_SUCCESS)
    with true. cbn [negb].
  unfold s_cip.
  erewrite (block_transceive_card_validated _ _ _ T1PRIME_PCB_S_CIP_RESP (cip_bytes cip)
              (card_frames T1PRIME_PCB_S_RESYNCH_RESP [] ++ rest));
    [ | cbv; discriminate | exact Htx | exact Hpolls
      | cbv; split; [discriminate|reflexivity]
      | exact Hbytes | exact Hmax | exact Hrx | reflexivity ].
  change (PROTOCOL_TRANSCEIVE_SUCCESS =? PROTOCOL_TRANSMIT_SUCCESS) with true.
  cbn [negb pcb information information_size].
  change (T1PRIME_PCB_S_CIP_RESP =? T1PRIME_PCB_S_CIP_RESP) with true. cbn [negb].
  rewrite (cip_decode_of_bytes cip (conj Li (conj Lp (conj Ld Lh))) Hv).
  rewrite (dllp_decode_bytes cip Hbd Hdv). cbn [dllp_bwt dllp_ifsc].
  rewrite Hplid. change (PLID_I2C =? PLID_I2C) with true. cbv beta iota.
  rewrite (i2c_plp_decode_bytes cip Hbp Hplp). cbn [plp_mcf plp_mpot].
  cbn [prop_script exchanged hd tl].
  change (PROTOCOL_SETPROPERTY_SUCCESS =? PROTOCOL_SETPROPERTY_SUCCESS) with true.
  cbn [negb].
  pose proof (byte_at_is_byte (dllp cip) 2 Hbd) as Hb2.
  pose proof (byte_at_is_byte (dllp cip) 3 Hbd) as Hb3.
  unfold s_resynch.
  erewrite (block_transceive_card_validated _ _ _ T1PRIME_PCB_S_RESYNCH_RESP [] rest);
    [ | cbn [information_size ifsc set_mpot set_ifsc]; lia
      | cbn; rewrite Htx; reflexivity | exact Hpolls
      | cbv; split; [discriminate|reflexivity]
      | reflexivity | cbn; lia | reflexivity | reflexivity ].
  change (PROTOCOL_TRANSCEIVE_SUCCESS =? PROTOCOL_TRANSCEIVE_SUCCESS) with true.
  cbn [negb pcb].
  change (T1PRIME_PCB_S_RESYNCH_RESP =? T1PRIME_PCB_S_RESYNCH_RESP) with true. cbn [negb].
  f_equal; [f_equal|].
  - destruct st as [b m i sc rc wt]. unfold clear_wtx_delay.
    cbn [wtx_delay set_bwt set_ifsc set_mpot set_wtx_delay set_send_counter
         set_receive_counter bwt mpot ifsc send_counter receive_counter].
    destruct (0 <? wt) eqn:Hwt;
      cbn [wtx_delay set_bwt set_ifsc set_mpot set_wtx_delay set_send_counter
           set_receive_counter bwt mpot ifsc send_counter receive_counter];
      rewrite ?Hwt; change (0 <? 0) with false; cbv beta iota;
      cbn [wtx_delay set_bwt set_ifsc set_mpot set_wtx_delay set_send_counter
           set_receive_counter bwt mpot ifsc send_counter receive_counter];
      reflexivity.
  - unfold exchanged, host_block.
    cbn [rx_script tx_script tx_log bwt_polls prop_script clock_log length Z.of_nat].
    rewrite Htx. cbn [tl]. rewrite <- !app_assoc. reflexivity.
Qed.

Lemma activate_adopts_cip_witness :
  t1prime_activate (snd (t1prime_get_protocol_state None))
    (card_world (card_frames 0xe4 (cip_with_ifsc 0x00 0x40) ++ card_frames 0xe0 [] ++ []))
  = (PROTOCOL_ACTIVATE_SUCCESS,
     {| bwt := 0x80; mpot := 0x0a; ifsc := 0x40; send_counter := 0;
        receive_counter := 0; wtx_delay := 0 |},
     mkWorld [] [] [host_block 0xc4 []; host_block 0xc0 []] 1 [] [400000; 400000]).
Proof.
  apply (activate_adopts_cip (snd (t1prime_get_protocol_state None))
           (card_world (card_frames 0xe4 (cip_with_ifsc 0x00 0x40)
                        ++ card_frames 0xe0 [] ++ []))
           (mkCIP 0x01 3 [0x00; 0x00; 0x00] 0x02
                  8 [0x00; 0x00; 0x01; 0x90; 0x00; 0x0a; 0x00; 0x00]
                  4 [0x00; 0x80; 0x00; 0x40] 0 [])
           []);
    try reflexivity; try (cbn; lia).
  repeat split.
Defined.
